(** * Operations Data Consolidation System: reconciliation and validation core

    A shallow embedding of the JavaScript sources

    - [dataIngestion.js]  ([DataCleaner], [DataIngestionService]),
    - [models.js]         (the repository layer over PostgreSQL),
    - [validation.js]     ([ValidationService]),
    - [reporting.js]      ([ReportingService.searchLotByCode]),
    - [db/schema.sql]     (the tables and their constraints),

    followed by the properties of the specification that were checked
    against it.

    Conventions of the embedding.

    - A JavaScript string is a [string]; its characters are the code units
      U+0000..U+00FF.  A JavaScript number is an integer, [NaN] or an
      infinity (finite non-integral doubles are not represented, so
      [Math.floor] is the identity on the numbers modelled, and [parseInt]
      is exact).  A [Date] object is represented by the text its
      [toISOString] method returns, or by [None] when it is an invalid date.
    - [async] functions run sequentially (every call is awaited), so they
      are functions in a state-and-exception monad over the database.
    - The database is an in-memory relational state that always answers;
      a statement either succeeds or is rejected by a constraint of
      [schema.sql], in which case it changes nothing.  Columns that no
      query of the sources reads back are left out: the timestamps
      [created_at], [detected_date] and [source_updated_timestamp], and the
      [id] of the record tables and of the source metadata. *)

From Stdlib Require Import ZArith List String Ascii Bool Arith Lia.
From Stdlib Require Import DecimalString.
Import ListNotations.

Open Scope list_scope.
Open Scope string_scope.

(* ================================================================== *)
(** * JavaScript values *)
(* ================================================================== *)

Module Js.

Inductive number : Type :=
  | NInt (z : Z)
  | NNaN
  | NInf (negative : bool).

Inductive value : Type :=
  | VUndefined
  | VNull
  | VBool (b : bool)
  | VNum (n : number)
  | VStr (s : string)
  | VDate (iso : option string).

(** Errors raised by the language itself. *)
Inductive js_error : Type :=
  | TypeError
  | RangeError.

(** ToBoolean: what [if (x)], [!x] and [x || y] test. *)
Definition truthy (v : value) : bool :=
  match v with
  | VUndefined | VNull => false
  | VBool b => b
  | VNum (NInt z) => negb (z =? 0)%Z
  | VNum NNaN => false
  | VNum (NInf _) => true
  | VStr s => negb (s =? "")
  | VDate _ => true
  end.

(** [a || b] *)
Definition or (a b : value) : value := if truthy a then a else b.

(** ** Strings *)

(** White space of [String.prototype.trim] and of [parseInt] among the code
    units modelled: TAB, LF, VT, FF, CR, SPACE and NBSP. *)
Definition is_ws (c : ascii) : bool :=
  let n := nat_of_ascii c in
  ((9 <=? n) && (n <=? 13) || (n =? 32) || (n =? 160))%nat.

Definition is_digit (c : ascii) : bool :=
  let n := nat_of_ascii c in ((48 <=? n) && (n <=? 57))%nat.

Fixpoint trim_start (s : string) : string :=
  match s with
  | String c s' => if is_ws c then trim_start s' else s
  | EmptyString => EmptyString
  end.

Fixpoint trim_end (s : string) : string :=
  match s with
  | String c s' =>
      let t := trim_end s' in
      if is_ws c && (t =? "") then "" else String c t
  | EmptyString => EmptyString
  end.

(** [s.trim()] *)
Definition trim (s : string) : string := trim_end (trim_start s).

Definition lower_char (c : ascii) : ascii :=
  let n := nat_of_ascii c in
  if ((65 <=? n) && (n <=? 90)
      || (192 <=? n) && (n <=? 222) && negb (n =? 215))%nat
  then ascii_of_nat (n + 32) else c.

(** [s.toLowerCase()] *)
Fixpoint toLowerCase (s : string) : string :=
  match s with
  | String c s' => String (lower_char c) (toLowerCase s')
  | EmptyString => EmptyString
  end.

Fixpoint all_digits (s : string) : bool :=
  match s with
  | String c s' => is_digit c && all_digits s'
  | EmptyString => true
  end.

(** [s.split(sep)] for a one-character separator. *)
Fixpoint split (sep : ascii) (s : string) : list string :=
  match s with
  | EmptyString => [""]
  | String c s' =>
      if Ascii.eqb c sep then "" :: split sep s'
      else match split sep s' with
           | h :: t => String c h :: t
           | [] => [String c ""]
           end
  end.

(** [s.padStart(2, '0')] *)
Definition padStart2 (s : string) : string :=
  match length s with
  | 0 => "00"
  | 1 => "0" ++ s
  | _ => s
  end.

(** Longest prefix of decimal digits, and what follows it. *)
Fixpoint digits_prefix (s : string) : string :=
  match s with
  | String c s' => if is_digit c then String c (digits_prefix s') else ""
  | EmptyString => ""
  end.

Fixpoint decimal_value (acc : Z) (s : string) : Z :=
  match s with
  | String c s' =>
      decimal_value (10 * acc + Z.of_nat (nat_of_ascii c - 48))%Z s'
  | EmptyString => acc
  end.

(** [parseInt(s, 10)] on a string. *)
Definition parseInt_string (s : string) : number :=
  let t := trim_start s in
  let '(neg, u) :=
    match t with
    | String "-" u => (true, u)
    | String "+" u => (false, u)
    | _ => (false, t)
    end in
  match digits_prefix u with
  | "" => NNaN
  | ds => NInt (if neg then - decimal_value 0 ds else decimal_value 0 ds)%Z
  end.

(** [String(n)] for a number. *)
Definition number_toString (n : number) : string :=
  match n with
  | NInt z => NilEmpty.string_of_int (Z.to_int z)
  | NNaN => "NaN"
  | NInf false => "Infinity"
  | NInf true => "-Infinity"
  end.

(** [parseInt(v, 10)]: the argument is first converted to a string.  The
    texts of [undefined], [null], a boolean and a [Date] ("Tue Feb 10 2026
    ...", "Invalid Date") start with a letter, and so do [NaN] and
    [Infinity]; none of them has a digit prefix. *)
Definition parseInt (v : value) : number :=
  match v with
  | VStr s => parseInt_string s
  | VNum (NInt z) => NInt z
  | VNum (NInf _) | VNum NNaN => NNaN
  | VUndefined | VNull | VBool _ | VDate _ => NNaN
  end.

(** [Math.floor] on the numbers modelled. *)
Definition Math_floor (n : number) : number := n.

End Js.

Import Js.

(** Result of a computation that may throw. *)
Inductive outcome (E A : Type) : Type :=
  | Ok (a : A)
  | Throw (e : E).
Arguments Ok {E A} a.
Arguments Throw {E A} e.

(* ================================================================== *)
(** * dataIngestion.js: [DataCleaner] *)
(* ================================================================== *)

Module DataCleaner.

(** [typeof value === 'string' ? value.trim() : value] *)
Definition trimString (v : value) : value :=
  match v with
  | VStr s => VStr (trim s)
  | _ => v
  end.

Fixpoint strip_zeros (s : string) : string :=
  match s with
  | String "0" s' => strip_zeros s'
  | _ => s
  end.

Definition starts_with_digit (s : string) : bool :=
  match s with
  | String c _ => is_digit c
  | EmptyString => false
  end.

(** [value.replace(/^0+([0-9]+)/, '$1') || value].  With [rest] what
    follows the leading zeros: when [rest] starts with a digit, [0+] takes
    all the zeros and the group the digits, which leaves [rest]; otherwise
    the group can only be the last zero (the pattern fails on a single
    zero, which is kept as well), which leaves ["0" ++ rest]. *)
Definition removeLeadingZeros (v : value) : value :=
  match v with
  | VStr s =>
      match s with
      | String "0" _ =>
          let rest := strip_zeros s in
          VStr (if starts_with_digit rest then rest else "0" ++ rest)
      | _ => VStr s
      end
  | _ => v
  end.

(** [/^\d{4}-\d{2}-\d{2}$/.test(s)] *)
Definition is_iso_date (s : string) : bool :=
  match split "-" s with
  | [y; m; d] =>
      (length y =? 4)%nat && all_digits y &&
      (length m =? 2)%nat && all_digits m &&
      (length d =? 2)%nat && all_digits d
  | _ => false
  end.

Definition one_or_two_digits (s : string) : bool :=
  ((length s =? 1) || (length s =? 2))%nat && all_digits s.

(** [/^\d{1,2}\/\d{1,2}\/\d{4}$/.test(s)] *)
Definition is_slash_date (s : string) : bool :=
  match split "/" s with
  | [m; d; y] =>
      one_or_two_digits m && one_or_two_digits d &&
      (length y =? 4)%nat && all_digits y
  | _ => false
  end.

(** [iso.split('T')[0]] *)
Definition before_T (iso : string) : string :=
  match split "T" iso with
  | h :: _ => h
  | [] => ""
  end.

Section StandardizeDate.

(** [new Date(text)] followed by [toISOString], when the time value is not
    [NaN]: the generic parser of the host, which the sources call in the
    third branch. *)
Variable Date_parse : string -> option string.

(** The result is a string or [null] ([None]). *)
Definition standardizeDate (dateValue : value)
  : outcome js_error (option string) :=
  if negb (truthy dateValue) then Ok None
  else match dateValue with
  | VDate (Some iso) => Ok (Some (before_T iso))
  | VDate None => Throw RangeError
  | VStr s =>
      let trimmed := trim s in
      if is_iso_date trimmed then Ok (Some trimmed)
      else if is_slash_date trimmed then
        match split "/" trimmed with
        | [month; day; year] =>
            Ok (Some (year ++ "-" ++ padStart2 month ++ "-" ++ padStart2 day))
        | _ => Ok None
        end
      else if is_slash_date trimmed then
        match Date_parse trimmed with
        | Some iso => Ok (Some (before_T iso))
        | None => Ok None
        end
      else Ok None
  | _ => Ok None
  end.

End StandardizeDate.

(** [trimmed.replace(/^0+/, '') || '0']; [replace] is read from the result
    of [trimString], which is a string only when the argument is. *)
Definition cleanLotCode (lotCode : value) : outcome js_error string :=
  match trimString lotCode with
  | VStr trimmed =>
      let r := strip_zeros trimmed in
      Ok (if r =? "" then "0" else r)
  | _ => Throw TypeError
  end.

Definition true_words : list string := ["yes"; "y"; "true"; "pass"; "1"].
Definition false_words : list string := ["no"; "n"; "false"; "fail"; "0"].

Definition includes (l : list string) (s : string) : bool :=
  existsb (String.eqb s) l.

Definition toBoolean (v : value) (defaultValue : bool) : bool :=
  match v with
  | VBool b => b
  | VStr s =>
      let normalized := toLowerCase (trim s) in
      if includes true_words normalized then true
      else if includes false_words normalized then false
      else defaultValue
  | _ => defaultValue
  end.

Definition toInteger (v : value) (defaultValue : number) : number :=
  match v with
  | VNum n => Math_floor n
  | _ =>
      match parseInt v with
      | NNaN => defaultValue
      | parsed => parsed
      end
  end.

End DataCleaner.

Import DataCleaner.


(* ================================================================== *)
(** * db/schema.sql: the persisted state *)
(* ================================================================== *)

Module Db.

(** ** Column types *)

(** A value of type [DATE]. *)
Record date : Type := mkDate { year : nat; month : nat; day : nat }.

Definition date_eqb (a b : date) : bool :=
  ((year a =? year b) && (month a =? month b) && (day a =? day b))%nat.

(** [a < b] on [DATE]. *)
Definition date_ltb (a b : date) : bool :=
  ((year a <? year b)
   || (year a =? year b) && ((month a <? month b)
                             || (month a =? month b) && (day a <? day b)))%nat.

Definition is_leap (y : nat) : bool :=
  ((y mod 4 =? 0) && (negb (y mod 100 =? 0) || (y mod 400 =? 0)))%nat.

Definition days_in_month (y m : nat) : nat :=
  match m with
  | 1 | 3 | 5 | 7 | 8 | 10 | 12 => 31
  | 4 | 6 | 9 | 11 => 30
  | 2 => if is_leap y then 29 else 28
  | _ => 0
  end.

Definition nat_of_digits (s : string) : nat := Z.to_nat (decimal_value 0 s).

(** How the server reads a [DATE] parameter.  Every text the sources bind
    to a date column comes from [standardizeDate]; the form [YYYY-MM-DD] is
    read as a calendar date and refused when there is no such day, and any
    other text is refused. *)
Definition date_in (s : string) : option date :=
  if is_iso_date s then
    match split "-" s with
    | [y; m; d] =>
        let y := nat_of_digits y in
        let m := nat_of_digits m in
        let d := nat_of_digits d in
        if ((1 <=? y) && (1 <=? m) && (m <=? 12)
            && (1 <=? d) && (d <=? days_in_month y m))%nat
        then Some (mkDate y m d) else None
    | _ => None
    end
  else None.

Inductive db_error : Type :=
  | invalid_datetime_format
  | invalid_integer
  | string_too_long
  | not_null_violation
  | check_violation
  | unique_violation
  | foreign_key_violation.

(** The text the driver sends for a parameter; [None] is [NULL].  A [Date]
    is sent in the driver's own timestamp format, for which the text that
    represents the [Date] stands here; the file readers put strings,
    numbers and booleans in a row, and no property below depends on it. *)
Definition text_param (v : value) : option string :=
  match v with
  | VStr s => Some s
  | VNum n => Some (number_toString n)
  | VBool true => Some "true"
  | VBool false => Some "false"
  | VDate (Some iso) => Some iso
  | VDate None => Some "Invalid Date"
  | VNull | VUndefined => None
  end.

(** [VARCHAR(n) NOT NULL] and [CHAR(n) NOT NULL] (whose padding with
    blanks is not kept).  The texts bound by the sources are trimmed or
    literal, so the rule that drops excess trailing spaces never applies. *)
Definition varchar (n : nat) (v : value) : outcome db_error string :=
  match text_param v with
  | None => Throw not_null_violation
  | Some s => if (length s <=? n)%nat then Ok s else Throw string_too_long
  end.

(** [INTEGER NOT NULL] *)
Definition integer (n : number) : outcome db_error Z :=
  match n with
  | NInt z =>
      if ((-2147483648 <=? z) && (z <=? 2147483647))%Z then Ok z
      else Throw invalid_integer
  | _ => Throw invalid_integer
  end.

(** ** Tables *)

Record lot : Type := mkLot {
  lot_id : Z;
  lot_code : string;
  production_date : date;
  is_pending_inspection : bool;
  has_data_integrity_issue : bool;
  has_date_conflict : bool
}.

Record production_record : Type := mkProduction {
  pr_lot_id : Z;
  production_line_id : string;
  shift : string;
  units_planned : Z;
  units_actual : Z;
  downtime_minutes : Z;
  has_line_issue : bool
}.

Record quality_inspection_record : Type := mkQuality {
  q_lot_id : Z;
  inspection_date : date;
  is_pass : bool;
  defect_type : string;
  defect_count : Z;
  inspector_id : string
}.

Record shipping_record : Type := mkShipping {
  s_lot_id : Z;
  ship_date : date;
  destination_state : string;
  carrier : string;
  qty_shipped : Z;
  shipment_status : string
}.

(** The three texts that [validation.js] builds with template literals,
    kept with their holes. *)
Inductive description : Type :=
  | PendingText (code : string) (produced : date)
  | OrphanedText (code : string) (destination : string)
  | ConflictText (code : string) (shipped produced : date).

Record data_integrity_flag : Type := mkFlag {
  flag_id : Z;
  f_lot_id : Z;
  flag_type : string;
  severity : string;
  flag_description : description;
  is_resolved : bool
}.

Record data_source_metadata : Type := mkSource {
  source_name : string;
  source_location : string;
  file_format : string;
  last_updated_timestamp : Z;   (* milliseconds *)
  refresh_status : string
}.

Record store : Type := mkStore {
  lots : list lot;
  lots_id_seq : Z;
  production_records : list production_record;
  quality_inspection_records : list quality_inspection_record;
  shipping_records : list shipping_record;
  data_integrity_flags : list data_integrity_flag;
  flags_id_seq : Z;
  data_source_metadatas : list data_source_metadata
}.

Definition empty : store := mkStore [] 1 [] [] [] [] 1 [].

Definition set_lots (f : list lot -> list lot) (st : store) : store :=
  mkStore (f (lots st)) (lots_id_seq st) (production_records st)
    (quality_inspection_records st) (shipping_records st)
    (data_integrity_flags st) (flags_id_seq st) (data_source_metadatas st).

Definition set_lots_id_seq (z : Z) (st : store) : store :=
  mkStore (lots st) z (production_records st)
    (quality_inspection_records st) (shipping_records st)
    (data_integrity_flags st) (flags_id_seq st) (data_source_metadatas st).

Definition add_production (r : production_record) (st : store) : store :=
  mkStore (lots st) (lots_id_seq st) (production_records st ++ [r])
    (quality_inspection_records st) (shipping_records st)
    (data_integrity_flags st) (flags_id_seq st) (data_source_metadatas st).

Definition add_quality (r : quality_inspection_record) (st : store) : store :=
  mkStore (lots st) (lots_id_seq st) (production_records st)
    (quality_inspection_records st ++ [r]) (shipping_records st)
    (data_integrity_flags st) (flags_id_seq st) (data_source_metadatas st).

Definition add_shipping (r : shipping_record) (st : store) : store :=
  mkStore (lots st) (lots_id_seq st) (production_records st)
    (quality_inspection_records st) (shipping_records st ++ [r])
    (data_integrity_flags st) (flags_id_seq st) (data_source_metadatas st).

Definition add_flag (f : data_integrity_flag) (st : store) : store :=
  mkStore (lots st) (lots_id_seq st) (production_records st)
    (quality_inspection_records st) (shipping_records st)
    (data_integrity_flags st ++ [f]) (flags_id_seq st + 1)
    (data_source_metadatas st).

Definition set_sources
  (f : list data_source_metadata -> list data_source_metadata) (st : store)
  : store :=
  mkStore (lots st) (lots_id_seq st) (production_records st)
    (quality_inspection_records st) (shipping_records st)
    (data_integrity_flags st) (flags_id_seq st) (f (data_source_metadatas st)).

Definition lot_exists (id : Z) (st : store) : bool :=
  existsb (fun l => (lot_id l =? id)%Z) (lots st).

Definition has_quality (id : Z) (st : store) : bool :=
  existsb (fun q => (q_lot_id q =? id)%Z) (quality_inspection_records st).

End Db.

Import Db.

(* ================================================================== *)
(** * Sequential [async] code: state and exceptions *)
(* ================================================================== *)

Inductive error : Type :=
  | JsError (e : js_error)
  | DbError (e : db_error).

(** An awaited call: it reads and writes the database and returns or
    throws.  A statement that throws leaves the database as it was, and
    what earlier statements wrote stays written (there is no transaction
    around a row). *)
Definition M (A : Type) : Type := store -> outcome error A * store.

Definition ret {A} (a : A) : M A := fun st => (Ok a, st).
Definition throw {A} (e : error) : M A := fun st => (Throw e, st).
Definition bind {A B} (m : M A) (k : A -> M B) : M B :=
  fun st =>
    match m st with
    | (Ok a, st') => k a st'
    | (Throw e, st') => (Throw e, st')
    end.

(** [try { m } catch (error) { h error }] *)
Definition try_catch {A} (m : M A) (h : error -> M A) : M A :=
  fun st =>
    match m st with
    | (Ok a, st') => (Ok a, st')
    | (Throw e, st') => h e st'
    end.

Definition lift_js {A} (o : outcome js_error A) : M A :=
  match o with
  | Ok a => ret a
  | Throw e => throw (JsError e)
  end.

Definition lift_db {A} (o : outcome db_error A) : M A :=
  match o with
  | Ok a => ret a
  | Throw e => throw (DbError e)
  end.

Definition get : M store := fun st => (Ok st, st).
Definition modify (f : store -> store) : M unit := fun st => (Ok tt, f st).

Notation "x <- m ;; k" := (bind m (fun x => k))
  (at level 61, m at next level, right associativity).
Notation "m ;;; k" := (bind m (fun _ => k))
  (at level 61, right associativity).

(* ================================================================== *)
(** * models.js: the repository layer *)
(* ================================================================== *)

Module Lot.

Definition same_key (code : string) (d : date) (l : lot) : bool :=
  (lot_code l =? code) && date_eqb (production_date l) d.

(** [INSERT INTO lots ... ON CONFLICT (lot_code, production_date) DO UPDATE
    SET lot_code = EXCLUDED.lot_code RETURNING *].  The default of [id]
    takes the next value of the sequence, also when the row conflicts and
    the existing lot is returned. *)
Definition create (lotCode productionDate : string) : M lot :=
  fun st =>
    match date_in productionDate with
    | None => (Throw (DbError invalid_datetime_format), st)
    | Some d =>
        if (50 <? length lotCode)%nat
        then (Throw (DbError string_too_long), st)
        else
          let id := lots_id_seq st in
          let st1 := set_lots_id_seq (id + 1) st in
          match find (same_key lotCode d) (lots st) with
          | Some l => (Ok l, st1)
          | None =>
              if lot_exists id st
              then (Throw (DbError unique_violation), st)
              else
                let l := mkLot id lotCode d true false false in
                (Ok l, set_lots (fun ls => (ls ++ [l])%list) st1)
          end
    end.

(** [SELECT * FROM lots WHERE lot_code = $1 AND production_date = $2];
    [result.rows[0] || null]. *)
Definition findByCompositeKey (lotCode productionDate : string)
  : M (option lot) :=
  fun st =>
    match date_in productionDate with
    | None => (Throw (DbError invalid_datetime_format), st)
    | Some d => (Ok (find (same_key lotCode d) (lots st)), st)
    end.

Definition findById (lotId : Z) : M (option lot) :=
  fun st => (Ok (find (fun l => (lot_id l =? lotId)%Z) (lots st)), st).

(** The [updates] object: a value for each allowed field it has. *)
Record updates : Type := mkUpdates {
  set_is_pending_inspection : option bool;
  set_has_data_integrity_issue : option bool;
  set_has_date_conflict : option bool
}.

Definition no_clause (u : updates) : bool :=
  match set_is_pending_inspection u, set_has_data_integrity_issue u,
        set_has_date_conflict u with
  | None, None, None => true
  | _, _, _ => false
  end.

Definition assign {A} (o : option A) (old : A) : A :=
  match o with Some a => a | None => old end.

Definition apply (u : updates) (l : lot) : lot :=
  mkLot (lot_id l) (lot_code l) (production_date l)
    (assign (set_is_pending_inspection u) (is_pending_inspection l))
    (assign (set_has_data_integrity_issue u) (has_data_integrity_issue l))
    (assign (set_has_date_conflict u) (has_date_conflict l)).

(** [UPDATE lots SET ... WHERE id = $n RETURNING *] *)
Definition update (lotId : Z) (u : updates) : M (option lot) :=
  if no_clause u then findById lotId
  else
    fun st =>
      let st' :=
        set_lots (map (fun l => if (lot_id l =? lotId)%Z then apply u l else l))
          st in
      (Ok (find (fun l => (lot_id l =? lotId)%Z) (lots st')), st').

End Lot.

Module ProductionRecord.

Definition create (lotId : Z) (productionLineId shift : value)
    (unitsPlanned unitsActual downtimeMinutes : number) (hasLineIssue : bool)
  : M production_record :=
  line <- lift_db (varchar 20 productionLineId) ;;
  sh <- lift_db (varchar 20 shift) ;;
  planned <- lift_db (integer unitsPlanned) ;;
  actual <- lift_db (integer unitsActual) ;;
  downtime <- lift_db (integer downtimeMinutes) ;;
  st <- get ;;
  if negb (lot_exists lotId st) then throw (DbError foreign_key_violation)
  else if negb ((0 <=? planned) && (0 <=? actual) && (0 <=? downtime))%Z
  then throw (DbError check_violation)
  else
    let r := mkProduction lotId line sh planned actual downtime hasLineIssue in
    modify (add_production r) ;;; ret r.

End ProductionRecord.

Module QualityInspectionRecord.

Definition create (lotId : Z) (inspectionDate : string) (isPass : bool)
    (defectType : value) (defectCount : number) (inspectorId : value)
  : M quality_inspection_record :=
  match date_in inspectionDate with
  | None => throw (DbError invalid_datetime_format)
  | Some d =>
      dtype <- lift_db (varchar 50 defectType) ;;
      count <- lift_db (integer defectCount) ;;
      inspector <- lift_db (varchar 50 inspectorId) ;;
      st <- get ;;
      if negb (lot_exists lotId st) then throw (DbError foreign_key_violation)
      else if negb (0 <=? count)%Z then throw (DbError check_violation)
      else
        let r := mkQuality lotId d isPass dtype count inspector in
        modify (add_quality r) ;;; ret r
  end.

(** [SELECT l.* FROM lots l LEFT JOIN quality_inspection_records q
     ON l.id = q.lot_id WHERE q.id IS NULL] *)
Definition findLotsWithoutQuality : M (list lot) :=
  fun st =>
    (Ok (filter (fun l => negb (has_quality (lot_id l) st)) (lots st)), st).

End QualityInspectionRecord.

Module ShippingRecord.

Definition create (lotId : Z) (shipDate : string)
    (destinationState carrier : value) (qtyShipped : number)
    (shipmentStatus : value)
  : M shipping_record :=
  match date_in shipDate with
  | None => throw (DbError invalid_datetime_format)
  | Some d =>
      dest <- lift_db (varchar 2 destinationState) ;;
      carr <- lift_db (varchar 50 carrier) ;;
      qty <- lift_db (integer qtyShipped) ;;
      status <- lift_db (varchar 20 shipmentStatus) ;;
      st <- get ;;
      if negb (lot_exists lotId st) then throw (DbError foreign_key_violation)
      else if existsb (fun s => (s_lot_id s =? lotId)%Z) (shipping_records st)
      then throw (DbError unique_violation)
      else if negb (0 <=? qty)%Z then throw (DbError check_violation)
      else
        let r := mkShipping lotId d dest carr qty status in
        modify (add_shipping r) ;;; ret r
  end.

(** [SELECT s.*, l.lot_code FROM shipping_records s JOIN lots l
     ON s.lot_id = l.id LEFT JOIN quality_inspection_records q
     ON l.id = q.lot_id WHERE q.id IS NULL] *)
Definition findOrphanedShipments : M (list (shipping_record * string)) :=
  fun st =>
    (Ok (flat_map
           (fun s =>
              map (fun l => (s, lot_code l))
                (filter (fun l => (lot_id l =? s_lot_id s)%Z
                                  && negb (has_quality (lot_id l) st))
                   (lots st)))
           (shipping_records st)),
     st).

End ShippingRecord.

Module DataIntegrityFlag.

Definition severities : list string := ["Warning"; "Error"; "Critical"].

Definition create (lotId : Z) (flagType severity : string)
    (text : description) : M data_integrity_flag :=
  fun st =>
    if (50 <? length flagType)%nat || (20 <? length severity)%nat
    then (Throw (DbError string_too_long), st)
    else if negb (includes severities severity)
    then (Throw (DbError check_violation), st)
    else if negb (lot_exists lotId st)
    then (Throw (DbError foreign_key_violation), st)
    else
      let f := mkFlag (flags_id_seq st) lotId flagType severity text false in
      (Ok f, add_flag f st).

Definition matches (lotId : Z) (flagType : string) (f : data_integrity_flag)
  : bool :=
  (f_lot_id f =? lotId)%Z && (flag_type f =? flagType)
  && negb (is_resolved f).

(** [SELECT * FROM data_integrity_flags WHERE lot_id = $1 AND flag_type = $2
     AND is_resolved = false LIMIT 1]; [result.rows[0] || null]. *)
Definition findExisting (lotId : Z) (flagType : string)
  : M (option data_integrity_flag) :=
  fun st => (Ok (find (matches lotId flagType) (data_integrity_flags st)), st).

Definition resolve (f : data_integrity_flag) : data_integrity_flag :=
  mkFlag (flag_id f) (f_lot_id f) (flag_type f) (severity f)
    (flag_description f) true.

(** [UPDATE data_integrity_flags SET is_resolved = true WHERE id = $1
     RETURNING *]; [result.rows[0]]. *)
Definition markResolved (flagId : Z) : M (option data_integrity_flag) :=
  fun st =>
    let flags' :=
      map (fun f => if (flag_id f =? flagId)%Z then resolve f else f)
        (data_integrity_flags st) in
    (Ok (find (fun f => (flag_id f =? flagId)%Z) flags'),
     mkStore (lots st) (lots_id_seq st) (production_records st)
       (quality_inspection_records st) (shipping_records st) flags'
       (flags_id_seq st) (data_source_metadatas st)).

End DataIntegrityFlag.

Module DataSourceMetadata.

Definition statuses : list string := ["Healthy"; "Stale"; "Error"].

(** [INSERT ... ON CONFLICT (source_name) DO UPDATE SET ...], with
    [CURRENT_TIMESTAMP] read from the argument [now]. *)
Definition upsert (sourceName sourceLocation fileFormat refreshStatus : string)
    (now : Z) : M data_source_metadata :=
  fun st =>
    if (100 <? length sourceName)%nat || (10 <? length fileFormat)%nat
       || (20 <? length refreshStatus)%nat
    then (Throw (DbError string_too_long), st)
    else if negb (includes statuses refreshStatus)
    then (Throw (DbError check_violation), st)
    else
      let m := mkSource sourceName sourceLocation fileFormat now
                 refreshStatus in
      let put l :=
        if existsb (fun x => source_name x =? sourceName) l
        then map (fun x => if source_name x =? sourceName then m else x) l
        else (l ++ [m])%list in
      (Ok m, set_sources put st).

Fixpoint insert_by_name (m : data_source_metadata)
    (l : list data_source_metadata) : list data_source_metadata :=
  match l with
  | [] => [m]
  | x :: l' =>
      if (source_name m <=? source_name x) then m :: l
      else x :: insert_by_name m l'
  end.

(** [SELECT * FROM data_source_metadatas ORDER BY source_name ASC] *)
Definition getAllSources : M (list data_source_metadata) :=
  fun st => (Ok (fold_right insert_by_name [] (data_source_metadatas st)), st).

(** [SELECT * FROM data_source_metadatas WHERE source_name = $1];
    [result.rows[0] || null]. *)
Definition findByName (sourceName : string) : M (option data_source_metadata) :=
  fun st =>
    (Ok (find (fun x => source_name x =? sourceName)
           (data_source_metadatas st)),
     st).

End DataSourceMetadata.

(* ================================================================== *)
(** * dataIngestion.js: [DataIngestionService] *)
(* ================================================================== *)

(** A parsed row: the properties of the object that the file reader
    produced for one line of a sheet. *)
Definition row : Type := list (string * value).

(** [record[key]] *)
Fixpoint prop (record : row) (key : string) : value :=
  match record with
  | [] => VUndefined
  | (k, v) :: rest => if k =? key then v else prop rest key
  end.

(** [config.dataSources] *)
Record dataSources : Type := mkDataSources {
  productionLogsPath : string;
  qualityLogsPath : string;
  shippingLogsPath : string
}.

Inductive ingestion_error : Type :=
  | InvalidRow (record : row)        (* "Invalid lot code or ... date: ..." *)
  | RowError (e : error)             (* "Error processing ... record: ..." *)
  | IngestionFailed (e : error).     (* "... ingestion failed: ..." *)

Record ingestion_result : Type := mkIngestion {
  source : string;
  recordsRead : nat;
  recordsIngested : nat;
  errors : list ingestion_error
}.

Definition push_error (e : ingestion_error) (r : ingestion_result)
  : ingestion_result :=
  mkIngestion (source r) (recordsRead r) (recordsIngested r)
    (errors r ++ [e]).

Definition count_ingested (r : ingestion_result) : ingestion_result :=
  mkIngestion (source r) (recordsRead r) (recordsIngested r + 1) (errors r).

(** How the body of the loop over the records ends when it does not throw:
    at [continue] after the guard, or after its last statement. *)
Inductive row_end : Type := Rejected | Ingested.

Module DataIngestionService.

Section Service.

Variable Date_parse : string -> option string.
Variable config : dataSources.

(** [!lotCode || !date] *)
Definition missing_key (lotCode : string) (date : option string) : bool :=
  (lotCode =? "")
  || match date with
     | None => true
     | Some d => d =? ""
     end.

Definition the_date (date : option string) : string :=
  match date with Some d => d | None => "" end.

Definition production_row (record : row) : M row_end :=
  lotCode <- lift_js (cleanLotCode
    (or (or (prop record "Lot ID") (prop record "LotCode")) (VStr ""))) ;;
  productionDate <- lift_js (standardizeDate Date_parse
    (or (or (prop record "Production Date") (prop record "Date")) (VStr ""))) ;;
  if missing_key lotCode productionDate then ret Rejected
  else
    lot <- Lot.create lotCode (the_date productionDate) ;;
    let productionLineId := trimString
      (or (or (prop record "Production Line") (prop record "Line")) (VStr "")) in
    let shift := trimString (or (prop record "Shift") (VStr "")) in
    let unitsPlanned := toInteger
      (or (or (prop record "Units Planned") (prop record "Planned"))
         (VNum (NInt 0))) (NInt 0) in
    let unitsActual := toInteger
      (or (or (prop record "Units Actual") (prop record "Actual"))
         (VNum (NInt 0))) (NInt 0) in
    let downtimeMinutes := toInteger
      (or (or (prop record "Downtime Minutes") (prop record "DowntimeMinutes"))
         (VNum (NInt 0))) (NInt 0) in
    let hasLineIssue := toBoolean
      (or (or (prop record "Line Issue") (prop record "HasIssue"))
         (VBool false)) false in
    ProductionRecord.create (lot_id lot) productionLineId shift unitsPlanned
      unitsActual downtimeMinutes hasLineIssue ;;;
    ret Ingested.

Definition quality_row (record : row) : M row_end :=
  lotCode <- lift_js (cleanLotCode
    (or (or (prop record "Lot ID") (prop record "LotCode")) (VStr ""))) ;;
  inspectionDate <- lift_js (standardizeDate Date_parse
    (or (or (prop record "Inspection Date") (prop record "Date")) (VStr ""))) ;;
  if missing_key lotCode inspectionDate then ret Rejected
  else
    found <- Lot.findByCompositeKey lotCode (the_date inspectionDate) ;;
    lot <- match found with
           | Some l => ret l
           | None => Lot.create lotCode (the_date inspectionDate)
           end ;;
    let isPass := toBoolean
      (or (or (prop record "Is Pass") (prop record "Pass")) (VBool false))
      false in
    let defectType := trimString
      (or (or (prop record "Defect Type") (prop record "DefectType"))
         (VStr "")) in
    let defectCount := toInteger
      (or (or (prop record "Defect Count") (prop record "DefectCount"))
         (VNum (NInt 0))) (NInt 0) in
    let inspectorId := trimString
      (or (or (prop record "Inspector ID") (prop record "Inspector"))
         (VStr "UNKNOWN")) in
    QualityInspectionRecord.create (lot_id lot) (the_date inspectionDate)
      isPass defectType defectCount inspectorId ;;;
    Lot.update (lot_id lot) (Lot.mkUpdates (Some false) None None) ;;;
    ret Ingested.

Definition shipping_row (record : row) : M row_end :=
  lotCode <- lift_js (cleanLotCode
    (or (or (prop record "Lot ID") (prop record "LotCode")) (VStr ""))) ;;
  shipDate <- lift_js (standardizeDate Date_parse
    (or (or (prop record "Ship Date") (prop record "Date")) (VStr ""))) ;;
  if missing_key lotCode shipDate then ret Rejected
  else
    found <- Lot.findByCompositeKey lotCode (the_date shipDate) ;;
    lot <- match found with
           | Some l => ret l
           | None => Lot.create lotCode (the_date shipDate)
           end ;;
    let destinationState := trimString
      (or (or (prop record "Destination State") (prop record "State"))
         (VStr "")) in
    let carrier := trimString (or (prop record "Carrier") (VStr "UNKNOWN")) in
    let qtyShipped := toInteger
      (or (or (prop record "Qty Shipped") (prop record "Quantity"))
         (VNum (NInt 0))) (NInt 0) in
    let shipmentStatus := trimString
      (or (prop record "Status") (VStr "In Transit")) in
    ShippingRecord.create (lot_id lot) (the_date shipDate) destinationState
      carrier qtyShipped shipmentStatus ;;;
    ret Ingested.

(** [for (const record of records) { try { ... } catch (error) { ... } }] *)
Fixpoint each_record (body : row -> M row_end) (records : list row)
    (result : ingestion_result) : M ingestion_result :=
  match records with
  | [] => ret result
  | record :: rest =>
      result' <-
        try_catch
          (e <- body record ;;
           ret (match e with
                | Rejected => push_error (InvalidRow record) result
                | Ingested => count_ingested result
                end))
          (fun error => ret (push_error (RowError error) result)) ;;
      each_record body rest result'
  end.

(** The common shape of the three [ingest...Logs] functions.  [records] is
    what [FileReader.readLatestFromDirectory] returned, which never
    throws; after the loop the outer [try] only covers the upsert of the
    source's metadata. *)
Definition ingest (name path format : string)
    (status : ingestion_result -> string) (body : row -> M row_end)
    (records : list row) (now : Z) : M ingestion_result :=
  let result := mkIngestion name (List.length records) 0 [] in
  match records with
  | [] => ret result
  | _ =>
      result <- each_record body records result ;;
      try_catch
        (DataSourceMetadata.upsert name path format (status result) now ;;;
         ret result)
        (fun error => ret (push_error (IngestionFailed error) result))
  end.

Definition ingestProductionLogs : list row -> Z -> M ingestion_result :=
  ingest "Production Logs" (productionLogsPath config) "CSV"
    (fun result =>
       match errors result with
       | [] => "Healthy"
       | _ => "Healthy (Some Errors)"
       end)
    production_row.

Definition ingestQualityLogs : list row -> Z -> M ingestion_result :=
  ingest "Quality Inspection" (qualityLogsPath config) "XLSX"
    (fun _ => "Healthy") quality_row.

Definition ingestShippingLogs : list row -> Z -> M ingestion_result :=
  ingest "Shipping Logs" (shippingLogsPath config) "XLSX"
    (fun _ => "Healthy") shipping_row.

Definition ingestAllData (production quality shipping : list row) (now : Z)
  : M (list ingestion_result) :=
  r1 <- ingestProductionLogs production now ;;
  r2 <- ingestQualityLogs quality now ;;
  r3 <- ingestShippingLogs shipping now ;;
  ret [r1; r2; r3].

End Service.

End DataIngestionService.

(* ================================================================== *)
(** * validation.js: [ValidationService] *)
(* ================================================================== *)

Inductive validation_error : Type :=
  | CheckError (lotCode : string) (e : error)
  | RuleFailed (e : error).

Record validation_result : Type := mkValidation {
  name : string;
  flagsCreated : nat;
  flagsSkipped : nat;
  validation_errors : list validation_error
}.

Definition created (r : validation_result) : validation_result :=
  mkValidation (name r) (flagsCreated r + 1) (flagsSkipped r)
    (validation_errors r).

Definition skipped (r : validation_result) : validation_result :=
  mkValidation (name r) (flagsCreated r) (flagsSkipped r + 1)
    (validation_errors r).

Definition push_validation_error (e : validation_error)
    (r : validation_result) : validation_result :=
  mkValidation (name r) (flagsCreated r) (flagsSkipped r)
    (validation_errors r ++ [e]).

Record source_health : Type := mkHealth {
  sourceName : string;
  lastUpdatedTimestamp : Z;
  timeSinceUpdateMinutes : Z;
  refreshStatus : string;
  sourceLocation : string;
  fileFormat : string
}.

Module ValidationService.

(** One violation found by a rule: the id and the code of the lot, and the
    text of the flag to raise for it. *)
Record finding : Type := mkFinding {
  finding_lot : Z;
  finding_code : string;
  finding_text : description
}.

(** The body of the loop of each rule: the three rules repeat it with
    their own flag type, severity and lot column.  The counters are
    updated between the creation of the flag and the update of the lot,
    and keep their new value when the update throws. *)
Definition check_one (flagType severity : string) (u : Lot.updates)
    (x : finding) (result : validation_result) : M validation_result :=
  try_catch
    (existingFlag <- DataIntegrityFlag.findExisting (finding_lot x) flagType ;;
     result' <-
       match existingFlag with
       | None =>
           DataIntegrityFlag.create (finding_lot x) flagType severity
             (finding_text x) ;;;
           ret (created result)
       | Some _ => ret (skipped result)
       end ;;
     try_catch
       (Lot.update (finding_lot x) u ;;; ret result')
       (fun error =>
          ret (push_validation_error (CheckError (finding_code x) error)
                 result')))
    (fun error =>
       ret (push_validation_error (CheckError (finding_code x) error) result)).

Fixpoint check_each (flagType severity : string) (u : Lot.updates)
    (found : list finding) (result : validation_result)
  : M validation_result :=
  match found with
  | [] => ret result
  | x :: rest =>
      result' <- check_one flagType severity u x result ;;
      check_each flagType severity u rest result'
  end.

Definition run_rule (ruleName flagType severity : string) (u : Lot.updates)
    (query : M (list finding)) : M validation_result :=
  let result := mkValidation ruleName 0 0 [] in
  try_catch
    (found <- query ;; check_each flagType severity u found result)
    (fun error => ret (push_validation_error (RuleFailed error) result)).

Definition lotsWithoutQuality : M (list finding) :=
  l <- QualityInspectionRecord.findLotsWithoutQuality ;;
  ret (map (fun lot =>
              mkFinding (lot_id lot) (lot_code lot)
                (PendingText (lot_code lot) (production_date lot))) l).

Definition validatePendingInspections : M validation_result :=
  run_rule "Pending Inspections" "Pending Inspection" "Warning"
    (Lot.mkUpdates (Some true) None None) lotsWithoutQuality.

Definition orphanedShipments : M (list finding) :=
  l <- ShippingRecord.findOrphanedShipments ;;
  ret (map (fun shipment : shipping_record * string =>
              let (s, code) := shipment in
              mkFinding (s_lot_id s) code
                (OrphanedText code (destination_state s))) l).

Definition validateOrphanedShipments : M validation_result :=
  run_rule "Orphaned Shipments" "Orphaned Shipment" "Critical"
    (Lot.mkUpdates None (Some true) None) orphanedShipments.

(** [SELECT l.id, l.lot_code, l.production_date, s.ship_date,
     s.destination_state FROM shipping_records s JOIN lots l
     ON s.lot_id = l.id WHERE s.ship_date < l.production_date] *)
Definition dateConflicts : M (list finding) :=
  fun st =>
    (Ok (flat_map
           (fun s =>
              map (fun l =>
                     mkFinding (lot_id l) (lot_code l)
                       (ConflictText (lot_code l) (ship_date s)
                          (production_date l)))
                (filter (fun l => (lot_id l =? s_lot_id s)%Z
                                  && date_ltb (ship_date s) (production_date l))
                   (lots st)))
           (shipping_records st)),
     st).

Definition validateDateLogic : M validation_result :=
  run_rule "Date Logic Validation" "Date Conflict" "Error"
    (Lot.mkUpdates None None (Some true)) dateConflicts.

Definition runAllValidations : M (list validation_result) :=
  r1 <- validatePendingInspections ;;
  r2 <- validateOrphanedShipments ;;
  r3 <- validateDateLogic ;;
  ret [r1; r2; r3].

(** [now] is [new Date()]; times are in milliseconds. *)
Definition checkSourceHealth (staleThresholdHours : Z) (now : Z)
  : M (list source_health) :=
  try_catch
    (sources <- DataSourceMetadata.getAllSources ;;
     let staleThresholdMs := (staleThresholdHours * 60 * 60 * 1000)%Z in
     ret (map (fun source =>
                 let lastUpdated := last_updated_timestamp source in
                 let timeSinceUpdate := (now - lastUpdated)%Z in
                 let isStale := (staleThresholdMs <? timeSinceUpdate)%Z in
                 mkHealth (source_name source) (last_updated_timestamp source)
                   (timeSinceUpdate / 60000)%Z
                   (if isStale then "Stale" else refresh_status source)
                   (source_location source) (file_format source))
            sources))
    (fun _ => ret []).

End ValidationService.

(* ================================================================== *)
(** * reporting.js: [ReportingService.searchLotByCode] *)
(* ================================================================== *)

Module ReportingService.

(** A row of the query of [searchLotByCode]; the columns of a table that
    the [LEFT JOIN] did not match are [NULL]. *)
Record joined_row : Type := mkRow {
  row_lot : lot;
  row_production : option production_record;
  row_quality : option quality_inspection_record;
  row_shipping : option shipping_record
}.

Definition quality_pass (r : joined_row) : option bool :=
  option_map is_pass (row_quality r).

Definition row_shipment_status (r : joined_row) : option string :=
  option_map shipment_status (row_shipping r).

(** [if (row.shipment_status)]: neither [null] nor the empty string. *)
Definition truthy_text (o : option string) : bool :=
  match o with
  | Some s => negb (s =? "")
  | None => false
  end.

(** The chain of [if]s that sets [currentStatus]. *)
Definition currentStatus (r : joined_row) : string :=
  if has_date_conflict (row_lot r) then "Data Conflict"
  else if truthy_text (row_shipment_status r)
  then match row_shipment_status r with Some s => s | None => "" end
  else match quality_pass r with
       | Some false => "Failed Quality"
       | Some true => "Passed Quality"
       | None =>
           if is_pending_inspection (row_lot r) then "Pending Inspection"
           else "In Production"
       end.

Fixpoint insert_by_date_desc (l : lot) (ls : list lot) : list lot :=
  match ls with
  | [] => [l]
  | x :: ls' =>
      if date_ltb (production_date l) (production_date x)
      then x :: insert_by_date_desc l ls'
      else l :: ls
  end.

(** [result.rows[0]] of
    [SELECT ... FROM lots l LEFT JOIN production_records pr ON ...
     LEFT JOIN quality_inspection_records qir ON ...
     LEFT JOIN shipping_records sr ON ...
     WHERE LOWER(l.lot_code) = LOWER($1) ORDER BY l.production_date DESC]:
    the lot of the latest production date among those of that code, with the
    first record of each table attached to it.  Among lots of one date, and
    among the records of one table, the row that comes first is the one
    stored first. *)
Definition first_row (lotCode : string) (st : store) : option joined_row :=
  let candidates :=
    filter (fun l => toLowerCase (lot_code l) =? toLowerCase lotCode)
      (lots st) in
  match fold_right insert_by_date_desc [] candidates with
  | [] => None
  | l :: _ =>
      Some (mkRow l
              (find (fun p => (pr_lot_id p =? lot_id l)%Z)
                 (production_records st))
              (find (fun q => (q_lot_id q =? lot_id l)%Z)
                 (quality_inspection_records st))
              (find (fun s => (s_lot_id s =? lot_id l)%Z)
                 (shipping_records st)))
  end.

(** The object returned: [currentStatus] and the columns of the row. *)
Definition searchLotByCode (lotCode : string)
  : M (option (string * joined_row)) :=
  fun st =>
    (Ok (option_map (fun r => (currentStatus r, r)) (first_row lotCode st)),
     st).

End ReportingService.

(* ================================================================== *)
(** * Vocabulary of the properties *)
(* ================================================================== *)

Import DataIngestionService ValidationService ReportingService.

Module Spec.

(** The Status Deriver in the words of the specification (section 4.5):
    first match wins among date conflict, shipping record present, quality
    record failed, quality record passed, pending inspection, in
    production. *)
Definition deriveStatus (r : joined_row) : string :=
  if has_date_conflict (row_lot r) then "Data Conflict"
  else match row_shipping r with
       | Some s => shipment_status s
       | None =>
           match row_quality r with
           | Some q =>
               if negb (is_pass q) then "Failed Quality" else "Passed Quality"
           | None =>
               if is_pending_inspection (row_lot r) then "Pending Inspection"
               else "In Production"
           end
       end.

End Spec.

(** The database after an awaited call. *)
Definition after {A} (m : M A) (st : store) : store := snd (m st).

(** What an awaited call returned or threw. *)
Definition returned {A} (m : M A) (st : store) : outcome error A :=
  fst (m st).

(** No generic date parser: [new Date(text)] never yields a date. *)
Definition no_parser : string -> option string := fun _ => None.

(** The paths that [config.js] takes when the environment sets none. *)
Definition default_config : dataSources :=
  mkDataSources "./data/sources/production_logs"
    "./data/sources/quality_logs" "./data/sources/shipping_logs".

(** Number of unresolved flags of a type attached to a lot. *)
Definition unresolved_count (lotId : Z) (flagType : string) (st : store)
  : nat :=
  List.length
    (filter (DataIntegrityFlag.matches lotId flagType)
       (data_integrity_flags st)).

Definition at_most_one_unresolved (st : store) : Prop :=
  forall lotId flagType, (unresolved_count lotId flagType st <= 1)%nat.

(** [n] sequential passes of the Validation Rule Engine. *)
Fixpoint validation_passes (n : nat) (st : store) : store :=
  match n with
  | O => st
  | S n' => validation_passes n' (after runAllValidations st)
  end.

(** The sequence of [lots.id] is ahead of every id in the table, and ids
    are not repeated: what [SERIAL PRIMARY KEY] maintains. *)
Definition ids_fresh (st : store) : Prop :=
  (forall l, In l (lots st) -> (lot_id l < lots_id_seq st)%Z)
  /\ NoDup (map lot_id (lots st)).

(** The id of the lot of a composite key. *)
Definition lot_of (code : string) (d : date) (st : store) : option Z :=
  option_map lot_id (find (Lot.same_key code d) (lots st)).

(** Hoare triples for awaited calls: from a database in [P], the call
    returns [a] in a database in [Q a], or throws in a database in [E]. *)
Definition triple {A} (P : store -> Prop) (m : M A)
    (Q : A -> store -> Prop) (E : store -> Prop) : Prop :=
  forall st, P st ->
    match m st with
    | (Ok a, st') => Q a st'
    | (Throw _, st') => E st'
    end.

(** The call keeps an invariant, however it ends. *)
Definition keeps {A} (I : store -> Prop) (m : M A) : Prop :=
  triple I m (fun _ => I) I.

(** A step of the pipeline: the ingestion of a batch of one source, or a
    pass of the Validation Rule Engine. *)
Inductive step : Type :=
  | IngestProduction (records : list row) (now : Z)
  | IngestQuality (records : list row) (now : Z)
  | IngestShipping (records : list row) (now : Z)
  | Validate.

Section Pipeline.

Variable Date_parse : string -> option string.
Variable config : dataSources.

Definition run_step (s : step) (st : store) : store :=
  match s with
  | IngestProduction records now =>
      after (ingestProductionLogs Date_parse config records now) st
  | IngestQuality records now =>
      after (ingestQualityLogs Date_parse config records now) st
  | IngestShipping records now =>
      after (ingestShippingLogs Date_parse config records now) st
  | Validate => after runAllValidations st
  end.

(** The database that a sequence of steps builds from the empty one. *)
Definition run_pipeline (steps : list step) : store :=
  fold_left (fun st s => run_step s st) steps Db.empty.

End Pipeline.

(** Every shipping record carries the production date of its lot. *)
Definition shipped_on_production_date (st : store) : Prop :=
  forall s l,
    In s (shipping_records st) -> In l (lots st) ->
    lot_id l = s_lot_id s -> production_date l = ship_date s.

(** The database after [Lot.update]. *)
Definition updated (lotId : Z) (u : Lot.updates) (st : store) : store :=
  after (Lot.update lotId u) st.

(** The findings of a rule's query. *)
Definition findings_of (query : M (list finding)) (st : store)
  : list finding :=
  match returned query st with
  | Ok l => l
  | Throw _ => []
  end.

(** Two lots that are the same entity: id, code and production date. *)
Definition same_identity (l l' : lot) : Prop :=
  lot_id l' = lot_id l /\ lot_code l' = lot_code l
  /\ production_date l' = production_date l.

(** What a pass of a rule that writes the columns [u] can change: flags
    are added, and lots have [u] applied or are left alone. *)
Definition evolves (u : Lot.updates) (st st' : store) : Prop :=
  Forall2 (fun l l' => l' = l \/ l' = Lot.apply u l) (lots st) (lots st')
  /\ lots_id_seq st' = lots_id_seq st
  /\ production_records st' = production_records st
  /\ quality_inspection_records st' = quality_inspection_records st
  /\ shipping_records st' = shipping_records st
  /\ (exists new,
        data_integrity_flags st'
        = (data_integrity_flags st ++ new)%list)
  /\ data_source_metadatas st' = data_source_metadatas st.

(** Every finding has its unresolved flag. *)
Definition covered (flagType : string) (found : list finding) (st : store)
  : Prop :=
  forall x, In x found ->
    find (DataIntegrityFlag.matches (finding_lot x) flagType)
      (data_integrity_flags st) <> None.

(** The lots of the findings already hold the columns [u]. *)
Definition stable (u : Lot.updates) (found : list finding) (st : store)
  : Prop :=
  forall x l, In x found -> In l (lots st) ->
    lot_id l = finding_lot x -> Lot.apply u l = l.

(** A rule has nothing left to do. *)
Definition settled (flagType : string) (u : Lot.updates)
    (query : M (list finding)) (st : store) : Prop :=
  covered flagType (findings_of query st) st
  /\ stable u (findings_of query st) st.

(** Writing [u'] does not undo [u]. *)
Definition compatible (u' u : Lot.updates) : Prop :=
  forall l, Lot.apply u l = l -> Lot.apply u (Lot.apply u' l) = Lot.apply u' l.

(** The queries of the three rules read the database and leave it as it is. *)
Definition read_only (query : M (list finding)) : Prop :=
  forall st, query st = (Ok (findings_of query st), st).

(** What holds of every database that the pipeline builds. *)
Definition pipeline_invariant (st : store) : Prop :=
  ids_fresh st
  /\ (forall s, In s (shipping_records st) ->
        exists l, In l (lots st) /\ lot_id l = s_lot_id s
                  /\ production_date l = ship_date s)
  /\ (forall l, In l (lots st) -> has_date_conflict l = false)
  /\ (forall f, In f (data_integrity_flags st) ->
        flag_type f <> "Date Conflict").

(** The composite key (code, date) has been resolved to the lot [id]. *)
Definition resolved (code : string) (d : date) (id : Z) (st : store) : Prop :=
  ids_fresh st /\ lot_of code d st = Some id.

(** The composite key that each reconciler reads from a row: the cleaned
    lot code and the canonical date. *)
Definition production_key (Date_parse : string -> option string) (record : row)
  : outcome js_error string * outcome js_error (option string) :=
  (cleanLotCode
     (or (or (prop record "Lot ID") (prop record "LotCode")) (VStr "")),
   standardizeDate Date_parse
     (or (or (prop record "Production Date") (prop record "Date")) (VStr ""))).

Definition quality_key (Date_parse : string -> option string) (record : row)
  : outcome js_error string * outcome js_error (option string) :=
  (cleanLotCode
     (or (or (prop record "Lot ID") (prop record "LotCode")) (VStr "")),
   standardizeDate Date_parse
     (or (or (prop record "Inspection Date") (prop record "Date")) (VStr ""))).

(** The lot that [Lot.create] inserts. *)
Definition new_lot (code : string) (d : date) (st : store) : lot :=
  mkLot (lots_id_seq st) code d true false false.

Definition with_new_lot (code : string) (d : date) (st : store) : store :=
  set_lots (fun ls => (ls ++ [new_lot code d st])%list)
    (set_lots_id_seq (lots_id_seq st + 1) st).

(** The lot that identity resolution hands to a reconciler, in a database
    that satisfies [I]: it is stored, and its production date is the date of
    the row. *)
Definition resolves (I : store -> Prop) (dateText : string) (l : lot)
    (st : store) : Prop :=
  I st /\ In l (lots st) /\ date_in dateText = Some (production_date l).

(** ** Inputs of the scenarios *)

Definition day (y m d : nat) : date := mkDate y m d.

(** Scenario 1 of the specification. *)
Definition production_LOT9 : row :=
  [("Lot ID", VStr "00LOT-9"); ("Line", VStr "P1");
   ("Planned", VNum (NInt 100)); ("Actual", VNum (NInt 90));
   ("Date", VStr "02/10/2026")].

(** Scenario 3 of the specification. *)
Definition shipping_LOT9 : row :=
  [("Lot ID", VStr "LOT-9"); ("Ship Date", VStr "2026-02-05");
   ("Destination State", VStr "CA"); ("Carrier", VStr "FedEx");
   ("Qty Shipped", VNum (NInt 90)); ("Status", VStr "Shipped")].

(** A production row whose lot code cell is empty. *)
Definition production_without_code : row :=
  [("Lot ID", VStr ""); ("Line", VStr "P1"); ("Date", VStr "2026-02-10")].

Definition production_LOT5 : row :=
  [("Lot ID", VStr "LOT-5"); ("Line", VStr "P2"); ("Date", VStr "2026-02-11")].

Definition quality_LOT7 : row :=
  [("Lot ID", VStr "LOT-7"); ("Inspection Date", VStr "2026-02-10");
   ("Pass", VStr "Fail"); ("DefectType", VStr "Functional");
   ("DefectCount", VStr "2"); ("Inspector", VStr "QC-001")].

(** A shipping row whose status cell holds blanks. *)
Definition shipping_LOT7 : row :=
  [("Lot ID", VStr "LOT-7"); ("Ship Date", VStr "2026-02-10");
   ("State", VStr "CA"); ("Status", VStr "   ")].

(** A production row for the lot of [quality_LOT7], written differently. *)
Definition production_LOT7 : row :=
  [("LotCode", VStr " 00LOT-7"); ("Production Line", VStr "P3");
   ("Units Planned", VStr "500"); ("Units Actual", VStr "480");
   ("Production Date", VStr "2/10/2026")].

(** The row that lot search reads for "LOT-7" after the two rows above. *)
Definition blank_status_row : joined_row :=
  mkRow (mkLot 1 "LOT-7" (day 2026 2 10) false false false)
    None
    (Some (mkQuality 1 (day 2026 2 10) false "Functional" 2 "QC-001"))
    (Some (mkShipping 1 (day 2026 2 10) "CA" "UNKNOWN" 0 "")).

Definition conflicting_shipped_row : joined_row :=
  mkRow (mkLot 1 "LOT-9" (day 2026 2 10) true true true)
    None None
    (Some (mkShipping 1 (day 2026 2 5) "CA" "FedEx" 90 "Shipped")).

Definition shipping_source : data_source_metadata :=
  mkSource "Shipping Logs" "./data/sources/shipping_logs" "XLSX" 0 "Healthy".

Definition one_source : store :=
  mkStore [] 1 [] [] [] [] 1 [shipping_source].

Definition hours (h : Z) : Z := (h * 60 * 60 * 1000)%Z.

(** ** Vocabulary of the further properties *)

(** The string begins with white space. *)
Definition starts_with_ws (s : string) : bool :=
  match s with
  | String c _ => is_ws c
  | EmptyString => false
  end.

(** The string begins with the character 0. *)
Definition starts_with_zero (s : string) : bool :=
  match s with
  | String c _ => Ascii.eqb c "0"
  | EmptyString => false
  end.

(** Every character is a decimal digit or the separator. *)
Fixpoint digits_or (sep : ascii) (s : string) : bool :=
  match s with
  | String c s' => (is_digit c || Ascii.eqb c sep) && digits_or sep s'
  | EmptyString => true
  end.

(** A database with one lot and one unresolved flag for it. *)
Definition one_flag_store : store :=
  mkStore [mkLot 1 "LOT-9" (day 2026 2 10) true false false] 2 [] [] []
    [mkFlag 1 1 "Pending Inspection" "Warning"
       (PendingText "LOT-9" (day 2026 2 10)) false]
    2 [].

(** An error recorded for one row, as opposed to the failure of the batch. *)
Definition is_row_error (e : ingestion_error) : bool :=
  match e with
  | IngestionFailed _ => false
  | InvalidRow _ | RowError _ => true
  end.

Definition row_errors (r : ingestion_result) : list ingestion_error :=
  filter is_row_error (errors r).

(** The result of a batch of [n] rows of a source accounts for every row
    once: as ingested or by one row error. *)
Definition accounted (sourceName : string) (n : nat) (r : ingestion_result)
  : Prop :=
  source r = sourceName /\ recordsRead r = n
  /\ (recordsIngested r + List.length (row_errors r) = n)%nat
  /\ (List.length (errors r) <= List.length (row_errors r) + 1)%nat.

(** The columns that the quality reconciler writes. *)
Definition cleared : Lot.updates := Lot.mkUpdates (Some false) None None.

(** What ingestion can make of the table of lots [before]: each lot is
    kept, with [is_pending_inspection] cleared or as it was, and lots with
    no integrity issue and no date conflict are added after them. *)
Definition reconciled (before now : list lot) : Prop :=
  exists kept added,
    now = (kept ++ added)%list
    /\ Forall2 (fun l l' => l' = l \/ l' = Lot.apply cleared l) before kept
    /\ Forall (fun l => has_data_integrity_issue l = false
                        /\ has_date_conflict l = false) added.

(** Lots with the columns that [Lot.create] gives them are added after the
    lots of [before], which are left as they were. *)
Definition only_new_lots (before now : list lot) : Prop :=
  exists added,
    now = (before ++ added)%list
    /\ Forall (fun l => is_pending_inspection l = true
                        /\ has_data_integrity_issue l = false
                        /\ has_date_conflict l = false) added.

(** The flags are those of [st0], and the records of [st0] are kept, in
    place, before those added. *)
Definition only_new_records (st0 st : store) : Prop :=
  data_integrity_flags st = data_integrity_flags st0
  /\ flags_id_seq st = flags_id_seq st0
  /\ (exists added,
        production_records st = (production_records st0 ++ added)%list)
  /\ (exists added,
        quality_inspection_records st
        = (quality_inspection_records st0 ++ added)%list)
  /\ (exists added,
        shipping_records st = (shipping_records st0 ++ added)%list).

(** [is_pending_inspection] says exactly that the lot has no quality
    record; quality records refer to ids that the sequence has given out. *)
Definition pending_tracks_quality (st : store) : Prop :=
  ids_fresh st
  /\ (forall q, In q (quality_inspection_records st) ->
        (q_lot_id q < lots_id_seq st)%Z)
  /\ (forall l, In l (lots st) ->
        is_pending_inspection l = negb (has_quality (lot_id l) st)).

(** The same between the insertion of a quality record for the lot [i] and
    the update of that lot. *)
Definition pending_tracks_quality_but (i : Z) (st : store) : Prop :=
  ids_fresh st
  /\ (forall q, In q (quality_inspection_records st) ->
        (q_lot_id q < lots_id_seq st)%Z)
  /\ has_quality i st = true
  /\ (forall l, In l (lots st) -> lot_id l <> i ->
        is_pending_inspection l = negb (has_quality (lot_id l) st)).

(** A flag as one of the three rules raises it: unresolved, with the type
    and the severity of the rule. *)
Definition raised_by_a_rule (f : data_integrity_flag) : Prop :=
  is_resolved f = false
  /\ In (flag_type f, severity f)
       [("Pending Inspection", "Warning"); ("Orphaned Shipment", "Critical");
        ("Date Conflict", "Error")].

(** The lot [l'] is the lot [l] with columns set to true, if any. *)
Definition only_raised (l l' : lot) : Prop :=
  same_identity l l'
  /\ (is_pending_inspection l = true -> is_pending_inspection l' = true)
  /\ (has_data_integrity_issue l = true -> has_data_integrity_issue l' = true)
  /\ (has_date_conflict l = true -> has_date_conflict l' = true).

(** The columns that the three rules write. *)
Definition pending_column : Lot.updates := Lot.mkUpdates (Some true) None None.
Definition integrity_column : Lot.updates := Lot.mkUpdates None (Some true) None.
Definition conflict_column : Lot.updates := Lot.mkUpdates None None (Some true).

(** An unresolved flag of a type and a severity. *)
Definition flag_of (flagType sev : string) (f : data_integrity_flag) : Prop :=
  is_resolved f = false /\ flag_type f = flagType /\ severity f = sev.

(** The result of a rule that went over the findings [found] with no
    error: every finding is counted once, as a flag created or skipped. *)
Definition reports (r : validation_result) (ruleName : string)
    (found : list finding) : Prop :=
  name r = ruleName
  /\ (flagsCreated r + flagsSkipped r = List.length found)%nat
  /\ validation_errors r = [].

(** The row of a source with [refresh_status] Healthy, as an ingestion at
    the time [now] writes it. *)
Definition healthy_source (sourceName path format : string) (now : Z)
  : data_source_metadata :=
  mkSource sourceName path format now "Healthy".

(** The rows of the sources other than [sourceName] are as before. *)
Definition other_sources_kept (sourceName : string) (st st' : store) : Prop :=
  forall n, n <> sourceName ->
    returned (DataSourceMetadata.findByName n) st'
    = returned (DataSourceMetadata.findByName n) st.

(** Every composite key that the database [s] resolves is resolved by the
    database [t], to a lot with the same id. *)
Definition resolves_like (s t : store) : Prop :=
  forall code d l,
    find (Lot.same_key code d) (lots s) = Some l ->
    exists l',
      find (Lot.same_key code d) (lots t) = Some l' /\ lot_id l' = lot_id l.

(** The result of the loop of an ingestion after the row [record] ended
    as [o]. *)
Definition row_result (record : row) (o : outcome error row_end)
    (r : ingestion_result) : ingestion_result :=
  match o with
  | Ok Rejected => push_error (InvalidRow record) r
  | Ok Ingested => count_ingested r
  | Throw e => push_error (RowError e) r
  end.

(** The production record that the reconciler of production logs writes
    for a row, attached to the lot [lotId]. *)
Definition production_of (record : row) (lotId : Z) : M production_record :=
  ProductionRecord.create lotId
    (trimString
       (or (or (prop record "Production Line") (prop record "Line"))
          (VStr "")))
    (trimString (or (prop record "Shift") (VStr "")))
    (toInteger
       (or (or (prop record "Units Planned") (prop record "Planned"))
          (VNum (NInt 0))) (NInt 0))
    (toInteger
       (or (or (prop record "Units Actual") (prop record "Actual"))
          (VNum (NInt 0))) (NInt 0))
    (toInteger
       (or (or (prop record "Downtime Minutes") (prop record "DowntimeMinutes"))
          (VNum (NInt 0))) (NInt 0))
    (toBoolean
       (or (or (prop record "Line Issue") (prop record "HasIssue"))
          (VBool false)) false).

(** The shipping record that the reconciler of shipping logs writes for a
    row, attached to the lot [lotId]. *)
Definition shipping_of (record : row) (lotId : Z) (shipDate : string)
  : M shipping_record :=
  ShippingRecord.create lotId shipDate
    (trimString
       (or (or (prop record "Destination State") (prop record "State"))
          (VStr "")))
    (trimString (or (prop record "Carrier") (VStr "UNKNOWN")))
    (toInteger
       (or (or (prop record "Qty Shipped") (prop record "Quantity"))
          (VNum (NInt 0))) (NInt 0))
    (trimString (or (prop record "Status") (VStr "In Transit"))).

(** Identity resolution as the quality and shipping reconcilers do it:
    the lot of the key if there is one, a new lot otherwise. *)
Definition find_or_create (code dateText : string) : M lot :=
  found <- Lot.findByCompositeKey code dateText ;;
  match found with
  | Some l => ret l
  | None => Lot.create code dateText
  end.

(** The codes of the stored lots fit their column. *)
Definition codes_fit (st : store) : Prop :=
  forall l, In l (lots st) -> (length (lot_code l) <= 50)%nat.

Definition has_shipping (i : Z) (st : store) : bool :=
  existsb (fun s => (s_lot_id s =? i)%Z) (shipping_records st).

(** Every lot that has a shipping record in [s] has one in [t]. *)
Definition ships_like (s t : store) : Prop :=
  forall i, has_shipping i s = true -> has_shipping i t = true.

(** Every character of the string satisfies [p]. *)
Fixpoint every (p : ascii -> bool) (s : string) : bool :=
  match s with
  | String c s' => p c && every p s'
  | EmptyString => true
  end.

Definition is_zero (c : ascii) : bool := Ascii.eqb c "0".

(* ================================================================== *)
(** * Properties *)
(* ================================================================== *)

(** ** Examples from the test suite and the specification *)

Example trim_example : trim "  LOT123  " = "LOT123".
Proof. reflexivity. Qed.

Example removeLeadingZeros_examples :
  removeLeadingZeros (VStr "00123") = VStr "123"
  /\ removeLeadingZeros (VStr "0") = VStr "0"
  /\ removeLeadingZeros (VStr "123") = VStr "123"
  /\ removeLeadingZeros (VStr "000") = VStr "0".
Proof. repeat split; reflexivity. Qed.

Example cleanLotCode_examples :
  cleanLotCode (VStr "  00LOT123  ") = Ok "LOT123"
  /\ cleanLotCode (VStr "000ABC") = Ok "ABC"
  /\ cleanLotCode (VStr "000") = Ok "0".
Proof. repeat split; reflexivity. Qed.

Example standardizeDate_examples :
  standardizeDate no_parser (VStr "2026-02-10") = Ok (Some "2026-02-10")
  /\ standardizeDate no_parser (VStr "02/10/2026") = Ok (Some "2026-02-10")
  /\ standardizeDate no_parser (VStr "2/5/2026") = Ok (Some "2026-02-05")
  /\ standardizeDate no_parser (VDate (Some "2026-02-10T00:00:00.000Z"))
     = Ok (Some "2026-02-10").
Proof. repeat split; reflexivity. Qed.

Example toBoolean_examples :
  toBoolean (VStr "Yes") false = true /\ toBoolean (VStr "Pass") false = true
  /\ toBoolean (VStr "No") false = false
  /\ toBoolean (VStr "Fail") false = false.
Proof. repeat split; reflexivity. Qed.

Example toInteger_examples :
  toInteger (VStr "100") (NInt 0) = NInt 100
  /\ toInteger (VStr "invalid") (NInt 0) = NInt 0
  /\ toInteger (VStr "100") (NInt 50) = NInt 100
  /\ toInteger (VStr "invalid") (NInt 50) = NInt 50.
Proof. repeat split; reflexivity. Qed.

(** ** Field Normalizer *)

Lemma strip_zeros_idempotent s : strip_zeros (strip_zeros s) = strip_zeros s.
Proof.
  induction s as [|c s IH]; [reflexivity|].
  simpl. destruct c as [[] [] [] [] [] [] [] []]; simpl; auto.
Qed.

(** A cleaned lot code is never the empty string. *)
Lemma cleanLotCode_not_empty v s : cleanLotCode v = Ok s -> s <> "".
Proof.
  unfold cleanLotCode. destruct (trimString v); try discriminate.
  destruct (strip_zeros s0 =? "") eqn:E; intros [= <-].
  - discriminate.
  - intros H. rewrite H in E. discriminate.
Qed.

(** The lot-code half of the guard [!lotCode || !date] never fires. *)
Lemma missing_key_is_missing_date v code date :
  cleanLotCode v = Ok code ->
  missing_key code date = match date with
                          | None => true
                          | Some d => d =? ""
                          end.
Proof.
  intros H. apply cleanLotCode_not_empty in H. unfold missing_key.
  destruct (code =? "") eqn:E; [|reflexivity].
  apply String.eqb_eq in E. contradiction.
Qed.

(** C7: ISO text comes back unchanged and slash-separated text is read
    month first, but the branch that would try the generic date
    constructor repeats the test of the branch before it: the parser is
    never consulted.  Text such as "2026/02/10" gives [null] whatever the
    parser would have made of it. *)
Theorem standardizeDate_never_consults_Date_parse :
  forall Date_parse : string -> option string,
    standardizeDate Date_parse (VStr "2026-02-10") = Ok (Some "2026-02-10")
    /\ standardizeDate Date_parse (VStr "02/10/2026") = Ok (Some "2026-02-10")
    /\ standardizeDate Date_parse (VStr "2026/02/10") = Ok None
    /\ forall v, standardizeDate Date_parse v = standardizeDate no_parser v.
Proof.
  intros P. repeat split.
  intros v. unfold standardizeDate.
  destruct (negb (truthy v)); [reflexivity|].
  destruct v; try reflexivity.
  destruct (is_iso_date (trim s)); [reflexivity|].
  destruct (is_slash_date (trim s)); reflexivity.
Qed.

(** C8: [cleanLotCode] returns for a string and throws a [TypeError] for
    every other value, among them a number read from a sheet, [null] and
    [undefined]. *)
Theorem cleanLotCode_throws_unless_string :
  forall v,
    match v with
    | VStr _ => exists code, cleanLotCode v = Ok code
    | _ => cleanLotCode v = Throw TypeError
    end.
Proof.
  destruct v; try reflexivity. unfold cleanLotCode. simpl. eauto.
Qed.

Example cleanLotCode_of_number :
  cleanLotCode (VNum (NInt 123)) = Throw TypeError.
Proof. reflexivity. Qed.

Example standardizeDate_of_invalid_Date :
  standardizeDate no_parser (VDate None) = Throw RangeError.
Proof. reflexivity. Qed.

(** ** Status Deriver *)

(** C3, as stated, fails: the shipping record is tested with
    [if (row.shipment_status)], so a record whose status is the empty
    string is passed over and the quality result is reported. *)
Lemma currentStatus_passes_over_empty_status :
  currentStatus blank_status_row <> Spec.deriveStatus blank_status_row.
Proof. discriminate. Qed.

(** The row of the counterexample is what lot search reads after a quality
    row and a shipping row whose status cell holds blanks. *)
Example blank_status_row_is_ingested :
  forall Date_parse config,
    first_row "LOT-7"
      (run_pipeline Date_parse config
         [IngestQuality [quality_LOT7] 0; IngestShipping [shipping_LOT7] 0])
    = Some blank_status_row.
Proof. intros. vm_compute. reflexivity. Qed.

(** C3, amended: the precedence of the specification holds for every row
    whose shipment status is not the empty string; in particular a date
    conflict wins over a shipped status. *)
Theorem currentStatus_precedence :
  forall r,
    row_shipment_status r <> Some "" ->
    currentStatus r = Spec.deriveStatus r.
Proof.
  intros [l p q s] H. unfold currentStatus, Spec.deriveStatus.
  unfold row_shipment_status, quality_pass in *. simpl in *.
  destruct (has_date_conflict l); [reflexivity|].
  destruct s as [s|]; simpl in *.
  - destruct (shipment_status s =? "") eqn:E; [|reflexivity].
    apply String.eqb_eq in E. rewrite E in H. contradiction.
  - destruct q as [q|]; simpl; [destruct (is_pass q)|]; reflexivity.
Qed.

Lemma currentStatus_precedence_witness :
  row_shipment_status conflicting_shipped_row <> Some ""
  /\ currentStatus conflicting_shipped_row
     = Spec.deriveStatus conflicting_shipped_row.
Proof.
  split; [discriminate|].
  apply (currentStatus_precedence conflicting_shipped_row). discriminate.
Defined.

Example conflict_wins_over_shipped :
  currentStatus conflicting_shipped_row = "Data Conflict".
Proof. reflexivity. Qed.

(** With an empty status the row is read as if it had no shipping record. *)
Lemma currentStatus_empty_status r :
  row_shipment_status r = Some "" ->
  currentStatus r
  = Spec.deriveStatus (mkRow (row_lot r) (row_production r) (row_quality r) None).
Proof.
  destruct r as [l p q s]. unfold currentStatus, Spec.deriveStatus.
  unfold row_shipment_status, quality_pass. simpl. intros H.
  destruct (has_date_conflict l); [reflexivity|].
  destruct s as [s|]; simpl in *; [|discriminate].
  injection H as H. rewrite H. simpl.
  destruct q as [q|]; simpl; [destruct (is_pass q)|]; reflexivity.
Qed.

(** ** Source Health Monitor *)

Lemma In_insert_by_name m x l :
  In x (DataSourceMetadata.insert_by_name m l) <-> x = m \/ In x l.
Proof.
  induction l as [|y l IH]; simpl.
  - intuition congruence.
  - destruct (source_name m <=? source_name y); simpl; [intuition congruence|].
    rewrite IH. intuition congruence.
Qed.

Lemma In_sorted_sources x l :
  In x (fold_right DataSourceMetadata.insert_by_name [] l) <-> In x l.
Proof.
  induction l as [|y l IH]; simpl; [tauto|].
  rewrite In_insert_by_name, IH. intuition congruence.
Qed.

(** C10: every stored source is reported, as [Stale] when the time since
    its last update exceeds the threshold, whatever status is stored, and
    with its stored status otherwise. *)
Theorem checkSourceHealth_status :
  forall st staleThresholdHours now src,
    In src (data_source_metadatas st) ->
    exists report h,
      checkSourceHealth staleThresholdHours now st = (Ok report, st)
      /\ In h report
      /\ sourceName h = source_name src
      /\ lastUpdatedTimestamp h = last_updated_timestamp src
      /\ ((hours staleThresholdHours < now - last_updated_timestamp src)%Z ->
          refreshStatus h = "Stale")
      /\ ((now - last_updated_timestamp src <= hours staleThresholdHours)%Z ->
          refreshStatus h = refresh_status src).
Proof.
  intros st thr now src Hin.
  eexists. eexists. split; [reflexivity|].
  split.
  - apply in_map_iff. exists src. split; [reflexivity|].
    apply In_sorted_sources. exact Hin.
  - simpl. repeat split; unfold hours.
    + intros H. apply Z.ltb_lt in H. rewrite H. reflexivity.
    + intros H.
      destruct (thr * 60 * 60 * 1000 <? now - last_updated_timestamp src)%Z
        eqn:E; [|reflexivity].
      apply Z.ltb_lt in E. lia.
Qed.

Lemma checkSourceHealth_status_witness :
  In shipping_source (data_source_metadatas one_source)
  /\ exists report h,
      checkSourceHealth 24 (hours 30) one_source = (Ok report, one_source)
      /\ In h report
      /\ sourceName h = source_name shipping_source
      /\ lastUpdatedTimestamp h = last_updated_timestamp shipping_source
      /\ ((hours 24 < hours 30 - last_updated_timestamp shipping_source)%Z ->
          refreshStatus h = "Stale")
      /\ ((hours 30 - last_updated_timestamp shipping_source <= hours 24)%Z ->
          refreshStatus h = refresh_status shipping_source).
Proof.
  split; [simpl; auto|].
  apply (checkSourceHealth_status one_source 24 (hours 30) shipping_source).
  simpl; auto.
Defined.

(** Scenario 4: threshold 24 hours, last update 30 hours ago, stored
    status [Healthy]. *)
Example stale_after_30_hours :
  returned (checkSourceHealth 24 (hours 30)) one_source
  = Ok [mkHealth "Shipping Logs" 0 1800 "Stale"
          "./data/sources/shipping_logs" "XLSX"].
Proof. reflexivity. Qed.

(** ** Scenarios through ingestion *)

(** C6: a production row with an empty lot code is not rejected.
    [cleanLotCode] turns the empty code into "0", the guard
    [!lotCode || !productionDate] passes, and the row is ingested into a
    lot of code "0" with no error recorded. *)
Theorem empty_lot_code_is_ingested_as_lot_0 :
  forall Date_parse config now,
    let run := ingestProductionLogs Date_parse config
                 [production_without_code; production_LOT5] now in
    returned run Db.empty = Ok (mkIngestion "Production Logs" 2 2 [])
    /\ lots (after run Db.empty)
       = [mkLot 1 "0" (day 2026 2 10) true false false;
          mkLot 2 "LOT-5" (day 2026 2 11) true false false].
Proof. intros. split; vm_compute; reflexivity. Qed.

(** C1: scenario 3 through ingestion and validation.  The shipping row is
    attached to a second lot, found or created by (code, ship date); the
    engine raises the orphaned-shipment flag for that lot and no date
    conflict, and lot search reports [Pending Inspection]. *)
Theorem scenario_3_raises_no_date_conflict :
  forall Date_parse config,
    let st := run_pipeline Date_parse config
                [IngestProduction [production_LOT9] 0;
                 IngestShipping [shipping_LOT9] 0;
                 Validate] in
    map (fun l => (lot_id l, lot_code l, production_date l,
                   has_date_conflict l)) (lots st)
    = [(1%Z, "LOT-9", day 2026 2 10, false);
       (2%Z, "LOT-9", day 2026 2 5, false)]
    /\ map (fun s => (s_lot_id s, ship_date s)) (shipping_records st)
       = [(2%Z, day 2026 2 5)]
    /\ map (fun f => (f_lot_id f, flag_type f, severity f, is_resolved f))
         (data_integrity_flags st)
       = [(1%Z, "Pending Inspection", "Warning", false);
          (2%Z, "Pending Inspection", "Warning", false);
          (2%Z, "Orphaned Shipment", "Critical", false)]
    /\ returned (searchLotByCode "LOT-9") st
       = Ok (option_map (fun r => (currentStatus r, r)) (first_row "LOT-9" st))
    /\ option_map currentStatus (first_row "LOT-9" st)
       = Some "Pending Inspection".
Proof. intros. repeat split; vm_compute; reflexivity. Qed.

(** ** The monad *)

Lemma triple_ret {A} (P : store -> Prop) (a : A) (Q : A -> store -> Prop) E :
  (forall st, P st -> Q a st) -> triple P (ret a) Q E.
Proof. intros H st HP. simpl. auto. Qed.

Lemma triple_throw {A} (P : store -> Prop) e (Q : A -> store -> Prop)
    (E : store -> Prop) :
  (forall st, P st -> E st) -> triple P (throw e) Q E.
Proof. intros H st HP. simpl. auto. Qed.

Lemma triple_bind {A B} (P : store -> Prop) (m : M A) (k : A -> M B)
    (R : A -> store -> Prop) (Q : B -> store -> Prop) E :
  triple P m R E -> (forall a, triple (R a) (k a) Q E) ->
  triple P (bind m k) Q E.
Proof.
  intros Hm Hk st HP. unfold bind. specialize (Hm st HP).
  destruct (m st) as [[a|e] st']; [apply (Hk a st' Hm)|exact Hm].
Qed.

Lemma triple_try_catch {A} (P : store -> Prop) (m : M A) (h : error -> M A)
    (Q : A -> store -> Prop) (E' E : store -> Prop) :
  triple P m Q E' -> (forall e, triple E' (h e) Q E) ->
  triple P (try_catch m h) Q E.
Proof.
  intros Hm Hh st HP. unfold try_catch. specialize (Hm st HP).
  destruct (m st) as [[a|e] st']; [exact Hm|apply (Hh e st' Hm)].
Qed.

Lemma triple_weaken {A} (P P' : store -> Prop) (m : M A)
    (Q Q' : A -> store -> Prop) (E E' : store -> Prop) :
  triple P' m Q' E' ->
  (forall st, P st -> P' st) -> (forall a st, Q' a st -> Q a st) ->
  (forall st, E' st -> E st) ->
  triple P m Q E.
Proof.
  intros Hm HP HQ HE st H. specialize (Hm st (HP st H)).
  destruct (m st) as [[a|e] st']; auto.
Qed.

Lemma triple_lift_js {A} (P : store -> Prop) (o : outcome js_error A)
    (Q : A -> store -> Prop) (E : store -> Prop) :
  (forall a st, o = Ok a -> P st -> Q a st) -> (forall st, P st -> E st) ->
  triple P (lift_js o) Q E.
Proof. intros HQ HE st HP. destruct o; simpl; auto. Qed.

Lemma triple_lift_db {A} (P : store -> Prop) (o : outcome db_error A)
    (Q : A -> store -> Prop) (E : store -> Prop) :
  (forall a st, o = Ok a -> P st -> Q a st) -> (forall st, P st -> E st) ->
  triple P (lift_db o) Q E.
Proof. intros HQ HE st HP. destruct o; simpl; auto. Qed.

Lemma keeps_ret {A} I (a : A) : keeps I (ret a).
Proof. apply triple_ret; auto. Qed.

Lemma keeps_throw {A} I e : keeps I (throw (A:=A) e).
Proof. apply triple_throw; auto. Qed.

Lemma keeps_bind {A B} I (m : M A) (k : A -> M B) :
  keeps I m -> (forall a, keeps I (k a)) -> keeps I (bind m k).
Proof. intros Hm Hk. eapply triple_bind; [exact Hm|exact Hk]. Qed.

Lemma keeps_try_catch {A} I (m : M A) h :
  keeps I m -> (forall e, keeps I (h e)) -> keeps I (try_catch m h).
Proof. intros Hm Hh. eapply triple_try_catch; [exact Hm|exact Hh]. Qed.

Lemma keeps_lift_js {A} I (o : outcome js_error A) : keeps I (lift_js o).
Proof. apply triple_lift_js; auto. Qed.

Lemma keeps_lift_db {A} I (o : outcome db_error A) : keeps I (lift_db o).
Proof. apply triple_lift_db; auto. Qed.

Lemma keeps_get I : keeps I get.
Proof. intros st H. simpl. exact H. Qed.

Lemma keeps_modify (I : store -> Prop) f :
  (forall st, I st -> I (f st)) -> keeps I (modify f).
Proof. intros Hf st H. simpl. auto. Qed.

Lemma keeps_after {A} I (m : M A) st : keeps I m -> I st -> I (after m st).
Proof.
  intros Hm H. specialize (Hm st H). unfold after.
  destruct (m st) as [[a|e] st']; exact Hm.
Qed.

(** ** Dates and lots *)

Lemma date_eqb_eq a b : date_eqb a b = true <-> a = b.
Proof.
  destruct a as [y m d], b as [y' m' d']. unfold date_eqb. simpl.
  rewrite !andb_true_iff, !Nat.eqb_eq. split.
  - intros [[-> ->] ->]. reflexivity.
  - intros [= -> -> ->]. auto.
Qed.

Lemma date_ltb_irrefl d : date_ltb d d = false.
Proof.
  unfold date_ltb. rewrite !Nat.ltb_irrefl, !Nat.eqb_refl. reflexivity.
Qed.

Lemma same_key_spec code d l :
  Lot.same_key code d l = true <-> lot_code l = code /\ production_date l = d.
Proof.
  unfold Lot.same_key. rewrite andb_true_iff, String.eqb_eq, date_eqb_eq.
  tauto.
Qed.

Lemma apply_identity u l : same_identity l (Lot.apply u l).
Proof. repeat split. Qed.

Lemma apply_idempotent u l : Lot.apply u (Lot.apply u l) = Lot.apply u l.
Proof.
  destruct u as [[a|] [b|] [c|]], l; reflexivity.
Qed.

Lemma apply_no_clause u l : Lot.no_clause u = true -> Lot.apply u l = l.
Proof.
  destruct u as [[a|] [b|] [c|]], l; simpl; try discriminate. reflexivity.
Qed.

Lemma update_returns lotId u st :
  exists o, Lot.update lotId u st = (Ok o, updated lotId u st).
Proof.
  unfold updated, after, Lot.update.
  destruct (Lot.no_clause u); eexists; reflexivity.
Qed.

Lemma lots_updated lotId u st :
  lots (updated lotId u st)
  = map (fun l => if (lot_id l =? lotId)%Z then Lot.apply u l else l) (lots st).
Proof.
  unfold updated, after, Lot.update.
  destruct (Lot.no_clause u) eqn:E; [|reflexivity].
  simpl. rewrite <- (map_id (lots st)) at 1. apply map_ext.
  intros l. destruct (lot_id l =? lotId)%Z; [|reflexivity].
  symmetry. apply apply_no_clause. exact E.
Qed.

Lemma updated_rest lotId u st :
  lots_id_seq (updated lotId u st) = lots_id_seq st
  /\ production_records (updated lotId u st) = production_records st
  /\ quality_inspection_records (updated lotId u st)
     = quality_inspection_records st
  /\ shipping_records (updated lotId u st) = shipping_records st
  /\ data_integrity_flags (updated lotId u st) = data_integrity_flags st
  /\ flags_id_seq (updated lotId u st) = flags_id_seq st
  /\ data_source_metadatas (updated lotId u st) = data_source_metadatas st.
Proof.
  unfold updated, after, Lot.update.
  destruct (Lot.no_clause u); repeat split.
Qed.

Lemma store_eq st st' :
  lots st' = lots st -> lots_id_seq st' = lots_id_seq st ->
  production_records st' = production_records st ->
  quality_inspection_records st' = quality_inspection_records st ->
  shipping_records st' = shipping_records st ->
  data_integrity_flags st' = data_integrity_flags st ->
  flags_id_seq st' = flags_id_seq st ->
  data_source_metadatas st' = data_source_metadatas st ->
  st' = st.
Proof. destruct st, st'; simpl; intros; subst; reflexivity. Qed.

(** ** One check of a rule *)

(** The three ways the body of a rule's loop ends: the flag exists and is
    skipped; it is created; or its creation is refused by the database. *)
Lemma check_one_cases flagType severity u x r st :
  let existing :=
    find (DataIntegrityFlag.matches (finding_lot x) flagType)
      (data_integrity_flags st) in
  (existing <> None
   /\ check_one flagType severity u x r st
      = (Ok (skipped r), updated (finding_lot x) u st))
  \/ (existing = None
      /\ lot_exists (finding_lot x) st = true
      /\ check_one flagType severity u x r st
         = (Ok (created r),
            updated (finding_lot x) u
              (add_flag (mkFlag (flags_id_seq st) (finding_lot x) flagType
                           severity (finding_text x) false) st)))
  \/ (existing = None
      /\ ((50 <? length flagType)%nat || (20 <? length severity)%nat = true
          \/ includes DataIntegrityFlag.severities severity = false
          \/ lot_exists (finding_lot x) st = false)
      /\ exists e,
          check_one flagType severity u x r st
          = (Ok (push_validation_error (CheckError (finding_code x) e) r), st)).
Proof.
  intros existing. subst existing.
  unfold check_one, try_catch, bind, DataIntegrityFlag.findExisting.
  destruct (find _ (data_integrity_flags st)) as [f|] eqn:Hfind.
  - left. split; [discriminate|].
    destruct (update_returns (finding_lot x) u st) as [o Ho].
    unfold ret. rewrite Ho. reflexivity.
  - right. unfold DataIntegrityFlag.create.
    destruct ((50 <? length flagType)%nat || (20 <? length severity)%nat)
      eqn:Hlen.
    { right. split; [reflexivity|]. split; [auto|]. eexists. reflexivity. }
    destruct (includes DataIntegrityFlag.severities severity) eqn:Hsev; simpl.
    2:{ right. split; [reflexivity|]. split; [auto|]. eexists. reflexivity. }
    destruct (lot_exists (finding_lot x) st) eqn:Hlot; simpl.
    2:{ right. split; [reflexivity|]. split; [auto|]. eexists. reflexivity. }
    left. split; [reflexivity|]. split; [reflexivity|].
    match goal with
    | |- context [Lot.update ?i ?v ?s] =>
        destruct (update_returns i v s) as [o Ho]; rewrite Ho
    end.
    reflexivity.
Qed.

(** ** At most one unresolved flag of a type for a lot *)

Lemma find_none_filter {A} (p : A -> bool) l :
  find p l = None -> filter p l = [].
Proof.
  induction l as [|a l IH]; simpl; [reflexivity|].
  destruct (p a); [discriminate|exact IH].
Qed.

Lemma unresolved_count_updated lotId flagType i u st :
  unresolved_count lotId flagType (updated i u st)
  = unresolved_count lotId flagType st.
Proof.
  unfold unresolved_count.
  destruct (updated_rest i u st) as (_ & _ & _ & _ & -> & _). reflexivity.
Qed.

Lemma unresolved_count_add_flag lotId flagType f st :
  unresolved_count lotId flagType (add_flag f st)
  = (unresolved_count lotId flagType st
     + if DataIntegrityFlag.matches lotId flagType f then 1 else 0)%nat.
Proof.
  unfold unresolved_count, add_flag. simpl.
  rewrite filter_app, length_app. simpl.
  destruct (DataIntegrityFlag.matches lotId flagType f); reflexivity.
Qed.

Lemma matches_new_flag lotId flagType id i t sev text :
  DataIntegrityFlag.matches lotId flagType (mkFlag id i t sev text false)
  = true ->
  i = lotId /\ t = flagType.
Proof.
  unfold DataIntegrityFlag.matches. simpl.
  rewrite !andb_true_iff, Z.eqb_eq, String.eqb_eq. tauto.
Qed.

Lemma check_one_keeps_at_most_one flagType severity u x r :
  keeps at_most_one_unresolved (check_one flagType severity u x r).
Proof.
  intros st H.
  destruct (check_one_cases flagType severity u x r st)
    as [(_ & ->) | [(Hnone & _ & ->) | (_ & _ & e & ->)]].
  - intros i t. rewrite unresolved_count_updated. apply H.
  - intros i t.
    rewrite unresolved_count_updated, unresolved_count_add_flag.
    destruct (DataIntegrityFlag.matches i t _) eqn:Hm.
    + apply matches_new_flag in Hm. destruct Hm as [<- <-].
      unfold unresolved_count. rewrite (find_none_filter _ _ Hnone).
      simpl. lia.
    + specialize (H i t). lia.
  - exact H.
Qed.

Lemma check_each_keeps I flagType severity u found :
  (forall x r, keeps I (check_one flagType severity u x r)) ->
  forall r, keeps I (check_each flagType severity u found r).
Proof.
  intros Hone. induction found as [|x found IH]; intros r; simpl.
  - apply keeps_ret.
  - apply keeps_bind; [apply Hone|]. intros r'. apply IH.
Qed.

Lemma run_rule_keeps I ruleName flagType severity u query :
  keeps I query ->
  (forall x r, keeps I (check_one flagType severity u x r)) ->
  keeps I (run_rule ruleName flagType severity u query).
Proof.
  intros Hq Hone. unfold run_rule. apply keeps_try_catch.
  - apply keeps_bind; [exact Hq|]. intros found.
    apply check_each_keeps. exact Hone.
  - intros e. apply keeps_ret.
Qed.

(** The queries of the three rules read the database and leave it as it
    is. *)
Lemma lotsWithoutQuality_read_only : read_only lotsWithoutQuality.
Proof. intros st. reflexivity. Qed.

Lemma orphanedShipments_read_only : read_only orphanedShipments.
Proof. intros st. reflexivity. Qed.

Lemma dateConflicts_read_only : read_only dateConflicts.
Proof. intros st. reflexivity. Qed.

Lemma read_only_keeps I query : read_only query -> keeps I query.
Proof. intros Hq st H. rewrite Hq. exact H. Qed.

Lemma runAllValidations_keeps_at_most_one :
  keeps at_most_one_unresolved runAllValidations.
Proof.
  unfold runAllValidations, validatePendingInspections,
    validateOrphanedShipments, validateDateLogic.
  repeat (apply keeps_bind;
          [apply run_rule_keeps;
           [apply read_only_keeps; intros st; reflexivity
           |intros; apply check_one_keeps_at_most_one]
          |intros]).
  apply keeps_ret.
Qed.

(** C5: from a database in which every lot has at most one unresolved flag
    of each type, any number of sequential validation passes leads to such
    a database. *)
Theorem at_most_one_unresolved_flag :
  forall n st,
    at_most_one_unresolved st ->
    at_most_one_unresolved (validation_passes n st).
Proof.
  induction n as [|n IH]; intros st H; simpl; [exact H|].
  apply IH. apply keeps_after; [apply runAllValidations_keeps_at_most_one|].
  exact H.
Qed.

Lemma at_most_one_unresolved_flag_witness :
  at_most_one_unresolved
    (run_pipeline no_parser default_config
       [IngestProduction [production_LOT9] 0; IngestShipping [shipping_LOT9] 0])
  /\ at_most_one_unresolved
       (validation_passes 3
          (run_pipeline no_parser default_config
             [IngestProduction [production_LOT9] 0;
              IngestShipping [shipping_LOT9] 0])).
Proof.
  split.
  - intros i t. vm_compute. lia.
  - apply (at_most_one_unresolved_flag 3).
    intros i t. vm_compute. lia.
Defined.

Example three_passes_three_flags :
  map (fun f => (f_lot_id f, flag_type f))
    (data_integrity_flags
       (validation_passes 3
          (run_pipeline no_parser default_config
             [IngestProduction [production_LOT9] 0;
              IngestShipping [shipping_LOT9] 0])))
  = [(1%Z, "Pending Inspection"); (2%Z, "Pending Inspection");
     (2%Z, "Orphaned Shipment")].
Proof. vm_compute. reflexivity. Qed.

(** ** What a pass of a rule changes *)

Lemma Forall2_same {A} (R : A -> A -> Prop) l :
  (forall a, R a a) -> Forall2 R l l.
Proof. intros HR. induction l; constructor; auto. Qed.

Lemma Forall2_compose {A} (R : A -> A -> Prop) l1 l2 l3 :
  (forall a b c, R a b -> R b c -> R a c) ->
  Forall2 R l1 l2 -> Forall2 R l2 l3 -> Forall2 R l1 l3.
Proof.
  intros HR H12. revert l3.
  induction H12; intros l3 H23; inversion H23; subst; constructor; eauto.
Qed.

Lemma Forall2_In_right {A} (R : A -> A -> Prop) l l' b :
  Forall2 R l l' -> In b l' -> exists a, In a l /\ R a b.
Proof.
  induction 1 as [|x y l l' Hxy _ IH]; simpl; [tauto|].
  intros [<-|Hin]; [eauto|].
  destruct (IH Hin) as (a & Ha & HR). eauto.
Qed.

Lemma Forall2_map_right {A} (R : A -> A -> Prop) (f : A -> A) l :
  (forall a, R a (f a)) -> Forall2 R l (map f l).
Proof. intros HR. induction l; simpl; constructor; auto. Qed.

Lemma evolves_refl u st : evolves u st st.
Proof.
  repeat split; try reflexivity.
  - apply Forall2_same. auto.
  - exists []. rewrite app_nil_r. reflexivity.
Qed.

Lemma evolves_trans u st1 st2 st3 :
  evolves u st1 st2 -> evolves u st2 st3 -> evolves u st1 st3.
Proof.
  intros (L1 & S1 & P1 & Q1 & H1 & (n1 & F1) & M1)
         (L2 & S2 & P2 & Q2 & H2 & (n2 & F2) & M2).
  repeat split; try congruence.
  - eapply Forall2_compose; [|exact L1|exact L2].
    intros a b c [->| ->] [->| ->]; auto.
    right. apply apply_idempotent.
  - exists (n1 ++ n2)%list. rewrite F2, F1, app_assoc. reflexivity.
Qed.

Lemma evolves_updated u i st : evolves u st (updated i u st).
Proof.
  destruct (updated_rest i u st) as (S & P & Q & H & F & _ & M).
  repeat split; try assumption.
  - rewrite lots_updated. apply Forall2_map_right.
    intros l. destruct (lot_id l =? i)%Z; auto.
  - exists []. rewrite app_nil_r. exact F.
Qed.

Lemma evolves_add_flag u f st : evolves u st (add_flag f st).
Proof.
  repeat split; try reflexivity.
  - apply Forall2_same. auto.
  - exists [f]. reflexivity.
Qed.

Lemma check_one_evolves flagType severity u x r st :
  evolves u st (after (check_one flagType severity u x r) st).
Proof.
  unfold after.
  destruct (check_one_cases flagType severity u x r st)
    as [(_ & ->) | [(_ & _ & ->) | (_ & _ & e & ->)]]; simpl.
  - apply evolves_updated.
  - eapply evolves_trans; [apply evolves_add_flag|apply evolves_updated].
  - apply evolves_refl.
Qed.

Lemma check_one_returns flagType severity u x r st :
  exists r', check_one flagType severity u x r st
             = (Ok r', after (check_one flagType severity u x r) st).
Proof.
  unfold after.
  destruct (check_one_cases flagType severity u x r st)
    as [(_ & ->) | [(_ & _ & ->) | (_ & _ & e & ->)]]; eexists; reflexivity.
Qed.

Lemma check_each_step flagType severity u x found r st :
  exists r',
    check_each flagType severity u (x :: found) r st
    = check_each flagType severity u found r'
        (after (check_one flagType severity u x r) st).
Proof.
  destruct (check_one_returns flagType severity u x r st) as [r' H].
  exists r'. simpl. unfold bind. rewrite H. reflexivity.
Qed.

Lemma check_each_evolves flagType severity u found :
  forall r st,
    evolves u st (after (check_each flagType severity u found r) st).
Proof.
  induction found as [|x found IH]; intros r st.
  - apply evolves_refl.
  - destruct (check_each_step flagType severity u x found r st) as [r' H].
    unfold after at 1. rewrite H.
    eapply evolves_trans; [apply check_one_evolves|apply IH].
Qed.

Lemma check_each_returns flagType severity u found :
  forall r st,
    exists r', check_each flagType severity u found r st
               = (Ok r', after (check_each flagType severity u found r) st).
Proof.
  induction found as [|x found IH]; intros r st.
  - eexists. reflexivity.
  - destruct (check_each_step flagType severity u x found r st) as [r' H].
    unfold after. rewrite H. apply IH.
Qed.

Lemma run_rule_unfold ruleName flagType severity u query st :
  read_only query ->
  run_rule ruleName flagType severity u query st
  = check_each flagType severity u (findings_of query st)
      (mkValidation ruleName 0 0 []) st.
Proof.
  intros Hq. unfold run_rule, try_catch, bind. rewrite Hq.
  destruct (check_each_returns flagType severity u (findings_of query st)
              (mkValidation ruleName 0 0 []) st) as [r' ->].
  reflexivity.
Qed.

Lemma run_rule_evolves ruleName flagType severity u query st :
  read_only query ->
  evolves u st (after (run_rule ruleName flagType severity u query) st).
Proof.
  intros Hq. unfold after. rewrite run_rule_unfold by exact Hq.
  apply check_each_evolves.
Qed.

Lemma evolves_identity u st st' l' :
  evolves u st st' -> In l' (lots st') ->
  exists l, In l (lots st) /\ (l' = l \/ l' = Lot.apply u l).
Proof.
  intros (L & _) Hin.
  destruct (Forall2_In_right _ _ _ _ L Hin) as (l & Hl & HR).
  exists l. split; assumption.
Qed.

Lemma lot_exists_evolves u st st' i :
  evolves u st st' -> lot_exists i st' = lot_exists i st.
Proof.
  intros (L & _). unfold lot_exists.
  induction L as [|l l' ls ls' H _ IH]; simpl; [reflexivity|].
  rewrite IH. destruct H as [->| ->]; reflexivity.
Qed.

Lemma find_append {A} (p : A -> bool) l l' :
  find p (l ++ l')
  = match find p l with
    | Some a => Some a
    | None => find p l'
    end.
Proof.
  induction l as [|a l IH]; simpl; [reflexivity|].
  destruct (p a); [reflexivity|exact IH].
Qed.

Lemma find_app_some {A} (p : A -> bool) l l' :
  find p l <> None -> find p (l ++ l') <> None.
Proof.
  rewrite find_append. destruct (find p l); congruence.
Qed.

Lemma covered_evolves flagType u found st st' :
  evolves u st st' -> covered flagType found st -> covered flagType found st'.
Proof.
  intros (_ & _ & _ & _ & _ & (new & F) & _) H x Hx.
  rewrite F. apply find_app_some. apply H. exact Hx.
Qed.

Lemma stable_evolves u u' found st st' :
  compatible u' u -> evolves u' st st' ->
  stable u found st -> stable u found st'.
Proof.
  intros Hc He H x l' Hx Hl' Hid.
  destruct (evolves_identity _ _ _ _ He Hl') as (l & Hl & [->| ->]).
  - eapply H; eauto.
  - apply Hc. eapply H; eauto.
Qed.

Lemma compatible_self u : compatible u u.
Proof. intros l _. apply apply_idempotent. Qed.

(** ** A rule settles after one pass and then has nothing to do *)

Section Rule.

Variables ruleName flagType severity : string.
Variable u : Lot.updates.
Variable query : M (list finding).

Hypothesis text_fits :
  (50 <? length flagType)%nat || (20 <? length severity)%nat = false.
Hypothesis severity_allowed :
  includes DataIntegrityFlag.severities severity = true.
Hypothesis query_reads : read_only query.
Hypothesis findings_have_lots :
  forall st x, In x (findings_of query st) ->
    lot_exists (finding_lot x) st = true.
Hypothesis findings_ignore_flags :
  forall u' st st', evolves u' st st' ->
    findings_of query st' = findings_of query st.

Lemma check_one_settles x r st :
  lot_exists (finding_lot x) st = true ->
  covered flagType [x] (after (check_one flagType severity u x r) st)
  /\ stable u [x] (after (check_one flagType severity u x r) st).
Proof.
  intros Hlot. unfold after.
  destruct (check_one_cases flagType severity u x r st)
    as [(Hsome & ->) | [(_ & _ & ->) | (_ & Hrefused & _)]]; simpl.
  - split.
    + intros y [<-|[]].
      destruct (updated_rest (finding_lot x) u st) as (_ & _ & _ & _ & -> & _).
      exact Hsome.
    + intros y l [<-|[]] Hl Hid. rewrite lots_updated in Hl.
      apply in_map_iff in Hl. destruct Hl as (l0 & <- & _).
      destruct (lot_id l0 =? finding_lot x)%Z eqn:E.
      * apply apply_idempotent.
      * apply Z.eqb_neq in E. contradiction.
  - split.
    + intros y [<-|[]].
      match goal with
      | |- context [updated ?i ?v ?s] =>
          destruct (updated_rest i v s) as (_ & _ & _ & _ & -> & _)
      end.
      simpl. rewrite find_append.
      destruct (find _ (data_integrity_flags st)); [discriminate|].
      simpl. unfold DataIntegrityFlag.matches. simpl.
      rewrite Z.eqb_refl, String.eqb_refl. discriminate.
    + intros y l [<-|[]] Hl Hid. rewrite lots_updated in Hl.
      apply in_map_iff in Hl. destruct Hl as (l0 & <- & _).
      simpl in *.
      destruct (lot_id l0 =? finding_lot x)%Z eqn:E.
      * apply apply_idempotent.
      * apply Z.eqb_neq in E. contradiction.
  - exfalso. destruct Hrefused as [H|[H|H]]; congruence.
Qed.

Lemma check_each_settles found :
  forall r st,
    (forall x, In x found -> lot_exists (finding_lot x) st = true) ->
    covered flagType found (after (check_each flagType severity u found r) st)
    /\ stable u found (after (check_each flagType severity u found r) st).
Proof.
  induction found as [|x found IH]; intros r st Hlots.
  - split; intros y; simpl; tauto.
  - destruct (check_each_step flagType severity u x found r st) as [r' H].
    set (st1 := after (check_one flagType severity u x r) st) in *.
    assert (Hst : after (check_each flagType severity u (x :: found) r) st
                  = after (check_each flagType severity u found r') st1)
      by (unfold after; rewrite H; reflexivity).
    rewrite Hst.
    assert (E1 : evolves u st st1) by apply check_one_evolves.
    assert (E2 : evolves u st1
                   (after (check_each flagType severity u found r') st1))
      by apply check_each_evolves.
    destruct (check_one_settles x r st) as [Cx Sx]; [apply Hlots; left; auto|].
    destruct (IH r' st1) as [C S].
    { intros y Hy. rewrite (lot_exists_evolves _ _ _ _ E1).
      apply Hlots. right. exact Hy. }
    split.
    + intros y [<-|Hy]; [|apply C; exact Hy].
      eapply covered_evolves; [exact E2|exact Cx|left; reflexivity].
    + intros y l [<-|Hy]; [|apply S; exact Hy].
      eapply stable_evolves; [apply compatible_self|exact E2|exact Sx|].
      left. reflexivity.
Qed.

Lemma run_rule_settles st :
  settled flagType u query
    (after (run_rule ruleName flagType severity u query) st).
Proof.
  unfold settled.
  rewrite (findings_ignore_flags u st)
    by (apply run_rule_evolves; exact query_reads).
  unfold after. rewrite run_rule_unfold by exact query_reads.
  apply check_each_settles. apply findings_have_lots.
Qed.

Lemma settled_evolves u' st st' :
  compatible u' u -> evolves u' st st' ->
  settled flagType u query st -> settled flagType u query st'.
Proof.
  intros Hc He [C S]. unfold settled.
  rewrite (findings_ignore_flags u' st st' He). split.
  - eapply covered_evolves; eauto.
  - eapply stable_evolves; eauto.
Qed.

Lemma updated_stable x st :
  (forall l, In l (lots st) -> lot_id l = finding_lot x -> Lot.apply u l = l) ->
  updated (finding_lot x) u st = st.
Proof.
  intros H.
  destruct (updated_rest (finding_lot x) u st)
    as (S & P & Q & Hs & F & Fs & Ms).
  apply store_eq; try assumption.
  rewrite lots_updated. rewrite <- (map_id (lots st)) at 2.
  apply map_ext_in. intros l Hl.
  destruct (lot_id l =? finding_lot x)%Z eqn:E; [|reflexivity].
  apply H; [exact Hl|]. apply Z.eqb_eq. exact E.
Qed.

Lemma check_each_settled found :
  forall r st,
    covered flagType found st -> stable u found st ->
    exists r',
      check_each flagType severity u found r st = (Ok r', st)
      /\ name r' = name r /\ flagsCreated r' = flagsCreated r
      /\ flagsSkipped r' = (flagsSkipped r + List.length found)%nat
      /\ validation_errors r' = validation_errors r.
Proof.
  induction found as [|x found IH]; intros r st C S.
  - exists r. simpl. repeat split. lia.
  - destruct (check_one_cases flagType severity u x r st)
      as [(_ & H) | [(Hnone & _) | (Hnone & _)]].
    2,3: exfalso; apply (C x); [left; reflexivity|exact Hnone].
    rewrite updated_stable in H
      by (intros l Hl Hid; apply (S x l); [left; reflexivity|exact Hl|exact Hid]).
    destruct (IH (skipped r) st) as (r' & Hr & Hn & Hc & Hs & He).
    { intros y Hy. apply C. right. exact Hy. }
    { intros y l Hy. apply S. right. exact Hy. }
    exists r'. simpl. unfold bind. rewrite H, Hr.
    repeat split; try assumption. rewrite Hs. simpl. lia.
Qed.

Lemma run_rule_settled st :
  settled flagType u query st ->
  run_rule ruleName flagType severity u query st
  = (Ok (mkValidation ruleName 0 (List.length (findings_of query st)) []), st).
Proof.
  intros [C S]. rewrite run_rule_unfold by exact query_reads.
  destruct (check_each_settled (findings_of query st)
              (mkValidation ruleName 0 0 []) st C S)
    as (r' & -> & Hn & Hc & Hs & He).
  destruct r'. simpl in *. subst. reflexivity.
Qed.

End Rule.

(** ** The three rules *)

Lemma has_quality_evolves u st st' i :
  evolves u st st' -> has_quality i st' = has_quality i st.
Proof.
  intros (_ & _ & _ & Q & _). unfold has_quality. rewrite Q. reflexivity.
Qed.

Lemma map_filter_evolves {B} u (f f' : lot -> bool) (g g' : lot -> B) ls ls' :
  Forall2 (fun l l' => l' = l \/ l' = Lot.apply u l) ls ls' ->
  (forall l l', same_identity l l' -> f' l' = f l /\ g' l' = g l) ->
  map g' (filter f' ls') = map g (filter f ls).
Proof.
  intros L H. induction L as [|l l' ls ls' Hl _ IH]; simpl; [reflexivity|].
  assert (Hid : same_identity l l').
  { destruct Hl as [->| ->]; [repeat split|apply apply_identity]. }
  destruct (H l l' Hid) as [Hf Hg]. rewrite Hf.
  destruct (f l); simpl; rewrite IH; [rewrite Hg|]; reflexivity.
Qed.

Lemma lotsWithoutQuality_ignore_flags u st st' :
  evolves u st st' ->
  findings_of lotsWithoutQuality st' = findings_of lotsWithoutQuality st.
Proof.
  intros He. unfold findings_of, returned, lotsWithoutQuality, bind,
    QualityInspectionRecord.findLotsWithoutQuality. simpl.
  apply (map_filter_evolves u); [apply He|].
  intros l l' (Hi & Hc & Hd).
  rewrite (has_quality_evolves _ _ _ _ He), Hi, Hc, Hd. auto.
Qed.

Lemma lotsWithoutQuality_have_lots st x :
  In x (findings_of lotsWithoutQuality st) ->
  lot_exists (finding_lot x) st = true.
Proof.
  unfold findings_of, returned, lotsWithoutQuality, bind,
    QualityInspectionRecord.findLotsWithoutQuality. simpl.
  intros H. apply in_map_iff in H. destruct H as (l & <- & Hl).
  apply filter_In in Hl. destruct Hl as [Hl _].
  apply existsb_exists. exists l. split; [exact Hl|apply Z.eqb_refl].
Qed.

Lemma orphanedShipments_ignore_flags u st st' :
  evolves u st st' ->
  findings_of orphanedShipments st' = findings_of orphanedShipments st.
Proof.
  intros He. unfold findings_of, returned, orphanedShipments, bind,
    ShippingRecord.findOrphanedShipments. simpl. f_equal.
  destruct He as (L & _ & _ & Q & S & _). rewrite S.
  apply flat_map_ext. intros s.
  apply (map_filter_evolves u); [exact L|].
  intros l l' (Hi & Hc & Hd). unfold has_quality. rewrite Q, Hi, Hc. auto.
Qed.

Lemma orphanedShipments_have_lots st x :
  In x (findings_of orphanedShipments st) ->
  lot_exists (finding_lot x) st = true.
Proof.
  unfold findings_of, returned, orphanedShipments, bind,
    ShippingRecord.findOrphanedShipments. simpl.
  intros H. apply in_map_iff in H. destruct H as ([s code] & <- & H).
  apply in_flat_map in H. destruct H as (s' & _ & H).
  apply in_map_iff in H. destruct H as (l & [= <- <-] & Hl).
  apply filter_In in Hl. destruct Hl as [Hl Hp].
  apply andb_true_iff in Hp. destruct Hp as [Hp _].
  apply existsb_exists. exists l. split; [exact Hl|exact Hp].
Qed.

Lemma dateConflicts_ignore_flags u st st' :
  evolves u st st' ->
  findings_of dateConflicts st' = findings_of dateConflicts st.
Proof.
  intros He. unfold findings_of, returned, dateConflicts. simpl.
  destruct He as (L & _ & _ & _ & S & _). rewrite S.
  apply flat_map_ext. intros s.
  apply (map_filter_evolves u); [exact L|].
  intros l l' (Hi & Hc & Hd). rewrite Hi, Hc, Hd. auto.
Qed.

Lemma dateConflicts_have_lots st x :
  In x (findings_of dateConflicts st) ->
  lot_exists (finding_lot x) st = true.
Proof.
  unfold findings_of, returned, dateConflicts. simpl.
  intros H. apply in_flat_map in H. destruct H as (s & _ & H).
  apply in_map_iff in H. destruct H as (l & <- & Hl).
  apply filter_In in Hl. destruct Hl as [Hl _].
  apply existsb_exists. exists l. split; [exact Hl|apply Z.eqb_refl].
Qed.

Lemma run_rule_returns ruleName flagType severity u query st :
  read_only query ->
  exists r,
    run_rule ruleName flagType severity u query st
    = (Ok r, after (run_rule ruleName flagType severity u query) st).
Proof.
  intros Hq. unfold after. rewrite run_rule_unfold by exact Hq.
  apply check_each_returns.
Qed.

Lemma after_runAllValidations st :
  after runAllValidations st
  = after validateDateLogic
      (after validateOrphanedShipments
         (after validatePendingInspections st)).
Proof.
  unfold runAllValidations, bind, after at 1.
  destruct (run_rule_returns "Pending Inspections" "Pending Inspection"
              "Warning" (Lot.mkUpdates (Some true) None None)
              lotsWithoutQuality st lotsWithoutQuality_read_only) as [r1 H1].
  fold validatePendingInspections in H1. rewrite H1.
  set (st1 := after validatePendingInspections st).
  destruct (run_rule_returns "Orphaned Shipments" "Orphaned Shipment"
              "Critical" (Lot.mkUpdates None (Some true) None)
              orphanedShipments st1 orphanedShipments_read_only) as [r2 H2].
  fold validateOrphanedShipments in H2. rewrite H2.
  set (st2 := after validateOrphanedShipments st1).
  destruct (run_rule_returns "Date Logic Validation" "Date Conflict"
              "Error" (Lot.mkUpdates None None (Some true))
              dateConflicts st2 dateConflicts_read_only) as [r3 H3].
  fold validateDateLogic in H3. rewrite H3. reflexivity.
Qed.

Lemma rules_compatible :
  let pending := Lot.mkUpdates (Some true) None None in
  let integrity := Lot.mkUpdates None (Some true) None in
  let conflict := Lot.mkUpdates None None (Some true) in
  compatible integrity pending /\ compatible conflict pending
  /\ compatible conflict integrity.
Proof.
  repeat split; intros [i c d p q r]; unfold Lot.apply; simpl;
    intros [= ->]; reflexivity.
Qed.

(** A run of the engine over the state that a run left creates no flag in
    any rule, records no error, and leaves the database as it was. *)
Lemma runAllValidations_after_a_run :
  forall st,
    let st1 := after runAllValidations st in
    exists skipped1 skipped2 skipped3,
      runAllValidations st1
      = (Ok [mkValidation "Pending Inspections" 0 skipped1 [];
             mkValidation "Orphaned Shipments" 0 skipped2 [];
             mkValidation "Date Logic Validation" 0 skipped3 []],
         st1).
Proof.
  intros st st1. subst st1. rewrite after_runAllValidations.
  set (sa := after validatePendingInspections st).
  set (sb := after validateOrphanedShipments sa).
  set (sc := after validateDateLogic sb).
  destruct rules_compatible as (C1 & C2 & C3).
  assert (Eb : evolves (Lot.mkUpdates None (Some true) None) sa sb)
    by (apply run_rule_evolves, orphanedShipments_read_only).
  assert (Ec : evolves (Lot.mkUpdates None None (Some true)) sb sc)
    by (apply run_rule_evolves, dateConflicts_read_only).
  assert (S1 : settled "Pending Inspection"
                 (Lot.mkUpdates (Some true) None None) lotsWithoutQuality sc).
  { eapply settled_evolves;
      [apply lotsWithoutQuality_ignore_flags|exact C2|exact Ec|].
    eapply settled_evolves;
      [apply lotsWithoutQuality_ignore_flags|exact C1|exact Eb|].
    apply run_rule_settles;
      [reflexivity|reflexivity|apply lotsWithoutQuality_read_only
      |apply lotsWithoutQuality_have_lots
      |apply lotsWithoutQuality_ignore_flags]. }
  assert (S2 : settled "Orphaned Shipment"
                 (Lot.mkUpdates None (Some true) None) orphanedShipments sc).
  { eapply settled_evolves;
      [apply orphanedShipments_ignore_flags|exact C3|exact Ec|].
    apply run_rule_settles;
      [reflexivity|reflexivity|apply orphanedShipments_read_only
      |apply orphanedShipments_have_lots
      |apply orphanedShipments_ignore_flags]. }
  assert (S3 : settled "Date Conflict"
                 (Lot.mkUpdates None None (Some true)) dateConflicts sc).
  { apply run_rule_settles;
      [reflexivity|reflexivity|apply dateConflicts_read_only
      |apply dateConflicts_have_lots
      |apply dateConflicts_ignore_flags]. }
  do 3 eexists.
  unfold runAllValidations, bind, validatePendingInspections,
    validateOrphanedShipments, validateDateLogic.
  rewrite (run_rule_settled _ _ _ _ _ lotsWithoutQuality_read_only sc S1).
  rewrite (run_rule_settled _ _ _ _ _ orphanedShipments_read_only sc S2).
  rewrite (run_rule_settled _ _ _ _ _ dateConflicts_read_only sc S3).
  reflexivity.
Qed.

Lemma validation_passes_last n :
  forall st,
    validation_passes (S n) st
    = after runAllValidations (validation_passes n st).
Proof.
  induction n as [|n IH]; intros st; [reflexivity|].
  change (validation_passes (S (S n)) st)
    with (validation_passes (S n) (after runAllValidations st)).
  rewrite IH. reflexivity.
Qed.

(** C4: after one run of the engine or more, a further run over the
    unchanged state creates no flag in any rule ([flagsCreated] is 0 for
    the three of them), records no error, and leaves the database, flags
    and lot columns included, exactly as it was. *)
Theorem runAllValidations_again :
  forall st n,
    let st1 := validation_passes (S n) st in
    exists skipped1 skipped2 skipped3,
      runAllValidations st1
      = (Ok [mkValidation "Pending Inspections" 0 skipped1 [];
             mkValidation "Orphaned Shipments" 0 skipped2 [];
             mkValidation "Date Logic Validation" 0 skipped3 []],
         st1).
Proof.
  intros st n st1. subst st1. rewrite validation_passes_last.
  apply runAllValidations_after_a_run.
Qed.

Example second_run_of_scenario_3 :
  let st1 := run_pipeline no_parser default_config
               [IngestProduction [production_LOT9] 0;
                IngestShipping [shipping_LOT9] 0; Validate] in
  runAllValidations st1
  = (Ok [mkValidation "Pending Inspections" 0 2 [];
         mkValidation "Orphaned Shipments" 0 1 [];
         mkValidation "Date Logic Validation" 0 0 []],
     st1).
Proof. vm_compute. reflexivity. Qed.

(** ** Invariants of ingestion *)

Ltac keeps_step :=
  lazymatch goal with
  | |- keeps _ (ret _) => apply keeps_ret
  | |- keeps _ (throw _) => apply keeps_throw
  | |- keeps _ (lift_js _) => apply keeps_lift_js
  | |- keeps _ (lift_db _) => apply keeps_lift_db
  | |- keeps _ get => apply keeps_get
  | |- keeps _ (bind _ _) => apply keeps_bind; [|intros ?]
  | |- keeps _ (try_catch _ _) => apply keeps_try_catch; [|intros ?]
  | |- keeps _ (if ?c then _ else _) => destruct c
  | |- keeps _ (match ?c with _ => _ end) => destruct c
  end.

Section Invariant.

Variable I : store -> Prop.

Hypothesis I_sequence :
  forall st, I st -> I (set_lots_id_seq (lots_id_seq st + 1) st).
Hypothesis I_new_lot :
  forall st code d,
    I st -> find (Lot.same_key code d) (lots st) = None ->
    lot_exists (lots_id_seq st) st = false ->
    I (with_new_lot code d st).
Hypothesis I_updated :
  forall st i u,
    Lot.set_has_date_conflict u = None -> I st -> I (updated i u st).
Hypothesis I_production : forall st r, I st -> I (add_production r st).
Hypothesis I_quality : forall st r, I st -> I (add_quality r st).
Hypothesis I_shipping :
  forall st r l,
    I st -> In l (lots st) -> lot_id l = s_lot_id r ->
    production_date l = ship_date r -> I (add_shipping r st).
Hypothesis I_sources : forall st f, I st -> I (set_sources f st).

Lemma create_resolves code dateText :
  triple I (Lot.create code dateText) (resolves I dateText) I.
Proof.
  intros st HI. unfold Lot.create.
  destruct (date_in dateText) as [d|] eqn:Hd; [|exact HI].
  destruct (50 <? length code)%nat; [exact HI|].
  destruct (find (Lot.same_key code d) (lots st)) as [l|] eqn:Hfind.
  - split; [apply I_sequence; exact HI|].
    apply find_some in Hfind. destruct Hfind as [Hin Hkey].
    apply same_key_spec in Hkey. destruct Hkey as [_ <-]. auto.
  - destruct (lot_exists (lots_id_seq st) st) eqn:Hex; [exact HI|].
    split; [apply I_new_lot; assumption|].
    split; [|exact Hd].
    simpl. apply in_or_app. right. left. reflexivity.
Qed.

Lemma find_resolves code dateText :
  triple I (Lot.findByCompositeKey code dateText)
    (fun found st =>
       I st /\ forall l, found = Some l -> resolves I dateText l st)
    I.
Proof.
  intros st HI. unfold Lot.findByCompositeKey.
  destruct (date_in dateText) as [d|] eqn:Hd; [|exact HI].
  split; [exact HI|]. intros l Hfind.
  apply find_some in Hfind. destruct Hfind as [Hin Hkey].
  apply same_key_spec in Hkey. destruct Hkey as [_ <-].
  split; [exact HI|]. rewrite Hd. auto.
Qed.

Lemma find_or_create_resolves code dateText :
  triple I
    (found <- Lot.findByCompositeKey code dateText ;;
     match found with
     | Some l => ret l
     | None => Lot.create code dateText
     end)
    (resolves I dateText) I.
Proof.
  eapply triple_bind; [apply find_resolves|].
  intros [l|].
  - apply triple_ret. intros st [_ H]. apply H. reflexivity.
  - eapply triple_weaken; [apply create_resolves| |auto|auto].
    intros st [H _]. exact H.
Qed.

Lemma update_keeps i u :
  Lot.set_has_date_conflict u = None -> keeps I (Lot.update i u).
Proof.
  intros Hu st HI. destruct (update_returns i u st) as [o ->].
  apply I_updated; assumption.
Qed.

Lemma production_create_keeps i line shift planned actual downtime issue :
  keeps I (ProductionRecord.create i line shift planned actual downtime issue).
Proof.
  unfold ProductionRecord.create. repeat keeps_step.
  apply keeps_modify. intros st HI. apply I_production. exact HI.
Qed.

Lemma quality_create_keeps i dateText pass dtype count inspector :
  keeps I (QualityInspectionRecord.create i dateText pass dtype count
             inspector).
Proof.
  unfold QualityInspectionRecord.create. repeat keeps_step.
  apply keeps_modify. intros st HI. apply I_quality. exact HI.
Qed.

Lemma shipping_create_keeps l dateText dest carrier qty status :
  triple (resolves I dateText l)
    (ShippingRecord.create (lot_id l) dateText dest carrier qty status)
    (fun _ => I) I.
Proof.
  intros st (HI & Hin & Hd).
  unfold ShippingRecord.create. rewrite Hd.
  unfold bind, lift_db, get, modify, throw, ret.
  destruct (varchar 2 dest); simpl; [|exact HI].
  destruct (varchar 50 carrier); simpl; [|exact HI].
  destruct (integer qty); simpl; [|exact HI].
  destruct (varchar 20 status); simpl; [|exact HI].
  destruct (negb (lot_exists (lot_id l) st)); simpl; [exact HI|].
  destruct (existsb _ (shipping_records st)); simpl; [exact HI|].
  destruct (negb (0 <=? a1)%Z); simpl; [exact HI|].
  apply (I_shipping st _ l); auto.
Qed.

Lemma upsert_keeps sourceName location format status now :
  keeps I (DataSourceMetadata.upsert sourceName location format status now).
Proof.
  intros st HI. unfold DataSourceMetadata.upsert.
  destruct (_ || _); [exact HI|].
  destruct (negb _); [exact HI|].
  apply I_sources. exact HI.
Qed.

Variable Date_parse : string -> option string.
Variable config : dataSources.

Lemma production_row_keeps record :
  keeps I (production_row Date_parse record).
Proof.
  unfold production_row.
  apply keeps_bind; [apply keeps_lift_js|intros code].
  apply keeps_bind; [apply keeps_lift_js|intros dateText].
  destruct (missing_key code dateText); [apply keeps_ret|].
  eapply triple_bind; [apply create_resolves|]. intros l.
  eapply triple_weaken with (P' := I) (Q' := fun _ => I) (E' := I);
    [|intros st H; apply H|auto|auto].
  apply keeps_bind; [apply production_create_keeps|intros _; apply keeps_ret].
Qed.

Lemma quality_row_keeps record : keeps I (quality_row Date_parse record).
Proof.
  unfold quality_row.
  apply keeps_bind; [apply keeps_lift_js|intros code].
  apply keeps_bind; [apply keeps_lift_js|intros dateText].
  destruct (missing_key code dateText); [apply keeps_ret|].
  eapply triple_bind; [apply find_resolves|]. intros found.
  eapply triple_bind with (R := fun _ => I).
  { destruct found as [l|].
    - apply triple_ret. intros st [H _]. exact H.
    - eapply triple_weaken; [apply create_resolves| |auto|auto].
      + intros st [H _]. exact H.
      + intros l st H. apply H. }
  intros l.
  apply keeps_bind; [apply quality_create_keeps|intros _].
  apply keeps_bind; [apply update_keeps; reflexivity|intros _; apply keeps_ret].
Qed.

Lemma shipping_row_keeps record : keeps I (shipping_row Date_parse record).
Proof.
  unfold shipping_row.
  apply keeps_bind; [apply keeps_lift_js|intros code].
  apply keeps_bind; [apply keeps_lift_js|intros dateText].
  destruct (missing_key code dateText); [apply keeps_ret|].
  eapply triple_bind; [apply find_resolves|]. intros found.
  eapply triple_bind with (R := resolves I (the_date dateText)).
  { destruct found as [l|].
    - apply triple_ret. intros st [_ H]. apply H. reflexivity.
    - eapply triple_weaken; [apply create_resolves| |auto|auto].
      intros st [H _]. exact H. }
  intros l.
  eapply triple_bind; [apply shipping_create_keeps|].
  intros r. apply keeps_ret.
Qed.

Lemma each_record_keeps body records :
  (forall record, keeps I (body record)) ->
  forall result, keeps I (each_record body records result).
Proof.
  intros Hbody. induction records as [|record rest IH]; intros result; simpl.
  - apply keeps_ret.
  - apply keeps_bind; [|intros r; apply IH].
    apply keeps_try_catch; [|intros e; apply keeps_ret].
    apply keeps_bind; [apply Hbody|intros e; apply keeps_ret].
Qed.

Lemma ingest_keeps sourceName path format status body records now :
  (forall record, keeps I (body record)) ->
  keeps I (ingest sourceName path format status body records now).
Proof.
  intros Hbody. unfold ingest. destruct records as [|record rest].
  - apply keeps_ret.
  - apply keeps_bind; [apply each_record_keeps; exact Hbody|intros r].
    apply keeps_try_catch; [|intros e; apply keeps_ret].
    apply keeps_bind; [apply upsert_keeps|intros m; apply keeps_ret].
Qed.

Lemma ingestProductionLogs_keeps records now :
  keeps I (ingestProductionLogs Date_parse config records now).
Proof. apply ingest_keeps, production_row_keeps. Qed.

Lemma ingestQualityLogs_keeps records now :
  keeps I (ingestQualityLogs Date_parse config records now).
Proof. apply ingest_keeps, quality_row_keeps. Qed.

Lemma ingestShippingLogs_keeps records now :
  keeps I (ingestShippingLogs Date_parse config records now).
Proof. apply ingest_keeps, shipping_row_keeps. Qed.

End Invariant.

(** ** The invariants *)

Lemma ids_fresh_sequence st :
  ids_fresh st -> ids_fresh (set_lots_id_seq (lots_id_seq st + 1) st).
Proof.
  intros [H N]. split; [|exact N].
  intros l Hl. specialize (H l Hl). simpl. lia.
Qed.

Lemma ids_fresh_no_lot st :
  ids_fresh st -> lot_exists (lots_id_seq st) st = false.
Proof.
  intros [H _]. unfold lot_exists.
  destruct (existsb _ (lots st)) eqn:E; [|reflexivity].
  apply existsb_exists in E. destruct E as (l & Hl & Hid).
  apply Z.eqb_eq in Hid. specialize (H l Hl). lia.
Qed.

Lemma ids_fresh_new_lot st code d :
  ids_fresh st -> ids_fresh (with_new_lot code d st).
Proof.
  intros [H N]. split; simpl.
  - intros l Hl. apply in_app_or in Hl. destruct Hl as [Hl|[<-|[]]].
    + specialize (H l Hl). lia.
    + simpl. lia.
  - rewrite map_app. simpl.
    apply NoDup_app; [exact N|repeat constructor; simpl; tauto|].
    intros i Hi [<-|[]].
    apply in_map_iff in Hi. destruct Hi as (l & Hid & Hl).
    specialize (H l Hl). lia.
Qed.

Lemma map_lot_id_updated i u st :
  map lot_id (lots (updated i u st)) = map lot_id (lots st).
Proof.
  rewrite lots_updated, map_map. apply map_ext.
  intros l. destruct (lot_id l =? i)%Z; reflexivity.
Qed.

Lemma ids_fresh_updated i u st : ids_fresh st -> ids_fresh (updated i u st).
Proof.
  intros [H N]. split.
  - intros l Hl. rewrite lots_updated in Hl.
    apply in_map_iff in Hl. destruct Hl as (l0 & <- & Hl0).
    destruct (updated_rest i u st) as (-> & _).
    specialize (H l0 Hl0). destruct (lot_id l0 =? i)%Z; exact H.
  - rewrite map_lot_id_updated. exact N.
Qed.

Lemma In_updated i u st l :
  In l (lots st) ->
  exists l', In l' (lots (updated i u st)) /\ same_identity l l'
             /\ (Lot.set_has_date_conflict u = None ->
                 has_date_conflict l' = has_date_conflict l).
Proof.
  intros Hl.
  exists (if (lot_id l =? i)%Z then Lot.apply u l else l).
  split.
  { rewrite lots_updated.
    apply (in_map (fun l => if (lot_id l =? i)%Z then Lot.apply u l else l)).
    exact Hl. }
  destruct (lot_id l =? i)%Z.
  - split; [apply apply_identity|]. intros Hu. simpl. rewrite Hu. reflexivity.
  - repeat split.
Qed.

Lemma pipeline_invariant_empty : pipeline_invariant Db.empty.
Proof.
  repeat split; simpl; try tauto. constructor.
Qed.

Lemma pipeline_invariant_sequence st :
  pipeline_invariant st ->
  pipeline_invariant (set_lots_id_seq (lots_id_seq st + 1) st).
Proof.
  intros (F & S & C & D).
  split; [apply ids_fresh_sequence; exact F|]. repeat split; assumption.
Qed.

Lemma pipeline_invariant_new_lot st code d :
  pipeline_invariant st -> pipeline_invariant (with_new_lot code d st).
Proof.
  intros (F & S & C & D).
  split; [apply ids_fresh_new_lot; exact F|]. simpl. repeat split.
  - intros s Hs. destruct (S s Hs) as (l & Hl & H).
    exists l. split; [apply in_or_app; left; exact Hl|exact H].
  - intros l Hl. apply in_app_or in Hl.
    destruct Hl as [Hl|[<-|[]]]; [apply C; exact Hl|reflexivity].
  - exact D.
Qed.

Lemma pipeline_invariant_updated st i u :
  Lot.set_has_date_conflict u = None ->
  pipeline_invariant st -> pipeline_invariant (updated i u st).
Proof.
  intros Hu (F & S & C & D).
  split; [apply ids_fresh_updated; exact F|].
  destruct (updated_rest i u st) as (_ & _ & _ & Hs & Hf & _).
  rewrite Hs, Hf. repeat split; [| |exact D].
  - intros s Hin. destruct (S s Hin) as (l & Hl & Hid & Hd).
    destruct (In_updated i u st l Hl) as (l' & Hl' & (Hi & _ & Hp) & _).
    exists l'. repeat split; congruence.
  - intros l' Hl'. rewrite lots_updated in Hl'.
    apply in_map_iff in Hl'. destruct Hl' as (l & <- & Hl).
    specialize (C l Hl).
    destruct (lot_id l =? i)%Z; [|exact C]. simpl. rewrite Hu. exact C.
Qed.

Lemma pipeline_invariant_shipping st r l :
  pipeline_invariant st -> In l (lots st) -> lot_id l = s_lot_id r ->
  production_date l = ship_date r -> pipeline_invariant (add_shipping r st).
Proof.
  intros (F & S & C & D) Hl Hid Hd. repeat split; try assumption; try apply F.
  simpl. intros s Hs. apply in_app_or in Hs.
  destruct Hs as [Hs|[<-|[]]]; [apply S; exact Hs|eauto].
Qed.

Lemma pipeline_invariant_flag st f :
  flag_type f <> "Date Conflict" ->
  pipeline_invariant st -> pipeline_invariant (add_flag f st).
Proof.
  intros Hf (F & S & C & D). repeat split; try assumption; try apply F.
  simpl. intros f' Hf'. apply in_app_or in Hf'.
  destruct Hf' as [Hf'|[<-|[]]]; [apply D; exact Hf'|exact Hf].
Qed.

Section IngestionKeepsInvariant.

Variable Date_parse : string -> option string.
Variable config : dataSources.

Ltac invariant_case :=
  intros;
  first
    [ apply pipeline_invariant_sequence; assumption
    | apply pipeline_invariant_new_lot; assumption
    | apply pipeline_invariant_updated; assumption
    | eapply pipeline_invariant_shipping; eassumption
    | assumption ].

Lemma ingestProductionLogs_keeps_invariant records now :
  keeps pipeline_invariant
    (ingestProductionLogs Date_parse config records now).
Proof. apply ingestProductionLogs_keeps; invariant_case. Qed.

Lemma ingestQualityLogs_keeps_invariant records now :
  keeps pipeline_invariant (ingestQualityLogs Date_parse config records now).
Proof. apply ingestQualityLogs_keeps; invariant_case. Qed.

Lemma ingestShippingLogs_keeps_invariant records now :
  keeps pipeline_invariant (ingestShippingLogs Date_parse config records now).
Proof. apply ingestShippingLogs_keeps; invariant_case. Qed.

End IngestionKeepsInvariant.

(** ** The date-conflict rule on ingested state *)

Lemma NoDup_map_injective {A B} (f : A -> B) l a b :
  NoDup (map f l) -> In a l -> In b l -> f a = f b -> a = b.
Proof.
  induction l as [|x l IH]; simpl; [tauto|].
  intros N Ha Hb Hf. inversion N as [|y ys Hnotin N']; subst.
  destruct Ha as [->|Ha], Hb as [->|Hb].
  - reflexivity.
  - exfalso. apply Hnotin. rewrite Hf. apply in_map. exact Hb.
  - exfalso. apply Hnotin. rewrite <- Hf. apply in_map. exact Ha.
  - apply IH; assumption.
Qed.

Lemma invariant_shipped_on_production_date st :
  pipeline_invariant st -> shipped_on_production_date st.
Proof.
  intros ([_ N] & S & _) s l Hs Hl Hid.
  destruct (S s Hs) as (l0 & Hl0 & Hid0 & Hd0).
  assert (l = l0)
    by (apply (NoDup_map_injective lot_id (lots st)); congruence).
  subst l0. exact Hd0.
Qed.

Lemma filter_nothing {A} (p : A -> bool) l :
  (forall a, In a l -> p a = false) -> filter p l = [].
Proof.
  induction l as [|a l IH]; simpl; intros H; [reflexivity|].
  rewrite (H a) by auto. apply IH. auto.
Qed.

Lemma flat_map_nothing {A B} (f : A -> list B) l :
  (forall a, In a l -> f a = []) -> flat_map f l = [].
Proof.
  induction l as [|a l IH]; simpl; intros H; [reflexivity|].
  rewrite (H a) by auto. apply IH. auto.
Qed.

Lemma no_conflict_found st :
  shipped_on_production_date st -> findings_of dateConflicts st = [].
Proof.
  intros H. unfold findings_of, returned, dateConflicts. simpl.
  apply flat_map_nothing. intros s Hs.
  rewrite filter_nothing; [reflexivity|].
  intros l Hl. destruct (lot_id l =? s_lot_id s)%Z eqn:E; [|reflexivity].
  apply Z.eqb_eq in E. rewrite (H s l Hs Hl E). simpl.
  apply date_ltb_irrefl.
Qed.

Lemma validateDateLogic_finds_nothing st :
  shipped_on_production_date st ->
  validateDateLogic st = (Ok (mkValidation "Date Logic Validation" 0 0 []), st).
Proof.
  intros H. unfold validateDateLogic.
  rewrite run_rule_unfold by apply dateConflicts_read_only.
  rewrite (no_conflict_found st H). reflexivity.
Qed.

Lemma check_one_keeps_invariant flagType severity u x r :
  flagType <> "Date Conflict" -> Lot.set_has_date_conflict u = None ->
  keeps pipeline_invariant (check_one flagType severity u x r).
Proof.
  intros Ht Hu st H.
  destruct (check_one_cases flagType severity u x r st)
    as [(_ & ->) | [(_ & _ & ->) | (_ & _ & e & ->)]].
  - apply pipeline_invariant_updated; assumption.
  - apply pipeline_invariant_updated; [exact Hu|].
    apply pipeline_invariant_flag; [exact Ht|exact H].
  - exact H.
Qed.

Lemma runAllValidations_keeps_invariant :
  keeps pipeline_invariant runAllValidations.
Proof.
  unfold runAllValidations.
  apply keeps_bind; [|intros r1; apply keeps_bind; [|intros r2]].
  - apply run_rule_keeps; [apply read_only_keeps, lotsWithoutQuality_read_only|].
    intros x r. apply check_one_keeps_invariant; [discriminate|reflexivity].
  - apply run_rule_keeps; [apply read_only_keeps, orphanedShipments_read_only|].
    intros x r. apply check_one_keeps_invariant; [discriminate|reflexivity].
  - apply keeps_bind; [|intros r3; apply keeps_ret].
    intros st H.
    rewrite validateDateLogic_finds_nothing
      by (apply invariant_shipped_on_production_date; exact H).
    exact H.
Qed.

Lemma run_step_keeps_invariant Date_parse config s st :
  pipeline_invariant st -> pipeline_invariant (run_step Date_parse config s st).
Proof.
  intros H. destruct s; simpl; apply keeps_after; try exact H.
  - apply ingestProductionLogs_keeps_invariant.
  - apply ingestQualityLogs_keeps_invariant.
  - apply ingestShippingLogs_keeps_invariant.
  - apply runAllValidations_keeps_invariant.
Qed.

Lemma run_pipeline_invariant Date_parse config steps :
  pipeline_invariant (run_pipeline Date_parse config steps).
Proof.
  unfold run_pipeline. generalize pipeline_invariant_empty.
  generalize Db.empty. induction steps as [|s steps IH]; intros st H; simpl.
  - exact H.
  - apply IH. apply run_step_keeps_invariant. exact H.
Qed.

(** C2: in every database that ingestion batches and validation passes
    build from the empty one, each shipping record carries the production
    date of the lot it is attached to, because that lot was found or created
    by (cleaned lot code, ship date).  The query of the date-conflict rule
    then selects nothing: [validateDateLogic] creates no flag and writes no
    lot, no lot has [has_date_conflict] set and no flag is a date
    conflict. *)
Theorem date_conflict_rule_never_fires :
  forall Date_parse config steps,
    let st := run_pipeline Date_parse config steps in
    shipped_on_production_date st
    /\ findings_of dateConflicts st = []
    /\ validateDateLogic st
       = (Ok (mkValidation "Date Logic Validation" 0 0 []), st)
    /\ Forall (fun l => has_date_conflict l = false) (lots st)
    /\ Forall (fun f => flag_type f <> "Date Conflict")
         (data_integrity_flags st).
Proof.
  intros P config steps st.
  pose proof (run_pipeline_invariant P config steps) as H. fold st in H.
  pose proof (invariant_shipped_on_production_date st H) as Hs.
  split; [exact Hs|].
  split; [apply no_conflict_found; exact Hs|].
  split; [apply validateDateLogic_finds_nothing; exact Hs|].
  destruct H as (_ & _ & C & D).
  split; apply Forall_forall; assumption.
Qed.

(** ** Lot identity resolution *)

Lemma find_map_identity (p : lot -> bool) (g : lot -> lot) ls :
  (forall l, p (g l) = p l) -> (forall l, lot_id (g l) = lot_id l) ->
  option_map lot_id (find p (map g ls)) = option_map lot_id (find p ls).
Proof.
  intros Hp Hid. induction ls as [|l ls IH]; simpl; [reflexivity|].
  rewrite Hp. destruct (p l); [simpl; rewrite Hid; reflexivity|exact IH].
Qed.

Lemma lot_of_updated code d i u st :
  lot_of code d (updated i u st) = lot_of code d st.
Proof.
  unfold lot_of. rewrite lots_updated. apply find_map_identity.
  - intros l. destruct (lot_id l =? i)%Z; reflexivity.
  - intros l. destruct (lot_id l =? i)%Z; reflexivity.
Qed.

Lemma lot_of_new_lot code d code' d' st i :
  lot_of code d st = Some i -> lot_of code d (with_new_lot code' d' st) = Some i.
Proof.
  unfold lot_of. simpl. rewrite find_append.
  destruct (find (Lot.same_key code d) (lots st)); [auto|discriminate].
Qed.

Lemma lot_of_created code d st :
  lot_of code d st = None ->
  lot_of code d (with_new_lot code d st) = Some (lots_id_seq st).
Proof.
  unfold lot_of. simpl. rewrite find_append.
  destruct (find (Lot.same_key code d) (lots st)); [discriminate|].
  intros _. simpl.
  assert (H : Lot.same_key code d (new_lot code d st) = true)
    by (apply same_key_spec; split; reflexivity).
  rewrite H. reflexivity.
Qed.

Section Resolved.

Variables (code : string) (d : date) (id : Z).
Variable Date_parse : string -> option string.
Variable config : dataSources.

Ltac resolved_case :=
  intros;
  first
    [ assumption
    | match goal with
      | H : resolved _ _ _ _ |- _ =>
          destruct H as [? ?]; split;
          [ first [ apply ids_fresh_sequence | apply ids_fresh_new_lot
                  | apply ids_fresh_updated ]; assumption
          | first [ assumption | apply lot_of_new_lot; assumption
                  | rewrite lot_of_updated; assumption ] ]
      end ].

Lemma ingestProductionLogs_keeps_resolved records now :
  keeps (resolved code d id)
    (ingestProductionLogs Date_parse config records now).
Proof. apply ingestProductionLogs_keeps; resolved_case. Qed.

Lemma ingestQualityLogs_keeps_resolved records now :
  keeps (resolved code d id)
    (ingestQualityLogs Date_parse config records now).
Proof. apply ingestQualityLogs_keeps; resolved_case. Qed.

Lemma rest_of_production_row_keeps_resolved i line shift planned actual
    downtime issue :
  keeps (resolved code d id)
    (ProductionRecord.create i line shift planned actual downtime issue ;;;
     ret Ingested).
Proof.
  apply keeps_bind; [|intros r; apply keeps_ret].
  apply production_create_keeps. resolved_case.
Qed.

Lemma rest_of_quality_row_keeps_resolved i dateText pass dtype count
    inspector u :
  keeps (resolved code d id)
    (QualityInspectionRecord.create i dateText pass dtype count inspector ;;;
     Lot.update i u ;;; ret Ingested).
Proof.
  apply keeps_bind; [apply quality_create_keeps; resolved_case|intros r].
  apply keeps_bind; [|intros o; apply keeps_ret].
  intros st H. destruct (update_returns i u st) as [o ->].
  destruct H as [F L]. split;
    [apply ids_fresh_updated; exact F|rewrite lot_of_updated; exact L].
Qed.

Lemma upsert_keeps_resolved sourceName location format status now :
  keeps (resolved code d id)
    (DataSourceMetadata.upsert sourceName location format status now).
Proof. apply upsert_keeps. resolved_case. Qed.

End Resolved.

Lemma triple_after {A} (P Q : store -> Prop) (m : M A) st :
  triple P m (fun _ => Q) Q -> P st -> Q (after m st).
Proof.
  intros Hm H. specialize (Hm st H). unfold after.
  destruct (m st) as [[a|e] st']; exact Hm.
Qed.

(** A batch of one row. *)
Lemma ingest_one (P R : store -> Prop) sourceName path format status body
    record now :
  triple P (body record) (fun _ => R) R ->
  (forall text, keeps R (DataSourceMetadata.upsert sourceName path format
                           text now)) ->
  triple P (ingest sourceName path format status body [record] now)
    (fun _ => R) R.
Proof.
  intros Hbody Hupsert. unfold ingest. simpl.
  eapply triple_bind with (R := fun _ => R).
  - eapply triple_bind with (R := fun _ => R); [|intros r; apply keeps_ret].
    eapply triple_try_catch with (E' := R); [|intros e; apply keeps_ret].
    eapply triple_bind; [exact Hbody|]. intros e. apply keeps_ret.
  - intros r. apply keeps_try_catch; [|intros e; apply keeps_ret].
    apply keeps_bind; [apply Hupsert|intros m; apply keeps_ret].
Qed.

Lemma create_new_lot code dateText d st :
  date_in dateText = Some d -> (length code <= 50)%nat ->
  ids_fresh st -> lot_of code d st = None ->
  Lot.create code dateText st
  = (Ok (new_lot code d st), with_new_lot code d st).
Proof.
  intros Hd Hlen Hfresh Hnone. unfold Lot.create. rewrite Hd.
  apply Nat.leb_le in Hlen. rewrite Nat.ltb_antisym, Hlen. simpl.
  unfold lot_of in Hnone.
  destruct (find (Lot.same_key code d) (lots st)); [discriminate|].
  rewrite (ids_fresh_no_lot st Hfresh). reflexivity.
Qed.

Lemma date_text_not_empty dateText d :
  date_in dateText = Some d -> (dateText =? "") = false.
Proof.
  intros H. destruct (dateText =? "") eqn:E; [|reflexivity].
  apply String.eqb_eq in E. subst. discriminate.
Qed.

Lemma key_not_missing v code dateText d :
  cleanLotCode v = Ok code -> date_in dateText = Some d ->
  missing_key code (Some dateText) = false.
Proof.
  intros Hc Hd. rewrite (missing_key_is_missing_date v) by exact Hc.
  apply (date_text_not_empty dateText d Hd).
Qed.

Section FirstReference.

Variable Date_parse : string -> option string.
Variable config : dataSources.
Variables (code dateText : string) (d : date) (st : store).

Hypothesis date_read : date_in dateText = Some d.
Hypothesis code_fits : (length code <= 50)%nat.
Hypothesis fresh : ids_fresh st.
Hypothesis unknown : lot_of code d st = None.

Lemma created_is_resolved :
  resolved code d (lots_id_seq st) (with_new_lot code d st).
Proof.
  split; [apply ids_fresh_new_lot; exact fresh|].
  apply lot_of_created. exact unknown.
Qed.

Lemma production_row_creates record :
  production_key Date_parse record = (Ok code, Ok (Some dateText)) ->
  triple (eq st) (production_row Date_parse record) (fun _ => resolved code d (lots_id_seq st))
    (resolved code d (lots_id_seq st)).
Proof.
  intros Hkey. unfold production_key in Hkey. injection Hkey as Hc Hdate.
  intros st0 <-. unfold production_row. rewrite Hc, Hdate.
  cbn [lift_js]. unfold bind at 1 2. cbn [ret].
  rewrite (key_not_missing _ _ _ _ Hc date_read).
  unfold bind at 1. cbn [the_date].
  rewrite (create_new_lot _ _ _ _ date_read code_fits fresh unknown).
  apply (rest_of_production_row_keeps_resolved code d (lots_id_seq st)).
  exact created_is_resolved.
Qed.

Lemma quality_row_creates record :
  quality_key Date_parse record = (Ok code, Ok (Some dateText)) ->
  triple (eq st) (quality_row Date_parse record) (fun _ => resolved code d (lots_id_seq st))
    (resolved code d (lots_id_seq st)).
Proof.
  intros Hkey. unfold quality_key in Hkey. injection Hkey as Hc Hdate.
  intros st0 <-. unfold quality_row. rewrite Hc, Hdate.
  cbn [lift_js]. unfold bind at 1 2. cbn [ret].
  rewrite (key_not_missing _ _ _ _ Hc date_read).
  unfold bind at 1. cbn [the_date].
  unfold Lot.findByCompositeKey. rewrite date_read.
  assert (Hfind : find (Lot.same_key code d) (lots st) = None).
  { pose proof unknown as H. unfold lot_of in H.
    destruct (find _ (lots st)); [discriminate|reflexivity]. }
  rewrite Hfind. unfold bind at 1.
  rewrite (create_new_lot _ _ _ _ date_read code_fits fresh unknown).
  apply (rest_of_quality_row_keeps_resolved code d (lots_id_seq st)).
  exact created_is_resolved.
Qed.

Lemma production_first record now :
  production_key Date_parse record = (Ok code, Ok (Some dateText)) ->
  resolved code d (lots_id_seq st)
    (after (ingestProductionLogs Date_parse config [record] now) st).
Proof.
  intros Hkey. apply (triple_after (eq st)); [|reflexivity].
  apply ingest_one; [apply production_row_creates; exact Hkey|].
  intros text. apply upsert_keeps_resolved.
Qed.

Lemma quality_first record now :
  quality_key Date_parse record = (Ok code, Ok (Some dateText)) ->
  resolved code d (lots_id_seq st)
    (after (ingestQualityLogs Date_parse config [record] now) st).
Proof.
  intros Hkey. apply (triple_after (eq st)); [|reflexivity].
  apply ingest_one; [apply quality_row_creates; exact Hkey|].
  intros text. apply upsert_keeps_resolved.
Qed.

End FirstReference.

(** C9: for a quality row and a production row of one composite key, the
    first of the two that is ingested finds or creates the lot of the key,
    whichever it is: after the quality row alone, and after the production
    row alone, the key has a lot, with the id the lot already had or, when
    the key was unknown, the next value of the sequence.  The second row
    finds that lot: in both orders the lot of the key still has that
    id after the two rows. *)
Theorem lot_identity_is_order_independent :
  forall Date_parse config st quality production now1 now2
         code qualityDate productionDate d,
    ids_fresh st ->
    quality_key Date_parse quality = (Ok code, Ok (Some qualityDate)) ->
    production_key Date_parse production
    = (Ok code, Ok (Some productionDate)) ->
    date_in qualityDate = Some d ->
    date_in productionDate = Some d ->
    (length code <= 50)%nat ->
    let quality_only :=
      after (ingestQualityLogs Date_parse config [quality] now1) st in
    let production_only :=
      after (ingestProductionLogs Date_parse config [production] now1) st in
    let quality_then_production :=
      after (ingestProductionLogs Date_parse config [production] now2)
        quality_only in
    let production_then_quality :=
      after (ingestQualityLogs Date_parse config [quality] now2)
        production_only in
    let id :=
      match lot_of code d st with
      | Some i => i
      | None => lots_id_seq st
      end in
    lot_of code d quality_only = Some id
    /\ lot_of code d production_only = Some id
    /\ lot_of code d quality_then_production = Some id
    /\ lot_of code d production_then_quality = Some id.
Proof.
  intros P config st rq rp now1 now2 code tq tp d
    Hfresh Hq Hp Hdq Hdp Hlen quality_only production_only
    quality_then_production production_then_quality id.
  assert (Hquality : resolved code d id quality_only).
  { subst id quality_only. destruct (lot_of code d st) as [i|] eqn:Hlot.
    - apply keeps_after; [apply ingestQualityLogs_keeps_resolved|].
      split; assumption.
    - apply (quality_first P config code tq d st); assumption. }
  assert (Hproduction : resolved code d id production_only).
  { subst id production_only. destruct (lot_of code d st) as [i|] eqn:Hlot.
    - apply keeps_after; [apply ingestProductionLogs_keeps_resolved|].
      split; assumption.
    - apply (production_first P config code tp d st); assumption. }
  split; [exact (proj2 Hquality)|]. split; [exact (proj2 Hproduction)|].
  split.
  - refine (proj2 (_ : resolved code d id _)).
    apply keeps_after; [apply ingestProductionLogs_keeps_resolved|].
    exact Hquality.
  - refine (proj2 (_ : resolved code d id _)).
    apply keeps_after; [apply ingestQualityLogs_keeps_resolved|].
    exact Hproduction.
Qed.

Lemma lot_identity_is_order_independent_witness :
  ids_fresh Db.empty
  /\ quality_key no_parser quality_LOT7 = (Ok "LOT-7", Ok (Some "2026-02-10"))
  /\ production_key no_parser production_LOT7
     = (Ok "LOT-7", Ok (Some "2026-02-10"))
  /\ date_in "2026-02-10" = Some (day 2026 2 10)
  /\ (length "LOT-7" <= 50)%nat
  /\ lot_of "LOT-7" (day 2026 2 10)
       (after (ingestQualityLogs no_parser default_config
                 [quality_LOT7] 1) Db.empty)
     = Some 1%Z
  /\ lot_of "LOT-7" (day 2026 2 10)
       (after (ingestProductionLogs no_parser default_config
                 [production_LOT7] 1) Db.empty)
     = Some 1%Z
  /\ lot_of "LOT-7" (day 2026 2 10)
       (after (ingestProductionLogs no_parser default_config
                 [production_LOT7] 2)
          (after (ingestQualityLogs no_parser default_config
                    [quality_LOT7] 1) Db.empty))
     = Some 1%Z
  /\ lot_of "LOT-7" (day 2026 2 10)
       (after (ingestQualityLogs no_parser default_config
                 [quality_LOT7] 2)
          (after (ingestProductionLogs no_parser default_config
                    [production_LOT7] 1) Db.empty))
     = Some 1%Z.
Proof.
  assert (F : ids_fresh Db.empty)
    by (split; [intros l []|constructor]).
  split; [exact F|].
  split; [reflexivity|]. split; [reflexivity|]. split; [reflexivity|].
  split; [simpl; lia|].
  apply (lot_identity_is_order_independent no_parser default_config Db.empty
           quality_LOT7 production_LOT7 1 2 "LOT-7" "2026-02-10" "2026-02-10"
           (day 2026 2 10));
    [exact F|reflexivity|reflexivity|reflexivity|reflexivity|simpl; lia].
Defined.

Example both_orders_give_lot_1 :
  lot_of "LOT-7" (day 2026 2 10)
    (run_pipeline no_parser default_config
       [IngestQuality [quality_LOT7] 1; IngestProduction [production_LOT7] 2])
  = Some 1%Z
  /\ lot_of "LOT-7" (day 2026 2 10)
       (run_pipeline no_parser default_config
          [IngestProduction [production_LOT7] 1; IngestQuality [quality_LOT7] 2])
     = Some 1%Z.
Proof. split; vm_compute; reflexivity. Qed.

(* ================================================================== *)
(** * Further properties of the code *)
(* ================================================================== *)

(** ** Field Normalizer: [trimString] *)

Lemma trim_start_fixed s : starts_with_ws s = false -> trim_start s = s.
Proof. destruct s as [|c s]; simpl; [reflexivity|]. intros ->. reflexivity. Qed.

Lemma trim_start_no_ws s : starts_with_ws (trim_start s) = false.
Proof.
  induction s as [|c s IH]; simpl; [reflexivity|].
  destruct (is_ws c) eqn:E; [exact IH|]. simpl. exact E.
Qed.

Lemma trim_end_no_ws s :
  starts_with_ws s = false -> starts_with_ws (trim_end s) = false.
Proof.
  destruct s as [|c s]; simpl; [reflexivity|].
  intros E. rewrite E. simpl. exact E.
Qed.

Lemma trim_end_idempotent s : trim_end (trim_end s) = trim_end s.
Proof.
  induction s as [|c s IH]; simpl; [reflexivity|].
  destruct (is_ws c && (trim_end s =? "")) eqn:E; [reflexivity|].
  simpl. rewrite IH, E. reflexivity.
Qed.

Lemma trim_idempotent s : trim (trim s) = trim s.
Proof.
  unfold trim.
  rewrite (trim_start_fixed (trim_end (trim_start s)))
    by apply trim_end_no_ws, trim_start_no_ws.
  apply trim_end_idempotent.
Qed.

Lemma trim_start_split s :
  exists before, s = before ++ trim_start s /\ every is_ws before = true.
Proof.
  induction s as [|c s IH]; [exists ""; auto|].
  simpl. destruct (is_ws c) eqn:E.
  - destruct IH as (before & Hs & Hw). exists (String c before).
    simpl. rewrite E, Hw, <- Hs. auto.
  - exists "". auto.
Qed.

Lemma trim_end_split s :
  exists behind, s = trim_end s ++ behind /\ every is_ws behind = true.
Proof.
  induction s as [|c s IH]; [exists ""; auto|].
  destruct IH as (behind & Hs & Hw). simpl.
  destruct (is_ws c && (trim_end s =? "")) eqn:E.
  - apply andb_true_iff in E. destruct E as [Hc He].
    apply String.eqb_eq in He. rewrite He in Hs. simpl in Hs.
    exists (String c s). simpl. rewrite Hc, Hs, Hw. auto.
  - exists behind. simpl. rewrite <- Hs. auto.
Qed.

(** X1: a value that is not a string passes through [trimString]
    untouched.  A string is white space, then the result, then white space,
    and the result has no white space at either end; so trimming is
    idempotent on every value. *)
Theorem trimString_idempotent :
  forall v,
    trimString (trimString v) = trimString v
    /\ match v with
       | VStr s =>
           exists before t behind,
             s = before ++ t ++ behind
             /\ every is_ws before = true
             /\ every is_ws behind = true
             /\ starts_with_ws t = false
             /\ trim_end t = t
             /\ trimString v = VStr t
       | _ => trimString v = v
       end.
Proof.
  destruct v; try (split; reflexivity).
  split; [simpl; rewrite trim_idempotent; reflexivity|].
  destruct (trim_start_split s) as (before & Hs & Hb).
  destruct (trim_end_split (trim_start s)) as (behind & Ht & He).
  exists before, (trim s), behind. unfold trim.
  split; [rewrite <- Ht; exact Hs|].
  split; [exact Hb|]. split; [exact He|].
  split; [apply trim_end_no_ws, trim_start_no_ws|].
  split; [apply trim_end_idempotent|reflexivity].
Qed.

(** ** Field Normalizer: [removeLeadingZeros] and [cleanLotCode] *)

Lemma starts_with_zero_spec s :
  starts_with_zero s = true <-> exists s', s = String "0" s'.
Proof.
  destruct s as [|c s]; simpl.
  - split; [discriminate|intros [s' H]; discriminate].
  - rewrite Ascii.eqb_eq. split.
    + intros ->. eauto.
    + intros [s' [= -> _]]. reflexivity.
Qed.

Lemma strip_zeros_cons_zero s : strip_zeros (String "0" s) = strip_zeros s.
Proof. reflexivity. Qed.

Lemma strip_zeros_other s :
  starts_with_zero s = false -> strip_zeros s = s.
Proof.
  destruct s as [|c s]; [reflexivity|].
  destruct c as [[] [] [] [] [] [] [] []]; try reflexivity. discriminate.
Qed.

Lemma strip_zeros_no_zero s : starts_with_zero (strip_zeros s) = false.
Proof.
  induction s as [|c s IH]; [reflexivity|].
  destruct (starts_with_zero (String c s)) eqn:E.
  - apply starts_with_zero_spec in E. destruct E as [s' [= -> ->]].
    rewrite strip_zeros_cons_zero. exact IH.
  - rewrite strip_zeros_other by exact E. exact E.
Qed.

Lemma removeLeadingZeros_zero s :
  removeLeadingZeros (VStr (String "0" s))
  = VStr (if starts_with_digit (strip_zeros s) then strip_zeros s
          else String "0" (strip_zeros s)).
Proof. reflexivity. Qed.

Lemma removeLeadingZeros_other s :
  starts_with_zero s = false -> removeLeadingZeros (VStr s) = VStr s.
Proof.
  destruct s as [|c s]; [reflexivity|].
  destruct c as [[] [] [] [] [] [] [] []]; try reflexivity. discriminate.
Qed.

Lemma strip_zeros_split s :
  exists zeros, s = zeros ++ strip_zeros s /\ every is_zero zeros = true.
Proof.
  induction s as [|c s IH]; [exists ""; auto|].
  destruct (starts_with_zero (String c s)) eqn:E.
  - apply starts_with_zero_spec in E. destruct E as [s' [= -> ->]].
    destruct IH as (zeros & Hs & Hz). exists (String "0" zeros).
    rewrite strip_zeros_cons_zero. simpl. rewrite Hz, <- Hs. auto.
  - exists "". rewrite strip_zeros_other by exact E. auto.
Qed.

Lemma strip_zeros_of_zeros s : every is_zero s = true -> strip_zeros s = "".
Proof.
  induction s as [|c s IH]; [reflexivity|]. simpl every. intros H.
  apply andb_true_iff in H. destruct H as [Hc Hs].
  apply Ascii.eqb_eq in Hc. subst c. rewrite strip_zeros_cons_zero. auto.
Qed.

(** X2: a value that is not a string passes through [removeLeadingZeros]
    untouched.  A string is its leading zeros and a rest that does not
    begin with a zero: the result is the rest when the rest begins with a
    digit or there was no zero, and one zero followed by the rest
    otherwise.  So a string of zeros becomes "0", only the empty string
    gives the empty string, and removing leading zeros is idempotent. *)
Theorem removeLeadingZeros_idempotent :
  forall v,
    removeLeadingZeros (removeLeadingZeros v) = removeLeadingZeros v
    /\ (removeLeadingZeros v = VStr "" -> v = VStr "")
    /\ match v with
       | VStr s =>
           (s <> "" -> every is_zero s = true ->
            removeLeadingZeros v = VStr "0")
           /\ exists zeros rest,
                s = zeros ++ rest
                /\ every is_zero zeros = true
                /\ starts_with_zero rest = false
                /\ removeLeadingZeros v
                   = VStr (if starts_with_digit rest || (zeros =? "")
                           then rest else "0" ++ rest)
       | _ => removeLeadingZeros v = v
       end.
Proof.
  destruct v; try (split; [reflexivity|split; [auto|reflexivity]]).
  destruct (starts_with_zero s) eqn:E.
  - apply starts_with_zero_spec in E. destruct E as [s' ->].
    rewrite removeLeadingZeros_zero.
    split; [|split; [|split]].
    + destruct (starts_with_digit (strip_zeros s')) eqn:D.
      * apply removeLeadingZeros_other, strip_zeros_no_zero.
      * rewrite removeLeadingZeros_zero, strip_zeros_idempotent, D.
        reflexivity.
    + destruct (starts_with_digit (strip_zeros s')) eqn:D;
        [|discriminate].
      intros [= H]. rewrite H in D. discriminate.
    + intros _ H. simpl in H.
      rewrite (strip_zeros_of_zeros s' H). reflexivity.
    + destruct (strip_zeros_split s') as (zeros & Hs & Hz).
      exists (String "0" zeros), (strip_zeros s').
      split; [simpl; rewrite <- Hs; reflexivity|].
      split; [simpl; exact Hz|].
      split; [apply strip_zeros_no_zero|].
      simpl. rewrite orb_false_r. reflexivity.
  - rewrite removeLeadingZeros_other by exact E.
    split; [apply removeLeadingZeros_other; exact E|].
    split; [auto|]. split.
    + intros Hne H. destruct s as [|c s]; [congruence|].
      simpl in H, E. unfold is_zero in H. rewrite E in H. discriminate.
    + exists "", s. simpl. rewrite orb_true_r. auto.
Qed.

Lemma digit_not_ws c : is_digit c = true -> is_ws c = false.
Proof.
  unfold is_digit, is_ws. generalize (nat_of_ascii c). intros n H.
  apply andb_true_iff in H. destruct H as [H1 H2].
  apply Nat.leb_le in H1. apply Nat.leb_le in H2.
  apply orb_false_iff. split; [apply orb_false_iff; split|].
  - apply andb_false_iff. right. apply Nat.leb_gt. lia.
  - apply Nat.eqb_neq. lia.
  - apply Nat.eqb_neq. lia.
Qed.

Lemma parseInt_string_zero s :
  parseInt_string (String "0" s) = NInt (decimal_value 0 (digits_prefix s)).
Proof. reflexivity. Qed.

Lemma parseInt_string_digit s :
  starts_with_digit s = true ->
  parseInt_string s = NInt (decimal_value 0 (digits_prefix s)).
Proof.
  destruct s as [|c s]; [discriminate|]. simpl. intros D.
  unfold parseInt_string. simpl. rewrite (digit_not_ws c D).
  destruct c as [[] [] [] [] [] [] [] []]; try discriminate; reflexivity.
Qed.

Lemma decimal_value_strip_zeros s :
  decimal_value 0 (digits_prefix (strip_zeros s))
  = decimal_value 0 (digits_prefix s).
Proof.
  induction s as [|c s IH]; [reflexivity|].
  destruct (starts_with_zero (String c s)) eqn:E.
  - apply starts_with_zero_spec in E. destruct E as [s' [= -> ->]].
    rewrite strip_zeros_cons_zero. exact IH.
  - rewrite strip_zeros_other by exact E. reflexivity.
Qed.

Lemma digits_prefix_no_digit s :
  starts_with_digit s = false -> digits_prefix s = "".
Proof. destruct s as [|c s]; simpl; [reflexivity|]. intros ->. reflexivity. Qed.

(** X3: removing leading zeros never changes the integer that [toInteger]
    reads from a string. *)
Theorem toInteger_removeLeadingZeros :
  forall s defaultValue,
    toInteger (removeLeadingZeros (VStr s)) defaultValue
    = toInteger (VStr s) defaultValue.
Proof.
  intros s d. destruct (starts_with_zero s) eqn:E.
  2:{ rewrite removeLeadingZeros_other by exact E. reflexivity. }
  apply starts_with_zero_spec in E. destruct E as [s' ->].
  rewrite removeLeadingZeros_zero. unfold toInteger, parseInt.
  rewrite parseInt_string_zero, <- decimal_value_strip_zeros.
  destruct (starts_with_digit (strip_zeros s')) eqn:D.
  - rewrite (parseInt_string_digit _ D). reflexivity.
  - rewrite parseInt_string_zero. reflexivity.
Qed.

Lemma trim_end_strip_zeros s :
  trim_end s = s -> trim_end (strip_zeros s) = strip_zeros s.
Proof.
  induction s as [|c s IH]; [reflexivity|].
  destruct (starts_with_zero (String c s)) eqn:E.
  - apply starts_with_zero_spec in E. destruct E as [s' [= -> ->]].
    rewrite strip_zeros_cons_zero. intros H. apply IH.
    simpl in H. injection H as H. exact H.
  - rewrite strip_zeros_other by exact E. auto.
Qed.

(** X4: a cleaned lot code is never empty, begins with a zero only when it
    is the code "0", and has no white space at its end.  (It may begin
    with white space: the zeros are removed after the trimming.) *)
Theorem cleanLotCode_shape :
  forall s,
    exists code,
      cleanLotCode (VStr s) = Ok code
      /\ code <> ""
      /\ (code = "0" \/ starts_with_zero code = false)
      /\ trim_end code = code.
Proof.
  intros s. unfold cleanLotCode. simpl.
  destruct (strip_zeros (trim s) =? "") eqn:E.
  - exists "0". repeat split; [discriminate|auto].
  - exists (strip_zeros (trim s)). repeat split.
    + intros H. rewrite H in E. discriminate.
    + right. apply strip_zeros_no_zero.
    + apply trim_end_strip_zeros. unfold trim. apply trim_end_idempotent.
Qed.

Example cleanLotCode_keeps_inner_space :
  cleanLotCode (VStr "0 7") = Ok " 7".
Proof. reflexivity. Qed.

(** ** Field Normalizer: [standardizeDate] *)

Lemma split_not_nil sep s : split sep s <> [].
Proof.
  destruct s as [|c s]; simpl; [discriminate|].
  destruct (Ascii.eqb c sep); [discriminate|].
  destruct (split sep s); discriminate.
Qed.

Lemma digit_not_sep sep c :
  is_digit sep = false -> is_digit c = true -> Ascii.eqb c sep = false.
Proof.
  intros Hs Hc. destruct (Ascii.eqb c sep) eqn:E; [|reflexivity].
  apply Ascii.eqb_eq in E. congruence.
Qed.

Lemma split_all_digits sep s :
  is_digit sep = false -> all_digits s = true -> split sep s = [s].
Proof.
  intros Hs. induction s as [|c s IH]; simpl; [reflexivity|].
  intros H. apply andb_true_iff in H. destruct H as [Hc H].
  rewrite (digit_not_sep sep c Hs Hc), (IH H). reflexivity.
Qed.

Lemma split_digits_then sep a rest :
  is_digit sep = false -> all_digits a = true ->
  split sep (a ++ String sep rest) = a :: split sep rest.
Proof.
  intros Hs. induction a as [|c a IH]; simpl.
  - intros _. rewrite Ascii.eqb_refl. reflexivity.
  - intros H. apply andb_true_iff in H. destruct H as [Hc H].
    rewrite (digit_not_sep sep c Hs Hc), (IH H). reflexivity.
Qed.

Lemma split_digits_or sep s :
  Forall (fun p => all_digits p = true) (split sep s) ->
  digits_or sep s = true.
Proof.
  induction s as [|c s IH]; simpl; [reflexivity|].
  destruct (Ascii.eqb c sep) eqn:E.
  - intros H. inversion H; subst. rewrite orb_true_r. simpl. auto.
  - destruct (split sep s) as [|h t] eqn:Hsplit.
    + exfalso. exact (split_not_nil sep s Hsplit).
    + intros H. inversion H as [|x l Hh Ht]; subst. simpl in Hh.
      apply andb_true_iff in Hh. destruct Hh as [Hc Hh].
      rewrite Hc. simpl. apply IH. constructor; assumption.
Qed.

Lemma is_iso_date_chars t : is_iso_date t = true -> digits_or "-" t = true.
Proof.
  unfold is_iso_date. intros H. apply split_digits_or.
  destruct (split "-" t) as [|y [|m [|d [|x l]]]]; try discriminate.
  repeat (apply andb_true_iff in H; destruct H as [H ?]).
  repeat constructor; assumption.
Qed.

Lemma digits_or_no_ws sep c :
  is_ws sep = false -> is_digit c || Ascii.eqb c sep = true -> is_ws c = false.
Proof.
  intros Hs H. apply orb_true_iff in H. destruct H as [H|H].
  - apply digit_not_ws. exact H.
  - apply Ascii.eqb_eq in H. subst. exact Hs.
Qed.

Lemma trim_digits_or sep s :
  is_ws sep = false -> digits_or sep s = true -> trim s = s.
Proof.
  intros Hs H. unfold trim.
  assert (Hstart : trim_start s = s).
  { destruct s as [|c s]; [reflexivity|]. simpl in *.
    apply andb_true_iff in H. destruct H as [H _].
    rewrite (digits_or_no_ws sep c Hs H). reflexivity. }
  rewrite Hstart. clear Hstart.
  induction s as [|c s IH]; simpl in *; [reflexivity|].
  apply andb_true_iff in H. destruct H as [Hc H].
  rewrite (digits_or_no_ws sep c Hs Hc), (IH H). reflexivity.
Qed.

Lemma standardizeDate_of_iso_date Date_parse t :
  is_iso_date t = true -> standardizeDate Date_parse (VStr t) = Ok (Some t).
Proof.
  intros H. unfold standardizeDate.
  assert (Ht : trim t = t)
    by (apply (trim_digits_or "-"); [reflexivity|apply is_iso_date_chars, H]).
  rewrite Ht, H. destruct t; [discriminate|reflexivity].
Qed.

Lemma padStart2_digits s :
  one_or_two_digits s = true ->
  (length (padStart2 s) =? 2)%nat && all_digits (padStart2 s) = true.
Proof.
  unfold one_or_two_digits, padStart2. intros H.
  apply andb_true_iff in H. destruct H as [Hl Hd].
  destruct s as [|a [|b [|c s]]]; try discriminate; simpl in *; exact Hd.
Qed.

Lemma month_first_is_iso_date month day year :
  one_or_two_digits month = true -> one_or_two_digits day = true ->
  (length year =? 4)%nat = true -> all_digits year = true ->
  is_iso_date (year ++ "-" ++ padStart2 month ++ "-" ++ padStart2 day) = true.
Proof.
  intros Hm Hd Hl Hy.
  apply padStart2_digits in Hm. apply padStart2_digits in Hd.
  apply andb_true_iff in Hm. destruct Hm as [Hm1 Hm2].
  apply andb_true_iff in Hd. destruct Hd as [Hd1 Hd2].
  unfold is_iso_date.
  change (year ++ "-" ++ padStart2 month ++ "-" ++ padStart2 day)
    with (year ++ String "-" (padStart2 month ++ String "-" (padStart2 day))).
  rewrite (split_digits_then "-" year) by (reflexivity || assumption).
  rewrite (split_digits_then "-" (padStart2 month))
    by (reflexivity || assumption).
  rewrite (split_all_digits "-" (padStart2 day))
    by (reflexivity || assumption).
  rewrite Hl, Hy, Hm1, Hm2, Hd1, Hd2. reflexivity.
Qed.

(** X5: on a string, [standardizeDate] never throws; what it returns is
    [null] or a text of the form YYYY-MM-DD, and that text is a fixed
    point: canonicalizing it again gives it back. *)
Theorem standardizeDate_canonical :
  forall Date_parse s,
    exists result,
      standardizeDate Date_parse (VStr s) = Ok result
      /\ forall t, result = Some t ->
           is_iso_date t = true
           /\ standardizeDate Date_parse (VStr t) = Ok (Some t).
Proof.
  intros P s. unfold standardizeDate at 1.
  destruct (negb (truthy (VStr s))); [exists None; split; [auto|discriminate]|].
  destruct (is_iso_date (trim s)) eqn:Hiso.
  { exists (Some (trim s)). split; [reflexivity|]. intros t [= <-].
    split; [exact Hiso|apply standardizeDate_of_iso_date, Hiso]. }
  destruct (is_slash_date (trim s)) eqn:Hslash;
    [|exists None; split; [auto|discriminate]].
  unfold is_slash_date in Hslash.
  destruct (split "/" (trim s)) as [|m [|d [|y [|x l]]]]; try discriminate.
  do 3 (apply andb_true_iff in Hslash; destruct Hslash as [Hslash ?]).
  eexists. split; [reflexivity|]. intros t [= <-].
  assert (H' : is_iso_date (y ++ "-" ++ padStart2 m ++ "-" ++ padStart2 d)
               = true)
    by (apply month_first_is_iso_date; assumption).
  split; [exact H'|apply standardizeDate_of_iso_date, H'].
Qed.

(** The month and the day are not checked: the text may name no day of the
    calendar, and the database then refuses it. *)
Example standardizeDate_accepts_month_13 :
  standardizeDate no_parser (VStr "13/45/2026") = Ok (Some "2026-13-45")
  /\ date_in "2026-13-45" = None.
Proof. split; reflexivity. Qed.

(** ** Repository layer: lots *)

Lemma created_lot_is_stored code dateText st l st' :
  Lot.create code dateText st = (Ok l, st') ->
  exists d,
    date_in dateText = Some d
    /\ (50 <? length code)%nat = false
    /\ find (Lot.same_key code d) (lots st') = Some l.
Proof.
  unfold Lot.create.
  destruct (date_in dateText) as [d|]; [|discriminate].
  destruct (50 <? length code)%nat; [discriminate|].
  destruct (find (Lot.same_key code d) (lots st)) as [l0|] eqn:Hfind.
  - intros [= <- <-]. exists d. auto.
  - destruct (lot_exists (lots_id_seq st) st); [discriminate|].
    intros [= <- <-]. exists d. split; [reflexivity|]. split; [reflexivity|].
    simpl. rewrite find_append, Hfind. simpl.
    assert (H : Lot.same_key code d (mkLot (lots_id_seq st) code d true false
                                       false) = true)
      by (apply same_key_spec; split; reflexivity).
    rewrite H. reflexivity.
Qed.



(** X7: [Lot.create] is an upsert: created again for the same code and
    date, the lot that comes back is the same one, no lot is added and no
    column of any lot is reset; only the sequence of ids moves on. *)
Theorem create_again_returns_the_lot :
  forall lotCode productionDate st,
    match Lot.create lotCode productionDate st with
    | (Ok l, st') =>
        Lot.create lotCode productionDate st'
        = (Ok l, set_lots_id_seq (lots_id_seq st' + 1) st')
    | (Throw _, _) => True
    end.
Proof.
  intros code t st.
  destruct (Lot.create code t st) as [[l|e] st'] eqn:Hc; [|exact I].
  destruct (created_lot_is_stored code t st l st' Hc) as (d & Hd & Hlen & H).
  unfold Lot.create. rewrite Hd, Hlen, H. reflexivity.
Qed.

(** ** Repository layer: flags *)

Lemma two_matches {A} (p : A -> bool) l a b :
  In a l -> In b l -> a <> b -> p a = true -> p b = true ->
  (2 <= List.length (filter p l))%nat.
Proof.
  induction l as [|x l IH]; simpl; [tauto|].
  intros Ha Hb Hab Hpa Hpb.
  destruct Ha as [->|Ha], Hb as [->|Hb].
  - contradiction.
  - rewrite Hpa. simpl.
    assert (In b (filter p l)) by (apply filter_In; auto).
    destruct (filter p l); [contradiction|simpl; lia].
  - rewrite Hpb. simpl.
    assert (In a (filter p l)) by (apply filter_In; auto).
    destruct (filter p l); [contradiction|simpl; lia].
  - specialize (IH Ha Hb Hab Hpa Hpb).
    destruct (p x); simpl; lia.
Qed.

Lemma matches_resolve lotId flagType f :
  DataIntegrityFlag.matches lotId flagType (DataIntegrityFlag.resolve f)
  = false.
Proof.
  unfold DataIntegrityFlag.matches. simpl. apply andb_false_r.
Qed.

Lemma markResolved_count flagId lotId flagType st :
  (unresolved_count lotId flagType
     (after (DataIntegrityFlag.markResolved flagId) st)
   <= unresolved_count lotId flagType st)%nat.
Proof.
  unfold unresolved_count, after. simpl.
  induction (data_integrity_flags st) as [|f l IH]; simpl; [lia|].
  destruct (flag_id f =? flagId)%Z.
  - rewrite matches_resolve.
    destruct (DataIntegrityFlag.matches lotId flagType f); simpl; lia.
  - destruct (DataIntegrityFlag.matches lotId flagType f); simpl; lia.
Qed.

(** X8: in a database with at most one unresolved flag of a type for a
    lot, once the flag that [findExisting] returns has been marked resolved,
    [findExisting] returns [null] for that lot and type; and marking a flag
    resolved keeps the at-most-one invariant. *)
Theorem markResolved_then_findExisting :
  forall st lotId flagType f,
    at_most_one_unresolved st ->
    returned (DataIntegrityFlag.findExisting lotId flagType) st
    = Ok (Some f) ->
    let st' := after (DataIntegrityFlag.markResolved (flag_id f)) st in
    returned (DataIntegrityFlag.findExisting lotId flagType) st' = Ok None
    /\ at_most_one_unresolved st'.
Proof.
  intros st i t f Hone Hfind st'. split.
  2:{ intros j u. eapply Nat.le_trans; [apply markResolved_count|apply Hone]. }
  unfold returned, DataIntegrityFlag.findExisting in *. simpl in *.
  injection Hfind as Hfind.
  apply find_some in Hfind. destruct Hfind as [Hin Hm].
  f_equal.
  destruct (find _ _) as [g'|] eqn:Hg; [exfalso|reflexivity].
  apply find_some in Hg. destruct Hg as [Hg Hmg].
  apply in_map_iff in Hg. destruct Hg as (g & <- & Hg).
  destruct (flag_id g =? flag_id f)%Z eqn:E.
  - rewrite matches_resolve in Hmg. discriminate.
  - assert (Hne : g <> f).
    { intros ->. rewrite Z.eqb_refl in E. discriminate. }
    pose proof (two_matches _ _ g f Hg Hin Hne Hmg Hm) as H2.
    specialize (Hone i t). unfold unresolved_count in Hone. lia.
Qed.

Lemma markResolved_then_findExisting_witness :
  at_most_one_unresolved one_flag_store
  /\ returned (DataIntegrityFlag.findExisting 1 "Pending Inspection")
       one_flag_store
     = Ok (Some (mkFlag 1 1 "Pending Inspection" "Warning"
                   (PendingText "LOT-9" (day 2026 2 10)) false))
  /\ returned (DataIntegrityFlag.findExisting 1 "Pending Inspection")
       (after (DataIntegrityFlag.markResolved 1) one_flag_store)
     = Ok None
  /\ at_most_one_unresolved
       (after (DataIntegrityFlag.markResolved 1) one_flag_store).
Proof.
  assert (H : at_most_one_unresolved one_flag_store).
  { intros i t. unfold unresolved_count. simpl.
    destruct (DataIntegrityFlag.matches i t _); simpl; lia. }
  split; [exact H|]. split; [reflexivity|].
  apply (markResolved_then_findExisting one_flag_store 1 "Pending Inspection"
           (mkFlag 1 1 "Pending Inspection" "Warning"
              (PendingText "LOT-9" (day 2026 2 10)) false) H).
  reflexivity.
Defined.

(** ** Ingestion: the result summary *)

Lemma each_record_accounts body records :
  forall r st,
    exists r' new st',
      each_record body records r st = (Ok r', st')
      /\ source r' = source r /\ recordsRead r' = recordsRead r
      /\ errors r' = (errors r ++ new)%list
      /\ Forall (fun e => is_row_error e = true) new
      /\ (recordsIngested r' + List.length new
          = recordsIngested r + List.length records)%nat.
Proof.
  induction records as [|record rest IH]; intros r st.
  - exists r, [], st. simpl. rewrite app_nil_r. repeat split; auto.
  - cbn [each_record]. unfold bind, try_catch.
    destruct (body record st) as [[[]|e] st1]; cbn [ret].
    + destruct (IH (push_error (InvalidRow record) r) st1)
        as (r' & new & st' & Hrun & Hs & Hr & He & Hn & Hc).
      exists r', (InvalidRow record :: new), st'. rewrite Hrun. simpl in *.
      rewrite He, <- app_assoc. repeat split; auto. lia.
    + destruct (IH (count_ingested r) st1)
        as (r' & new & st' & Hrun & Hs & Hr & He & Hn & Hc).
      exists r', new, st'. rewrite Hrun. simpl in *.
      repeat split; auto. lia.
    + destruct (IH (push_error (RowError e) r) st1)
        as (r' & new & st' & Hrun & Hs & Hr & He & Hn & Hc).
      exists r', (RowError e :: new), st'. rewrite Hrun. simpl in *.
      rewrite He, <- app_assoc. repeat split; auto. lia.
Qed.

Lemma filter_all {A} (p : A -> bool) l :
  Forall (fun a => p a = true) l -> filter p l = l.
Proof.
  induction 1 as [|a l Ha _ IH]; simpl; [reflexivity|].
  rewrite Ha, IH. reflexivity.
Qed.

Lemma ingest_accounts sourceName path format status body records now st :
  exists r st',
    ingest sourceName path format status body records now st = (Ok r, st')
    /\ accounted sourceName (List.length records) r.
Proof.
  unfold ingest. destruct records as [|record rest].
  - eexists. eexists. split; [reflexivity|]. repeat split. simpl. lia.
  - set (records := record :: rest).
    destruct (each_record_accounts body records
                (mkIngestion sourceName (List.length records) 0 []) st)
      as (r & new & st1 & Hrun & Hs & Hr & He & Hn & Hc).
    unfold bind at 1. rewrite Hrun. simpl in He, Hc, Hs, Hr.
    unfold try_catch, bind.
    destruct (DataSourceMetadata.upsert _ _ _ _ _ _) as [[m|e] st2];
      cbn [ret].
    + exists r, st2. split; [reflexivity|].
      unfold accounted, row_errors. rewrite He, (filter_all _ _ Hn).
      repeat split; auto; lia.
    + eexists. eexists. split; [reflexivity|].
      unfold accounted, row_errors. simpl.
      rewrite He, filter_app, (filter_all _ _ Hn). simpl.
      rewrite app_nil_r, length_app. simpl. repeat split; auto; lia.
Qed.

(** X9: [ingestAllData] never throws.  It returns the three results in the
    order production, quality, shipping, and each accounts for every row
    read exactly once, as ingested or by one row error; the only other
    error a result can hold is the failure of the batch itself. *)
Theorem ingestAllData_accounts_for_every_row :
  forall Date_parse config production quality shipping now st,
    exists r1 r2 r3,
      returned (ingestAllData Date_parse config production quality shipping
                  now) st
      = Ok [r1; r2; r3]
      /\ accounted "Production Logs" (List.length production) r1
      /\ accounted "Quality Inspection" (List.length quality) r2
      /\ accounted "Shipping Logs" (List.length shipping) r3.
Proof.
  intros P config p q s now st.
  unfold returned, ingestAllData, ingestProductionLogs, ingestQualityLogs,
    ingestShippingLogs, bind.
  match goal with
  | |- context [ingest ?n ?pa ?f ?stt ?b p now st] =>
      destruct (ingest_accounts n pa f stt b p now st) as (r1 & s1 & -> & H1)
  end.
  match goal with
  | |- context [ingest ?n ?pa ?f ?stt ?b q now s1] =>
      destruct (ingest_accounts n pa f stt b q now s1) as (r2 & s2 & -> & H2)
  end.
  match goal with
  | |- context [ingest ?n ?pa ?f ?stt ?b s now s2] =>
      destruct (ingest_accounts n pa f stt b s now s2) as (r3 & s3 & -> & H3)
  end.
  exists r1, r2, r3. auto.
Qed.

(** ** Ingestion: what the reconcilers leave alone *)

Section Reconcilers.

Variable I : store -> Prop.

Hypothesis I_sequence :
  forall st, I st -> I (set_lots_id_seq (lots_id_seq st + 1) st).
Hypothesis I_new_lot : forall st code d, I st -> I (with_new_lot code d st).
Hypothesis I_cleared : forall st i, I st -> I (updated i cleared st).
Hypothesis I_production : forall st r, I st -> I (add_production r st).
Hypothesis I_quality : forall st r, I st -> I (add_quality r st).
Hypothesis I_shipping : forall st r, I st -> I (add_shipping r st).
Hypothesis I_sources : forall st f, I st -> I (set_sources f st).

Variable Date_parse : string -> option string.
Variable config : dataSources.

Lemma production_row_keeps_it record :
  keeps I (production_row Date_parse record).
Proof. apply production_row_keeps; auto. Qed.

Lemma shipping_row_keeps_it record : keeps I (shipping_row Date_parse record).
Proof. apply shipping_row_keeps; auto. Qed.

Lemma quality_row_keeps_it record : keeps I (quality_row Date_parse record).
Proof.
  unfold quality_row.
  apply keeps_bind; [apply keeps_lift_js|intros code].
  apply keeps_bind; [apply keeps_lift_js|intros dateText].
  destruct (missing_key code dateText); [apply keeps_ret|].
  apply keeps_bind.
  { intros st H. unfold Lot.findByCompositeKey.
    destruct (date_in (the_date dateText)); exact H. }
  intros found. apply keeps_bind.
  { destruct found as [l|]; [apply keeps_ret|].
    eapply triple_weaken; [apply (create_resolves I); auto|auto| |auto].
    intros l st H. apply H. }
  intros l.
  apply keeps_bind; [apply quality_create_keeps; auto|intros _].
  apply keeps_bind; [|intros _; apply keeps_ret].
  intros st H.
  destruct (update_returns (lot_id l) (Lot.mkUpdates (Some false) None None) st)
    as [o ->].
  apply I_cleared. exact H.
Qed.

Lemma ingestAllData_keeps production quality shipping now :
  keeps I (ingestAllData Date_parse config production quality shipping now).
Proof.
  unfold ingestAllData, ingestProductionLogs, ingestQualityLogs,
    ingestShippingLogs.
  apply keeps_bind;
    [apply ingest_keeps; [exact I_sources|apply production_row_keeps_it]
    |intros r1].
  apply keeps_bind;
    [apply ingest_keeps; [exact I_sources|apply quality_row_keeps_it]
    |intros r2].
  apply keeps_bind;
    [apply ingest_keeps; [exact I_sources|apply shipping_row_keeps_it]
    |intros r3].
  apply keeps_ret.
Qed.

End Reconcilers.

Lemma only_new_records_updated st0 st i u :
  only_new_records st0 st -> only_new_records st0 (updated i u st).
Proof.
  unfold only_new_records.
  destruct (updated_rest i u st) as (_ & -> & -> & -> & -> & -> & _). auto.
Qed.

(** X10: ingestion never creates, resolves or removes an integrity flag,
    and never removes or changes a stored production, quality or shipping
    record: the records that were there are kept in place and new ones come
    after them. *)
Theorem ingestAllData_keeps_flags_and_records :
  forall Date_parse config production quality shipping now st,
    only_new_records st
      (after (ingestAllData Date_parse config production quality shipping now)
         st).
Proof.
  intros P config p q s now st.
  apply (keeps_after (only_new_records st)).
  - apply ingestAllData_keeps.
    + auto.
    + auto.
    + intros. apply only_new_records_updated. assumption.
    + intros s0 r (F & Fs & (n1 & H1) & Q & S). repeat split; auto.
      exists (n1 ++ [r])%list. simpl. rewrite H1, app_assoc. reflexivity.
    + intros s0 r (F & Fs & P0 & (n2 & H2) & S). repeat split; auto.
      exists (n2 ++ [r])%list. simpl. rewrite H2, app_assoc. reflexivity.
    + intros s0 r (F & Fs & P0 & Q & (n3 & H3)). repeat split; auto.
      exists (n3 ++ [r])%list. simpl. rewrite H3, app_assoc. reflexivity.
    + auto.
  - repeat split; exists []; rewrite app_nil_r; reflexivity.
Qed.

Lemma Forall2_map_right_step {A} (R : A -> A -> Prop) (g : A -> A) l l' :
  (forall a b, R a b -> R a (g b)) -> Forall2 R l l' -> Forall2 R l (map g l').
Proof. intros H. induction 1; simpl; constructor; auto. Qed.

Lemma reconciled_updated before st i :
  reconciled before (lots st) -> reconciled before (lots (updated i cleared st)).
Proof.
  intros (kept & added & Hl & Hk & Ha). rewrite lots_updated, Hl, map_app.
  eexists. eexists. split; [reflexivity|]. split.
  - apply Forall2_map_right_step; [|exact Hk].
    intros a b [->| ->]; destruct (lot_id _ =? i)%Z; auto.
  - apply Forall_forall. intros l' Hl'. apply in_map_iff in Hl'.
    destruct Hl' as (l & <- & Hin).
    rewrite Forall_forall in Ha. specialize (Ha l Hin).
    destruct (lot_id l =? i)%Z; exact Ha.
Qed.

(** X11: ingestion never removes a lot and never changes the id, the code,
    the production date, [has_data_integrity_issue] or [has_date_conflict]
    of a stored lot; all it can do to one is clear
    [is_pending_inspection].  The lots it adds come after the stored ones,
    with no integrity issue and no date conflict. *)
Theorem ingestAllData_reconciles_lots :
  forall Date_parse config production quality shipping now st,
    reconciled (lots st)
      (lots (after (ingestAllData Date_parse config production quality
                      shipping now) st)).
Proof.
  intros P config p q s now st.
  apply (keeps_after (fun s0 => reconciled (lots st) (lots s0))).
  - apply ingestAllData_keeps; auto.
    + intros s0 code d (kept & added & Hl & Hk & Ha).
      exists kept, (added ++ [new_lot code d s0])%list. simpl.
      rewrite Hl, app_assoc. repeat split; auto.
      apply Forall_app. split; [exact Ha|]. repeat constructor.
    + intros. apply reconciled_updated. assumption.
  - exists (lots st), []. rewrite app_nil_r. repeat split; auto.
    apply Forall2_same. auto.
Qed.

Lemma only_new_lots_added before st code d :
  only_new_lots before (lots st) ->
  only_new_lots before (lots (with_new_lot code d st)).
Proof.
  intros (added & Hl & Ha).
  exists (added ++ [new_lot code d st])%list. simpl.
  rewrite Hl, app_assoc. split; [reflexivity|].
  apply Forall_app. split; [exact Ha|]. repeat constructor.
Qed.

(** X12: the production reconciler and the shipping reconciler leave every
    stored lot exactly as it was, [is_pending_inspection] included; the
    lots they add are pending inspection, with no integrity issue and no
    date conflict. *)
Theorem production_and_shipping_leave_lots_alone :
  forall Date_parse config records now st,
    only_new_lots (lots st)
      (lots (after (ingestProductionLogs Date_parse config records now) st))
    /\ only_new_lots (lots st)
         (lots (after (ingestShippingLogs Date_parse config records now) st)).
Proof.
  intros P config records now st.
  assert (H0 : only_new_lots (lots st) (lots st))
    by (exists []; rewrite app_nil_r; split; [reflexivity|constructor]).
  split.
  - apply (keeps_after (fun s0 => only_new_lots (lots st) (lots s0)));
      [|exact H0].
    apply ingestProductionLogs_keeps; auto.
    intros. apply only_new_lots_added. assumption.
  - apply (keeps_after (fun s0 => only_new_lots (lots st) (lots s0)));
      [|exact H0].
    apply ingestShippingLogs_keeps; auto.
    intros. apply only_new_lots_added. assumption.
Qed.

(** ** [is_pending_inspection] on ingested state *)

Lemma has_quality_updated i u st j :
  has_quality j (updated i u st) = has_quality j st.
Proof.
  unfold has_quality.
  destruct (updated_rest i u st) as (_ & _ & -> & _). reflexivity.
Qed.

Lemma has_quality_bound st i :
  (forall q, In q (quality_inspection_records st) ->
     (q_lot_id q < lots_id_seq st)%Z) ->
  (lots_id_seq st <= i)%Z -> has_quality i st = false.
Proof.
  intros H Hi. unfold has_quality.
  destruct (existsb _ _) eqn:E; [|reflexivity].
  apply existsb_exists in E. destruct E as (q & Hq & Hid).
  apply Z.eqb_eq in Hid. specialize (H q Hq). lia.
Qed.

Lemma lot_exists_bound st i :
  ids_fresh st -> lot_exists i st = true -> (i < lots_id_seq st)%Z.
Proof.
  intros [H _] E. apply existsb_exists in E. destruct E as (l & Hl & Hid).
  apply Z.eqb_eq in Hid. specialize (H l Hl). lia.
Qed.

Lemma tracks_sequence st :
  pending_tracks_quality st ->
  pending_tracks_quality (set_lots_id_seq (lots_id_seq st + 1) st).
Proof.
  intros (F & B & T). split; [apply ids_fresh_sequence; exact F|].
  split; [|exact T]. intros q Hq. specialize (B q Hq). simpl. lia.
Qed.

Lemma tracks_new_lot st code d :
  pending_tracks_quality st -> pending_tracks_quality (with_new_lot code d st).
Proof.
  intros (F & B & T). split; [apply ids_fresh_new_lot; exact F|]. split.
  - intros q Hq. specialize (B q Hq). simpl. lia.
  - simpl. intros l Hl. apply in_app_or in Hl. destruct Hl as [Hl|[<-|[]]].
    + apply T. exact Hl.
    + simpl. change (has_quality (lots_id_seq st) (with_new_lot code d st))
        with (has_quality (lots_id_seq st) st).
      rewrite (has_quality_bound st _ B) by lia. reflexivity.
Qed.

Lemma tracks_updated st i u :
  pending_tracks_quality st ->
  (Lot.set_is_pending_inspection u = None
   \/ Lot.set_is_pending_inspection u = Some (negb (has_quality i st))) ->
  pending_tracks_quality (updated i u st).
Proof.
  intros (F & B & T) Hu. split; [apply ids_fresh_updated; exact F|].
  destruct (updated_rest i u st) as (Hs & _ & Hq & _). split.
  - rewrite Hq, Hs. exact B.
  - intros l' Hl'. rewrite has_quality_updated. rewrite lots_updated in Hl'.
    apply in_map_iff in Hl'. destruct Hl' as (l & <- & Hl).
    specialize (T l Hl). destruct (lot_id l =? i)%Z eqn:E; [|exact T].
    apply Z.eqb_eq in E. simpl.
    destruct Hu as [-> | ->]; simpl; [exact T|]. rewrite E. reflexivity.
Qed.

Lemma tracks_quality_created l dateText pass dtype count inspector :
  triple pending_tracks_quality
    (QualityInspectionRecord.create (lot_id l) dateText pass dtype count
       inspector)
    (fun _ => pending_tracks_quality_but (lot_id l))
    pending_tracks_quality.
Proof.
  intros st (F & B & T). unfold QualityInspectionRecord.create.
  destruct (date_in dateText) as [d|]; [|repeat split; auto; apply F].
  unfold bind, lift_db, get, modify, throw, ret.
  destruct (varchar 50 dtype); simpl; [|repeat split; auto; apply F].
  destruct (integer count); simpl; [|repeat split; auto; apply F].
  destruct (varchar 50 inspector); simpl; [|repeat split; auto; apply F].
  destruct (lot_exists (lot_id l) st) eqn:Hex; simpl;
    [|repeat split; auto; apply F].
  destruct (0 <=? a0)%Z; simpl; [|repeat split; auto; apply F].
  split; [exact F|]. split; [|split].
  - simpl. intros q Hq. apply in_app_or in Hq.
    destruct Hq as [Hq|[<-|[]]]; [apply B; exact Hq|].
    simpl. apply lot_exists_bound; assumption.
  - unfold has_quality. simpl. rewrite existsb_app. simpl.
    rewrite Z.eqb_refl. apply orb_true_iff. right. reflexivity.
  - simpl. intros l0 Hl0 Hne. rewrite (T l0 Hl0). f_equal.
    unfold has_quality. simpl. rewrite existsb_app. simpl.
    assert (E : (lot_id l =? lot_id l0)%Z = false)
      by (apply Z.eqb_neq; congruence).
    rewrite E, !orb_false_r. reflexivity.
Qed.

Lemma tracks_cleared i st :
  pending_tracks_quality_but i st ->
  pending_tracks_quality (updated i cleared st).
Proof.
  intros (F & B & Q & T). split; [apply ids_fresh_updated; exact F|].
  destruct (updated_rest i cleared st) as (Hs & _ & Hq & _). split.
  - rewrite Hq, Hs. exact B.
  - intros l' Hl'. rewrite has_quality_updated. rewrite lots_updated in Hl'.
    apply in_map_iff in Hl'. destruct Hl' as (l & <- & Hl).
    destruct (lot_id l =? i)%Z eqn:E.
    + apply Z.eqb_eq in E. simpl. rewrite E, Q. reflexivity.
    + apply T; [exact Hl|]. apply Z.eqb_neq. exact E.
Qed.

Lemma quality_row_tracks Date_parse record :
  keeps pending_tracks_quality (quality_row Date_parse record).
Proof.
  unfold quality_row.
  apply keeps_bind; [apply keeps_lift_js|intros code].
  apply keeps_bind; [apply keeps_lift_js|intros dateText].
  destruct (missing_key code dateText); [apply keeps_ret|].
  apply keeps_bind.
  { intros st H. unfold Lot.findByCompositeKey.
    destruct (date_in (the_date dateText)); exact H. }
  intros found. apply keeps_bind.
  { destruct found as [l|]; [apply keeps_ret|].
    eapply triple_weaken;
      [apply (create_resolves pending_tracks_quality)|auto| |auto].
    - apply tracks_sequence.
    - intros. apply tracks_new_lot. assumption.
    - intros l st H. apply H. }
  intros l.
  eapply triple_bind; [apply tracks_quality_created|]. intros r.
  eapply triple_bind with (R := fun _ => pending_tracks_quality);
    [|intros o; apply keeps_ret].
  intros st H.
  destruct (update_returns (lot_id l) (Lot.mkUpdates (Some false) None None) st)
    as [o ->].
  apply tracks_cleared. exact H.
Qed.

Lemma check_each_tracks flagType severity u found :
  (Lot.set_is_pending_inspection u = None
   \/ Lot.set_is_pending_inspection u = Some true) ->
  forall r st,
    (Lot.set_is_pending_inspection u = Some true ->
     forall x, In x found -> has_quality (finding_lot x) st = false) ->
    pending_tracks_quality st ->
    pending_tracks_quality
      (after (check_each flagType severity u found r) st).
Proof.
  intros Hu. induction found as [|x found IH]; intros r st Hq H.
  - exact H.
  - destruct (check_each_step flagType severity u x found r st) as [r' Hs].
    unfold after at 1. rewrite Hs.
    apply IH.
    + intros Ht y Hy.
      rewrite (has_quality_evolves u st _ _
                 (check_one_evolves flagType severity u x r st)).
      apply Hq; [exact Ht|right; exact Hy].
    + assert (Hux : Lot.set_is_pending_inspection u = None
                    \/ Lot.set_is_pending_inspection u
                       = Some (negb (has_quality (finding_lot x) st))).
      { destruct Hu as [Hn|Ht]; [left; exact Hn|right].
        rewrite (Hq Ht x) by (left; reflexivity). exact Ht. }
      unfold after.
      destruct (check_one_cases flagType severity u x r st)
        as [(_ & ->) | [(_ & _ & ->) | (_ & _ & e & ->)]]; simpl.
      * apply tracks_updated; assumption.
      * apply tracks_updated; [|exact Hux].
        destruct H as (F & B & T). repeat split; try assumption; apply F.
      * exact H.
Qed.

Lemma runAllValidations_tracks :
  keeps pending_tracks_quality runAllValidations.
Proof.
  intros st H. fold (after runAllValidations st).
  assert (G : pending_tracks_quality (after runAllValidations st)).
  { rewrite after_runAllValidations.
    unfold validateDateLogic, validateOrphanedShipments,
      validatePendingInspections, after.
    rewrite !run_rule_unfold
      by first [apply dateConflicts_read_only
               |apply orphanedShipments_read_only
               |apply lotsWithoutQuality_read_only].
    apply check_each_tracks; [left; reflexivity|discriminate|].
    apply check_each_tracks; [left; reflexivity|discriminate|].
    apply check_each_tracks; [right; reflexivity| |exact H].
    intros _ x Hx.
    unfold findings_of, returned, lotsWithoutQuality, bind,
      QualityInspectionRecord.findLotsWithoutQuality in Hx. simpl in Hx.
    apply in_map_iff in Hx. destruct Hx as (l & <- & Hl).
    apply filter_In in Hl. destruct Hl as [_ Hl]. simpl.
    apply negb_true_iff. exact Hl. }
  unfold after in G. destruct (runAllValidations st) as [[a|e] st']; exact G.
Qed.

Lemma run_pipeline_tracks Date_parse config steps :
  pending_tracks_quality (run_pipeline Date_parse config steps).
Proof.
  unfold run_pipeline.
  assert (H0 : pending_tracks_quality Db.empty).
  { repeat split; simpl; try tauto. constructor. }
  revert H0. generalize Db.empty.
  induction steps as [|s steps IH]; intros st H; simpl; [exact H|].
  apply IH. destruct s; simpl; apply keeps_after; try exact H.
  - apply ingestProductionLogs_keeps; auto.
    + apply tracks_sequence.
    + intros. apply tracks_new_lot. assumption.
  - apply ingest_keeps; [auto|apply quality_row_tracks].
  - apply ingestShippingLogs_keeps; auto.
    + apply tracks_sequence.
    + intros. apply tracks_new_lot. assumption.
  - apply runAllValidations_tracks.
Qed.

(** X13: in every database that ingestion batches and validation passes
    build from the empty one, [is_pending_inspection] of a lot is true
    exactly when the lot has no quality inspection record. *)
Theorem pending_means_no_quality_record :
  forall Date_parse config steps,
    let st := run_pipeline Date_parse config steps in
    Forall (fun l => is_pending_inspection l
                     = negb (has_quality (lot_id l) st)) (lots st).
Proof.
  intros P config steps st. apply Forall_forall.
  apply (run_pipeline_tracks P config steps).
Qed.

(** ** Lot search *)

Lemma In_insert_by_date_desc l x ls :
  In x (insert_by_date_desc l ls) <-> x = l \/ In x ls.
Proof.
  induction ls as [|y ls IH]; simpl.
  - intuition congruence.
  - destruct (date_ltb (production_date l) (production_date y)); simpl;
      [rewrite IH|]; intuition congruence.
Qed.

Lemma In_sorted_lots x ls :
  In x (fold_right insert_by_date_desc [] ls) <-> In x ls.
Proof.
  induction ls as [|y ls IH]; simpl; [tauto|].
  rewrite In_insert_by_date_desc, IH. intuition congruence.
Qed.

Lemma date_ltb_spec a b :
  date_ltb a b = true <->
  (year a < year b
   \/ (year a = year b
       /\ (month a < month b
           \/ (month a = month b /\ Db.day a < Db.day b))))%nat.
Proof.
  unfold date_ltb.
  rewrite !orb_true_iff, !andb_true_iff, !Nat.ltb_lt, !Nat.eqb_eq,
    !orb_true_iff, !andb_true_iff, !Nat.ltb_lt, !Nat.eqb_eq.
  tauto.
Qed.

Lemma date_ltb_false_trans a x y :
  date_ltb a x = false -> date_ltb x y = false -> date_ltb a y = false.
Proof.
  intros H1 H2.
  destruct (date_ltb a y) eqn:H3; [exfalso|reflexivity].
  apply date_ltb_spec in H3.
  assert (N1 : ~ date_ltb a x = true) by congruence.
  assert (N2 : ~ date_ltb x y = true) by congruence.
  rewrite date_ltb_spec in N1, N2. lia.
Qed.

Lemma date_ltb_asymmetric a x :
  date_ltb a x = true -> date_ltb x a = false.
Proof.
  intros H. destruct (date_ltb x a) eqn:E; [exfalso|reflexivity].
  apply date_ltb_spec in H, E. lia.
Qed.

Lemma first_sorted_is_latest ls :
  match fold_right insert_by_date_desc [] ls with
  | [] => ls = []
  | x :: _ =>
      forall y, In y ls ->
        date_ltb (production_date x) (production_date y) = false
  end.
Proof.
  induction ls as [|a ls IH]; simpl; [reflexivity|].
  destruct (fold_right insert_by_date_desc [] ls) as [|x rest]; simpl.
  - subst ls. intros y [<-|[]]. apply date_ltb_irrefl.
  - destruct (date_ltb (production_date a) (production_date x)) eqn:E.
    + intros y [<-|Hy]; [apply date_ltb_asymmetric; exact E|apply IH, Hy].
    + intros y [<-|Hy]; [apply date_ltb_irrefl|].
      eapply date_ltb_false_trans; [exact E|apply IH, Hy].
Qed.

Lemma find_none_existsb {A} (p : A -> bool) l :
  find p l = None -> existsb p l = false.
Proof.
  induction l as [|a l IH]; simpl; [reflexivity|].
  destruct (p a); [discriminate|exact IH].
Qed.

(** The row that lot search reads. *)
Lemma first_row_facts lotCode st :
  match first_row lotCode st with
  | Some r =>
      In (row_lot r) (lots st)
      /\ toLowerCase (lot_code (row_lot r)) = toLowerCase lotCode
      /\ (forall l, In l (lots st) ->
            toLowerCase (lot_code l) = toLowerCase lotCode ->
            date_ltb (production_date (row_lot r)) (production_date l)
            = false)
      /\ match row_quality r with
         | Some q =>
             In q (quality_inspection_records st)
             /\ q_lot_id q = lot_id (row_lot r)
         | None => has_quality (lot_id (row_lot r)) st = false
         end
      /\ match row_shipping r with
         | Some s =>
             In s (shipping_records st) /\ s_lot_id s = lot_id (row_lot r)
         | None =>
             forall s, In s (shipping_records st) ->
               s_lot_id s <> lot_id (row_lot r)
         end
  | None =>
      forall l, In l (lots st) ->
        toLowerCase (lot_code l) <> toLowerCase lotCode
  end.
Proof.
  unfold first_row.
  set (p := fun l => toLowerCase (lot_code l) =? toLowerCase lotCode).
  pose proof (first_sorted_is_latest (filter p (lots st))) as Hlatest.
  pose proof (In_sorted_lots) as Hin.
  specialize (Hin) with (ls := filter p (lots st)).
  destruct (fold_right insert_by_date_desc [] (filter p (lots st)))
    as [|x rest]; simpl.
  - intros l Hl Hc.
    assert (H : In l (filter p (lots st)))
      by (apply filter_In; split; [exact Hl|apply String.eqb_eq; exact Hc]).
    rewrite Hlatest in H. exact H.
  - assert (Hx : In x (filter p (lots st)))
      by (apply Hin; left; reflexivity).
    apply filter_In in Hx. destruct Hx as [Hx Hp].
    split; [exact Hx|].
    split; [apply String.eqb_eq; exact Hp|]. split; [|split].
    + intros l Hl Hc. apply Hlatest. apply filter_In. split; [exact Hl|].
      apply String.eqb_eq. exact Hc.
    + destruct (find _ (quality_inspection_records st)) as [q|] eqn:Hq.
      * apply find_some in Hq. destruct Hq as [Hq Hid].
        split; [exact Hq|apply Z.eqb_eq; exact Hid].
      * apply find_none_existsb in Hq. exact Hq.
    + destruct (find _ (shipping_records st)) as [s|] eqn:Hs.
      * apply find_some in Hs. destruct Hs as [Hs Hid].
        split; [exact Hs|apply Z.eqb_eq; exact Hid].
      * intros s Hin' Hid.
        apply (find_none _ _ Hs) in Hin'. simpl in Hin'.
        apply Z.eqb_neq in Hin'. contradiction.
Qed.

(** X14: lot search finds a lot exactly when some lot has the code, letter
    case apart.  The lot it reports is a stored lot of that code with the
    latest production date among them; the quality record and the shipping
    record it reports are records of that lot, and it reports none only
    when the lot has none. *)
Theorem searchLotByCode_reports_the_latest_lot :
  forall lotCode st,
    match returned (searchLotByCode lotCode) st with
    | Ok (Some (status, r)) =>
        status = currentStatus r
        /\ In (row_lot r) (lots st)
        /\ toLowerCase (lot_code (row_lot r)) = toLowerCase lotCode
        /\ (forall l, In l (lots st) ->
              toLowerCase (lot_code l) = toLowerCase lotCode ->
              date_ltb (production_date (row_lot r)) (production_date l)
              = false)
        /\ match row_quality r with
           | Some q =>
               In q (quality_inspection_records st)
               /\ q_lot_id q = lot_id (row_lot r)
           | None => has_quality (lot_id (row_lot r)) st = false
           end
        /\ match row_shipping r with
           | Some s =>
               In s (shipping_records st) /\ s_lot_id s = lot_id (row_lot r)
           | None =>
               forall s, In s (shipping_records st) ->
                 s_lot_id s <> lot_id (row_lot r)
           end
    | Ok None =>
        forall l, In l (lots st) ->
          toLowerCase (lot_code l) <> toLowerCase lotCode
    | Throw _ => False
    end.
Proof.
  intros code st. unfold returned, searchLotByCode. simpl.
  pose proof (first_row_facts code st) as H.
  destruct (first_row code st) as [r|]; simpl; [|exact H].
  split; [reflexivity|exact H].
Qed.

(** X15: on every database that ingestion batches and validation passes
    build from the empty one, the status that lot search derives is
    "Pending Inspection", "Failed Quality", "Passed Quality" or the literal
    shipment status of the lot's shipping record: the branches for
    "Data Conflict" and for the default "In Production" are never taken. *)
Theorem status_of_an_ingested_lot :
  forall Date_parse config steps lotCode,
    match returned (searchLotByCode lotCode)
            (run_pipeline Date_parse config steps) with
    | Ok (Some (status, r)) =>
        In status ["Pending Inspection"; "Failed Quality"; "Passed Quality"]
        \/ row_shipment_status r = Some status
    | _ => True
    end.
Proof.
  intros P config steps code. unfold returned, searchLotByCode. simpl.
  pose proof (first_row_facts code (run_pipeline P config steps)) as H.
  destruct (first_row code (run_pipeline P config steps)) as [r|]; simpl;
    [|exact I].
  destruct H as (Hl & _ & _ & Hq & _).
  destruct (run_pipeline_invariant P config steps) as (_ & _ & C & _).
  destruct (run_pipeline_tracks P config steps) as (_ & _ & T).
  specialize (C _ Hl). specialize (T _ Hl).
  unfold currentStatus. rewrite C.
  destruct (truthy_text (row_shipment_status r)) eqn:Ht.
  - right. destruct (row_shipment_status r); [reflexivity|discriminate].
  - left. unfold quality_pass.
    destruct (row_quality r) as [q|]; simpl.
    + destruct (is_pass q); simpl; auto.
    + rewrite T, Hq. simpl; auto.
Qed.

(** ** Validation: what a pass establishes *)

Lemma settled_after_a_run st :
  let st' := after runAllValidations st in
  settled "Pending Inspection" pending_column lotsWithoutQuality st'
  /\ settled "Orphaned Shipment" integrity_column orphanedShipments st'
  /\ settled "Date Conflict" conflict_column dateConflicts st'.
Proof.
  intros st'. subst st'. rewrite after_runAllValidations.
  set (sa := after validatePendingInspections st).
  set (sb := after validateOrphanedShipments sa).
  set (sc := after validateDateLogic sb).
  destruct rules_compatible as (C1 & C2 & C3).
  assert (Eb : evolves integrity_column sa sb)
    by (apply run_rule_evolves, orphanedShipments_read_only).
  assert (Ec : evolves conflict_column sb sc)
    by (apply run_rule_evolves, dateConflicts_read_only).
  split; [|split].
  - eapply settled_evolves;
      [apply lotsWithoutQuality_ignore_flags|exact C2|exact Ec|].
    eapply settled_evolves;
      [apply lotsWithoutQuality_ignore_flags|exact C1|exact Eb|].
    apply run_rule_settles;
      [reflexivity|reflexivity|apply lotsWithoutQuality_read_only
      |apply lotsWithoutQuality_have_lots
      |apply lotsWithoutQuality_ignore_flags].
  - eapply settled_evolves;
      [apply orphanedShipments_ignore_flags|exact C3|exact Ec|].
    apply run_rule_settles;
      [reflexivity|reflexivity|apply orphanedShipments_read_only
      |apply orphanedShipments_have_lots
      |apply orphanedShipments_ignore_flags].
  - apply run_rule_settles;
      [reflexivity|reflexivity|apply dateConflicts_read_only
      |apply dateConflicts_have_lots
      |apply dateConflicts_ignore_flags].
Qed.

Lemma find_some_count {A} (p : A -> bool) l :
  find p l <> None -> (1 <= List.length (filter p l))%nat.
Proof.
  induction l as [|a l IH]; simpl; [congruence|].
  destruct (p a); simpl; [lia|exact IH].
Qed.

Lemma settled_finding flagType u query st x l :
  settled flagType u query st ->
  In x (findings_of query st) -> In l (lots st) -> lot_id l = finding_lot x ->
  Lot.apply u l = l
  /\ (1 <= unresolved_count (lot_id l) flagType st)%nat.
Proof.
  intros [C S] Hx Hl Hid. split; [apply (S x l); assumption|].
  rewrite Hid. apply find_some_count. apply C. exact Hx.
Qed.

(** X16: after a pass of the engine over any database, every lot without a
    quality record is pending inspection and has an unresolved
    Pending Inspection flag; every lot with a shipping record and no quality
    record has [has_data_integrity_issue] set and an unresolved
    Orphaned Shipment flag; and every lot with a shipping record dated
    before its production date has [has_date_conflict] set and an
    unresolved Date Conflict flag. *)
Theorem validation_flags_every_violation :
  forall st,
    let st' := after runAllValidations st in
    (forall l, In l (lots st') -> has_quality (lot_id l) st' = false ->
       is_pending_inspection l = true
       /\ (1 <= unresolved_count (lot_id l) "Pending Inspection" st')%nat)
    /\ (forall l s,
          In l (lots st') -> In s (shipping_records st') ->
          s_lot_id s = lot_id l -> has_quality (lot_id l) st' = false ->
          has_data_integrity_issue l = true
          /\ (1 <= unresolved_count (lot_id l) "Orphaned Shipment" st')%nat)
    /\ (forall l s,
          In l (lots st') -> In s (shipping_records st') ->
          s_lot_id s = lot_id l ->
          date_ltb (ship_date s) (production_date l) = true ->
          has_date_conflict l = true
          /\ (1 <= unresolved_count (lot_id l) "Date Conflict" st')%nat).
Proof.
  intros st st'. destruct (settled_after_a_run st) as (S1 & S2 & S3).
  fold st' in S1, S2, S3. split; [|split].
  - intros l Hl Hq.
    destruct (settled_finding _ _ _ st'
                (mkFinding (lot_id l) (lot_code l)
                   (PendingText (lot_code l) (production_date l))) l S1)
      as [Ha Hc]; [|exact Hl|reflexivity|].
    + unfold findings_of, returned, lotsWithoutQuality, bind,
        QualityInspectionRecord.findLotsWithoutQuality. simpl.
      apply in_map_iff. exists l. split; [reflexivity|].
      apply filter_In. split; [exact Hl|]. rewrite Hq. reflexivity.
    + split; [|exact Hc].
      apply (f_equal is_pending_inspection) in Ha. symmetry. exact Ha.
  - intros l s Hl Hs Hid Hq.
    destruct (settled_finding _ _ _ st'
                (mkFinding (s_lot_id s) (lot_code l)
                   (OrphanedText (lot_code l) (destination_state s))) l S2)
      as [Ha Hc]; [|exact Hl|simpl; congruence|].
    + unfold findings_of, returned, orphanedShipments, bind,
        ShippingRecord.findOrphanedShipments. simpl.
      apply in_map_iff. exists (s, lot_code l). split; [reflexivity|].
      apply in_flat_map. exists s. split; [exact Hs|].
      apply in_map_iff. exists l. split; [reflexivity|].
      apply filter_In. split; [exact Hl|].
      rewrite Hq, <- Hid, Z.eqb_refl. reflexivity.
    + split; [|exact Hc].
      apply (f_equal has_data_integrity_issue) in Ha. symmetry. exact Ha.
  - intros l s Hl Hs Hid Hd.
    destruct (settled_finding _ _ _ st'
                (mkFinding (lot_id l) (lot_code l)
                   (ConflictText (lot_code l) (ship_date s)
                      (production_date l))) l S3)
      as [Ha Hc]; [|exact Hl|reflexivity|].
    + unfold findings_of, returned, dateConflicts. simpl.
      apply in_flat_map. exists s. split; [exact Hs|].
      apply in_map_iff. exists l. split; [reflexivity|].
      apply filter_In. split; [exact Hl|].
      rewrite Hd, <- Hid, Z.eqb_refl. reflexivity.
    + split; [|exact Hc].
      apply (f_equal has_date_conflict) in Ha. symmetry. exact Ha.
Qed.

(** ** Validation: what a pass reports and what it leaves alone *)

Lemma check_one_reports flagType sev u x r st :
  lot_exists (finding_lot x) st = true ->
  (50 <? length flagType)%nat || (20 <? length sev)%nat = false ->
  includes DataIntegrityFlag.severities sev = true ->
  exists r' new,
    check_one flagType sev u x r st
    = (Ok r', after (check_one flagType sev u x r) st)
    /\ data_integrity_flags (after (check_one flagType sev u x r) st)
       = (data_integrity_flags st ++ new)%list
    /\ Forall (flag_of flagType sev) new
    /\ name r' = name r
    /\ flagsCreated r' = (flagsCreated r + List.length new)%nat
    /\ (flagsCreated r' + flagsSkipped r'
        = flagsCreated r + flagsSkipped r + 1)%nat
    /\ validation_errors r' = validation_errors r.
Proof.
  intros Hlot Hlen Hsev. unfold after.
  destruct (check_one_cases flagType sev u x r st)
    as [(_ & ->) | [(_ & _ & ->) | (_ & [H|[H|H]] & _)]];
    try congruence; simpl.
  - exists (skipped r), []. split; [reflexivity|].
    destruct (updated_rest (finding_lot x) u st) as (_ & _ & _ & _ & -> & _).
    rewrite app_nil_r. simpl. repeat split; try lia. constructor.
  - eexists (created r), [_]. split; [reflexivity|].
    match goal with
    | |- context [updated ?i ?v ?s] =>
        destruct (updated_rest i v s) as (_ & _ & _ & _ & -> & _)
    end.
    simpl. repeat split; try lia. constructor; [|constructor].
    repeat split.
Qed.

Lemma check_each_reports flagType sev u found :
  (50 <? length flagType)%nat || (20 <? length sev)%nat = false ->
  includes DataIntegrityFlag.severities sev = true ->
  forall r st,
    (forall x, In x found -> lot_exists (finding_lot x) st = true) ->
    exists r' new st',
      check_each flagType sev u found r st = (Ok r', st')
      /\ data_integrity_flags st' = (data_integrity_flags st ++ new)%list
      /\ Forall (flag_of flagType sev) new
      /\ name r' = name r
      /\ flagsCreated r' = (flagsCreated r + List.length new)%nat
      /\ (flagsCreated r' + flagsSkipped r'
          = flagsCreated r + flagsSkipped r + List.length found)%nat
      /\ validation_errors r' = validation_errors r.
Proof.
  intros Hlen Hsev. induction found as [|x found IH]; intros r st Hlots.
  - exists r, [], st. rewrite app_nil_r. simpl.
    repeat split; try lia. constructor.
  - destruct (check_one_reports flagType sev u x r st)
      as (r1 & n1 & H1 & F1 & A1 & N1 & C1 & T1 & E1);
      [apply Hlots; left; reflexivity|exact Hlen|exact Hsev|].
    destruct (IH r1 (after (check_one flagType sev u x r) st))
      as (r2 & n2 & st2 & H2 & F2 & A2 & N2 & C2 & T2 & E2).
    { intros y Hy.
      rewrite (lot_exists_evolves u st) by apply check_one_evolves.
      apply Hlots. right. exact Hy. }
    exists r2, (n1 ++ n2)%list, st2.
    split; [simpl; unfold bind; rewrite H1; exact H2|].
    split; [rewrite F2, F1, app_assoc; reflexivity|].
    split; [apply Forall_app; split; assumption|].
    rewrite length_app. simpl List.length.
    repeat split; try congruence; lia.
Qed.

Lemma run_rule_reports ruleName flagType sev u query st :
  read_only query ->
  (forall x, In x (findings_of query st) ->
     lot_exists (finding_lot x) st = true) ->
  (50 <? length flagType)%nat || (20 <? length sev)%nat = false ->
  includes DataIntegrityFlag.severities sev = true ->
  exists r new,
    run_rule ruleName flagType sev u query st
    = (Ok r, after (run_rule ruleName flagType sev u query) st)
    /\ data_integrity_flags (after (run_rule ruleName flagType sev u query) st)
       = (data_integrity_flags st ++ new)%list
    /\ Forall (flag_of flagType sev) new
    /\ List.length new = flagsCreated r
    /\ reports r ruleName (findings_of query st).
Proof.
  intros Hq Hlots Hlen Hsev.
  destruct (check_each_reports flagType sev u (findings_of query st) Hlen Hsev
              (mkValidation ruleName 0 0 []) st Hlots)
    as (r & new & st' & H & F & A & N & C & T & E).
  exists r, new. unfold after. rewrite (run_rule_unfold _ _ _ _ _ _ Hq), H.
  simpl in *. repeat split; try assumption; lia.
Qed.

(** X17: a pass of the engine over any database returns the three results
    in the order of the rules, none of them with an error; each result
    counts every violation found by its rule once, as a flag created or
    skipped.  The flags of the database are kept in place and the new ones
    follow them: as many as the results say were created, each unresolved
    and with the type and the severity of one of the rules. *)
Theorem runAllValidations_reports_what_it_flags :
  forall st,
    exists r1 r2 r3 new,
      returned runAllValidations st = Ok [r1; r2; r3]
      /\ reports r1 "Pending Inspections" (findings_of lotsWithoutQuality st)
      /\ reports r2 "Orphaned Shipments" (findings_of orphanedShipments st)
      /\ reports r3 "Date Logic Validation" (findings_of dateConflicts st)
      /\ data_integrity_flags (after runAllValidations st)
         = (data_integrity_flags st ++ new)%list
      /\ List.length new
         = (flagsCreated r1 + flagsCreated r2 + flagsCreated r3)%nat
      /\ Forall raised_by_a_rule new.
Proof.
  intros st. rewrite after_runAllValidations.
  unfold returned, runAllValidations, bind.
  destruct (run_rule_reports "Pending Inspections" "Pending Inspection"
              "Warning" pending_column lotsWithoutQuality st
              lotsWithoutQuality_read_only
              (lotsWithoutQuality_have_lots st) eq_refl eq_refl)
    as (r1 & n1 & H1 & F1 & A1 & C1 & R1).
  change (run_rule "Pending Inspections" "Pending Inspection" "Warning"
            pending_column lotsWithoutQuality)
    with validatePendingInspections in H1, F1.
  assert (E1 : evolves pending_column st (after validatePendingInspections st))
    by (apply run_rule_evolves, lotsWithoutQuality_read_only).
  set (st1 := after validatePendingInspections st) in *.
  destruct (run_rule_reports "Orphaned Shipments" "Orphaned Shipment"
              "Critical" integrity_column orphanedShipments st1
              orphanedShipments_read_only
              (orphanedShipments_have_lots st1) eq_refl eq_refl)
    as (r2 & n2 & H2 & F2 & A2 & C2 & R2).
  change (run_rule "Orphaned Shipments" "Orphaned Shipment" "Critical"
            integrity_column orphanedShipments)
    with validateOrphanedShipments in H2, F2.
  assert (E2 : evolves integrity_column st1
                 (after validateOrphanedShipments st1))
    by (apply run_rule_evolves, orphanedShipments_read_only).
  set (st2 := after validateOrphanedShipments st1) in *.
  destruct (run_rule_reports "Date Logic Validation" "Date Conflict"
              "Error" conflict_column dateConflicts st2
              dateConflicts_read_only
              (dateConflicts_have_lots st2) eq_refl eq_refl)
    as (r3 & n3 & H3 & F3 & A3 & C3 & R3).
  change (run_rule "Date Logic Validation" "Date Conflict" "Error"
            conflict_column dateConflicts)
    with validateDateLogic in H3, F3.
  rewrite (orphanedShipments_ignore_flags _ _ _ E1) in R2.
  rewrite (dateConflicts_ignore_flags _ _ _ E2),
    (dateConflicts_ignore_flags _ _ _ E1) in R3.
  exists r1, r2, r3, (n1 ++ n2 ++ n3)%list.
  rewrite H1, H2, H3. simpl.
  split; [reflexivity|]. split; [exact R1|]. split; [exact R2|].
  split; [exact R3|].
  split; [rewrite F3, F2, F1, <- !app_assoc; reflexivity|].
  split; [rewrite !length_app; lia|].
  repeat (apply Forall_app; split);
    [revert A1|revert A2|revert A3]; apply Forall_impl;
    intros f (Hr & Ht & Hs); (split; [exact Hr|]);
    rewrite Ht, Hs; simpl; auto.
Qed.

Lemma apply_only_raised u l :
  In u [pending_column; integrity_column; conflict_column] ->
  only_raised l (Lot.apply u l).
Proof.
  intros Hu. split; [apply apply_identity|].
  destruct Hu as [<-|[<-|[<-|[]]]]; simpl; auto.
Qed.

Lemma only_raised_trans a b c :
  only_raised a b -> only_raised b c -> only_raised a c.
Proof.
  intros ((I1 & I2 & I3) & P1 & Q1 & R1) ((J1 & J2 & J3) & P2 & Q2 & R2).
  repeat split; try congruence; auto.
Qed.

Lemma evolves_only_raised u st st' :
  In u [pending_column; integrity_column; conflict_column] ->
  evolves u st st' -> Forall2 only_raised (lots st) (lots st').
Proof.
  intros Hu (L & _). revert L. apply Forall2_impl.
  intros a b [->| ->]; [|apply apply_only_raised; exact Hu].
  repeat split; auto.
Qed.

(** X18: a pass of the engine keeps every lot, in place and with its id,
    code and production date; a column of a lot that was true stays true;
    and the lot sequence, the production, quality and shipping records and
    the source metadata are those of before. *)
Theorem validation_only_raises_lot_columns :
  forall st,
    let st' := after runAllValidations st in
    Forall2 only_raised (lots st) (lots st')
    /\ lots_id_seq st' = lots_id_seq st
    /\ production_records st' = production_records st
    /\ quality_inspection_records st' = quality_inspection_records st
    /\ shipping_records st' = shipping_records st
    /\ data_source_metadatas st' = data_source_metadatas st.
Proof.
  intros st st'. subst st'. rewrite after_runAllValidations.
  set (sa := after validatePendingInspections st).
  set (sb := after validateOrphanedShipments sa).
  set (sc := after validateDateLogic sb).
  assert (Ea : evolves pending_column st sa)
    by (apply run_rule_evolves, lotsWithoutQuality_read_only).
  assert (Eb : evolves integrity_column sa sb)
    by (apply run_rule_evolves, orphanedShipments_read_only).
  assert (Ec : evolves conflict_column sb sc)
    by (apply run_rule_evolves, dateConflicts_read_only).
  split.
  - eapply Forall2_compose; [exact only_raised_trans| |].
    + eapply Forall2_compose; [exact only_raised_trans| |].
      * apply (evolves_only_raised _ _ _ (or_introl eq_refl) Ea).
      * apply (evolves_only_raised _ _ _ (or_intror (or_introl eq_refl)) Eb).
    + apply (evolves_only_raised _ _ _
               (or_intror (or_intror (or_introl eq_refl))) Ec).
  - destruct Ea as (_ & S1 & P1 & Q1 & H1 & _ & M1).
    destruct Eb as (_ & S2 & P2 & Q2 & H2 & _ & M2).
    destruct Ec as (_ & S3 & P3 & Q3 & H3 & _ & M3).
    repeat split; congruence.
Qed.

(** ** Ingestion: the metadata of the sources *)

Lemma find_put_same (m : data_source_metadata) l :
  find (fun x => source_name x =? source_name m)
    (if existsb (fun x => source_name x =? source_name m) l
     then map (fun x => if source_name x =? source_name m then m else x) l
     else (l ++ [m])%list)
  = Some m.
Proof.
  destruct (existsb _ l) eqn:Hex.
  - induction l as [|x l IH]; simpl in *; [discriminate|].
    destruct (source_name x =? source_name m) eqn:Hx; simpl.
    + rewrite String.eqb_refl. reflexivity.
    + rewrite Hx. apply IH. exact Hex.
  - induction l as [|x l IH]; simpl in *.
    + rewrite String.eqb_refl. reflexivity.
    + destruct (source_name x =? source_name m) eqn:Hx; [discriminate|].
      apply IH. exact Hex.
Qed.

Lemma find_put_other (m : data_source_metadata) n l :
  n <> source_name m ->
  find (fun x => source_name x =? n)
    (if existsb (fun x => source_name x =? source_name m) l
     then map (fun x => if source_name x =? source_name m then m else x) l
     else (l ++ [m])%list)
  = find (fun x => source_name x =? n) l.
Proof.
  intros Hn.
  assert (Hm : (source_name m =? n) = false)
    by (apply String.eqb_neq; congruence).
  destruct (existsb _ l).
  - induction l as [|x l IH]; simpl; [reflexivity|].
    destruct (source_name x =? source_name m) eqn:Hx; simpl.
    + apply String.eqb_eq in Hx. rewrite Hx, Hm. exact IH.
    + destruct (source_name x =? n); [reflexivity|exact IH].
  - induction l as [|x l IH]; simpl.
    + rewrite Hm. reflexivity.
    + destruct (source_name x =? n); [reflexivity|exact IH].
Qed.

Lemma upsert_then_find sourceName path format status now st :
  (100 <? length sourceName)%nat || (10 <? length format)%nat
  || (20 <? length status)%nat = false ->
  includes DataSourceMetadata.statuses status = true ->
  let st' := after (DataSourceMetadata.upsert sourceName path format status
                      now) st in
  returned (DataSourceMetadata.upsert sourceName path format status now) st
  = Ok (mkSource sourceName path format now status)
  /\ returned (DataSourceMetadata.findByName sourceName) st'
     = Ok (Some (mkSource sourceName path format now status))
  /\ other_sources_kept sourceName st st'.
Proof.
  intros Hlen Hst. unfold after, returned, DataSourceMetadata.upsert,
    DataSourceMetadata.findByName, other_sources_kept.
  rewrite Hlen, Hst. unfold set_sources. simpl. split; [reflexivity|].
  split.
  - apply f_equal.
    apply (find_put_same (mkSource sourceName path format now status)).
  - intros n Hn. cbn.
    rewrite (find_put_other (mkSource sourceName path format now status))
      by exact Hn.
    reflexivity.
Qed.

(** The reconcilers do not write the table of the sources. *)
Lemma rows_keep_sources Date_parse body records r st :
  In body [production_row Date_parse; quality_row Date_parse;
           shipping_row Date_parse] ->
  data_source_metadatas (after (each_record body records r) st)
  = data_source_metadatas st.
Proof.
  intros Hbody.
  pose (I := fun s : store =>
               data_source_metadatas s = data_source_metadatas st).
  assert (Hrow : forall record, keeps I (body record)).
  { intros record.
    assert (Hu : forall s i, I s -> I (updated i cleared s)).
    { intros s i H. unfold I.
      destruct (updated_rest i cleared s) as (_ & _ & _ & _ & _ & _ & ->).
      exact H. }
    destruct Hbody as [<-|[<-|[<-|[]]]];
      [apply production_row_keeps_it|apply quality_row_keeps_it
      |apply shipping_row_keeps_it];
      first [exact Hu | intros; exact H | intros; assumption]. }
  pose proof (each_record_keeps I body records Hrow r st eq_refl) as H.
  unfold after. destruct (each_record body records r st) as [[a|e] s];
    exact H.
Qed.

(** An ingestion of a non-empty batch is the loop over the rows followed
    by the upsert of the metadata of the source. *)
Lemma ingest_unfold Date_parse sourceName path format status body record rest
    now st :
  In body [production_row Date_parse; quality_row Date_parse;
           shipping_row Date_parse] ->
  exists r new st1,
    errors r = new /\ Forall (fun e => is_row_error e = true) new
    /\ (recordsIngested r + List.length new = S (List.length rest))%nat
    /\ data_source_metadatas st1 = data_source_metadatas st
    /\ ingest sourceName path format status body (record :: rest) now st
       = match DataSourceMetadata.upsert sourceName path format (status r) now
                 st1 with
         | (Ok _, st2) => (Ok r, st2)
         | (Throw e, st2) => (Ok (push_error (IngestionFailed e) r), st2)
         end.
Proof.
  intros Hbody. unfold ingest.
  set (records := record :: rest).
  pose proof (rows_keep_sources Date_parse body records
                (mkIngestion sourceName (List.length records) 0 []) st Hbody)
    as Hsrc.
  destruct (each_record_accounts body records
              (mkIngestion sourceName (List.length records) 0 []) st)
    as (r & new & st1 & Hrun & _ & _ & He & Hn & Hc).
  unfold after in Hsrc. rewrite Hrun in Hsrc. simpl in Hsrc, He, Hc.
  exists r, new, st1. unfold bind at 1. rewrite Hrun.
  unfold try_catch, bind.
  repeat split; try assumption.
  destruct (DataSourceMetadata.upsert _ _ _ _ _ _) as [[m|e] st2];
    reflexivity.
Qed.

Lemma ingest_always_healthy Date_parse sourceName path format body records
    now st :
  In body [production_row Date_parse; quality_row Date_parse;
           shipping_row Date_parse] ->
  (100 <? length sourceName)%nat || (10 <? length format)%nat = false ->
  let m := ingest sourceName path format (fun _ => "Healthy") body records
             now in
  exists r,
    returned m st = Ok r
    /\ match records with
       | [] => after m st = st
       | _ :: _ =>
           row_errors r = errors r
           /\ returned (DataSourceMetadata.findByName sourceName) (after m st)
              = Ok (Some (healthy_source sourceName path format now))
           /\ other_sources_kept sourceName st (after m st)
       end.
Proof.
  intros Hbody Hlen m. subst m. destruct records as [|record rest].
  { eexists. split; reflexivity. }
  destruct (ingest_unfold Date_parse sourceName path format
              (fun _ => "Healthy") body record rest now st Hbody)
    as (r & new & st1 & He & Hn & _ & Hsrc & Hrun).
  assert (Hl : (100 <? length sourceName)%nat || (10 <? length format)%nat
               || (20 <? length "Healthy")%nat = false)
    by (rewrite Hlen; reflexivity).
  destruct (upsert_then_find sourceName path format "Healthy" now st1 Hl
              eq_refl) as (Hu & Hf & Ho).
  unfold returned, after in *. rewrite Hrun.
  destruct (DataSourceMetadata.upsert _ _ _ _ _ _) as [[x|e] st2];
    [|discriminate].
  simpl in *. exists r. split; [reflexivity|].
  split; [unfold row_errors; rewrite He; apply filter_all; exact Hn|].
  split; [exact Hf|].
  intros n Hne. rewrite (Ho n Hne).
  unfold returned, DataSourceMetadata.findByName. simpl.
  rewrite Hsrc. reflexivity.
Qed.

(** X19: an ingestion of quality or shipping logs never throws.  On an
    empty batch it leaves the database as it is.  On any other batch, the
    errors of the result are row errors only, and afterwards the source is
    found by its name with its path, its format, the time of the ingestion
    and the status Healthy, whatever number of rows failed; the rows of
    the other sources are as before. *)
Theorem quality_and_shipping_sources_are_always_healthy :
  forall Date_parse config records now st,
    (let m := ingestQualityLogs Date_parse config records now in
     exists r,
       returned m st = Ok r
       /\ match records with
          | [] => after m st = st
          | _ :: _ =>
              row_errors r = errors r
              /\ returned (DataSourceMetadata.findByName "Quality Inspection")
                   (after m st)
                 = Ok (Some (healthy_source "Quality Inspection"
                               (qualityLogsPath config) "XLSX" now))
              /\ other_sources_kept "Quality Inspection" st (after m st)
          end)
    /\ (let m := ingestShippingLogs Date_parse config records now in
        exists r,
          returned m st = Ok r
          /\ match records with
             | [] => after m st = st
             | _ :: _ =>
                 row_errors r = errors r
                 /\ returned (DataSourceMetadata.findByName "Shipping Logs")
                      (after m st)
                    = Ok (Some (healthy_source "Shipping Logs"
                                  (shippingLogsPath config) "XLSX" now))
                 /\ other_sources_kept "Shipping Logs" st (after m st)
             end).
Proof.
  intros Date_parse config records now st. split.
  - apply (ingest_always_healthy Date_parse); [simpl; auto|reflexivity].
  - apply (ingest_always_healthy Date_parse); [simpl; auto|reflexivity].
Qed.

(** X20: an ingestion of production logs never throws, and leaves the
    database as it is on an empty batch.  On any other batch: when every
    row was ingested the result has no error and the source is found
    afterwards with the time of the ingestion and the status Healthy; when
    a row failed, the status that the code writes is refused by the
    database, so the table of the sources is left as it was and the
    errors of the result are the row errors followed by the failure of
    the batch. *)
Theorem production_source_is_refreshed_by_clean_batches_only :
  forall Date_parse config records now st,
    let m := ingestProductionLogs Date_parse config records now in
    exists r,
      returned m st = Ok r
      /\ match records with
         | [] => after m st = st
         | _ :: _ =>
             if (recordsIngested r =? List.length records)%nat
             then
               errors r = []
               /\ returned (DataSourceMetadata.findByName "Production Logs")
                    (after m st)
                  = Ok (Some (healthy_source "Production Logs"
                                (productionLogsPath config) "CSV" now))
               /\ other_sources_kept "Production Logs" st (after m st)
             else
               data_source_metadatas (after m st) = data_source_metadatas st
               /\ errors r
                  = (row_errors r
                     ++ [IngestionFailed (DbError string_too_long)])%list
               /\ row_errors r <> []
         end.
Proof.
  intros Date_parse config records now st m. subst m.
  unfold ingestProductionLogs. destruct records as [|record rest].
  { eexists. split; reflexivity. }
  match goal with
  | |- context [ingest ?n ?p ?f ?s ?b _ _] =>
      destruct (ingest_unfold Date_parse n p f s b record rest now st)
        as (r & new & st1 & He & Hn & Hc & Hsrc & Hrun); [simpl; auto|]
  end.
  cbv beta in Hrun. rewrite He in Hrun.
  unfold returned, after. rewrite Hrun. clear Hrun.
  destruct new as [|e new]; cbv iota.
  - destruct (upsert_then_find "Production Logs" (productionLogsPath config)
                "CSV" "Healthy" now st1 eq_refl eq_refl) as (Hu & Hf & Ho).
    unfold returned, after in Hu, Hf, Ho.
    destruct (DataSourceMetadata.upsert _ _ _ _ _ _) as [[x|e] st2];
      [|discriminate].
    simpl in *. exists r. split; [reflexivity|].
    replace (recordsIngested r =? S (List.length rest))%nat with true
      by (symmetry; apply Nat.eqb_eq; lia).
    split; [exact He|]. split; [exact Hf|].
    intros n Hne. rewrite (Ho n Hne).
    unfold returned, DataSourceMetadata.findByName. simpl.
    rewrite Hsrc. reflexivity.
  - simpl. eexists. split; [reflexivity|]. simpl in *.
    replace (recordsIngested r =? S (List.length rest))%nat with false
      by (symmetry; apply Nat.eqb_neq; lia).
    split; [exact Hsrc|].
    unfold row_errors, push_error. cbn [errors].
    rewrite He, filter_app, (filter_all _ _ Hn). simpl.
    rewrite app_nil_r. split; [reflexivity|discriminate].
Qed.

(** ** Ingestion: the same batch again *)

Lemma each_record_cons body record rest r st :
  each_record body (record :: rest) r st
  = each_record body rest (row_result record (returned (body record) st) r)
      (after (body record) st).
Proof.
  cbn [each_record]. unfold bind, try_catch, returned, after.
  destruct (body record st) as [[[]|e] s']; reflexivity.
Qed.

Lemma resolves_like_refl s : resolves_like s s.
Proof. intros code d l H. exists l. auto. Qed.

Lemma resolves_like_trans s t u :
  resolves_like s t -> resolves_like t u -> resolves_like s u.
Proof.
  intros H1 H2 code d l H.
  destruct (H1 code d l H) as (l1 & F1 & I1).
  destruct (H2 code d l1 F1) as (l2 & F2 & I2).
  exists l2. split; [exact F2|congruence].
Qed.

Lemma resolves_like_appended s t more :
  lots t = (lots s ++ more)%list -> resolves_like s t.
Proof.
  intros Hl code d l H. exists l. rewrite Hl, find_append, H. auto.
Qed.

Lemma resolves_like_lots s t t' :
  lots t' = lots t -> resolves_like s t -> resolves_like s t'.
Proof. intros Hl H code d l F. rewrite Hl. apply (H code d l F). Qed.

Lemma find_lot_exists p st (l : lot) :
  find p (lots st) = Some l -> lot_exists (lot_id l) st = true.
Proof.
  intros H. apply find_some in H. destruct H as [Hl _].
  apply existsb_exists. exists l. split; [exact Hl|apply Z.eqb_refl].
Qed.

(** The checks of [ProductionRecord.create] other than the foreign key do
    not read the database. *)
Lemma production_create_replays i line sh planned actual downtime issue s t :
  lot_exists i s = true -> lot_exists i t = true ->
  exists o : outcome error production_record,
    ProductionRecord.create i line sh planned actual downtime issue s
    = (o, match o with Ok r => add_production r s | Throw _ => s end)
    /\ ProductionRecord.create i line sh planned actual downtime issue t
       = (o, match o with Ok r => add_production r t | Throw _ => t end).
Proof.
  intros Hs Ht.
  unfold ProductionRecord.create, bind, lift_db, get, modify, throw, ret.
  destruct (varchar 20 line) as [x1|e];
    [|exists (Throw (DbError e)); split; reflexivity].
  destruct (varchar 20 sh) as [x2|e];
    [|exists (Throw (DbError e)); split; reflexivity].
  destruct (integer planned) as [x3|e];
    [|exists (Throw (DbError e)); split; reflexivity].
  destruct (integer actual) as [x4|e];
    [|exists (Throw (DbError e)); split; reflexivity].
  destruct (integer downtime) as [x5|e];
    [|exists (Throw (DbError e)); split; reflexivity].
  rewrite Hs, Ht. simpl.
  destruct (negb _);
    [eexists (Throw _)|eexists (Ok _)]; split; reflexivity.
Qed.

Lemma bind_run {A B} (m : M A) (k : A -> M B) st :
  bind m k st
  = match m st with
    | (Ok a, st') => k a st'
    | (Throw e, st') => (Throw e, st')
    end.
Proof. reflexivity. Qed.

Ltac conjuncts := repeat match goal with |- _ /\ _ => split end.

Lemma production_row_cases Date_parse record :
  (exists o,
     o <> Ok Ingested
     /\ production_row Date_parse record = (fun st => (o, st)))
  \/ (exists code dateText,
        production_row Date_parse record
        = (lot <- Lot.create code dateText ;;
           production_of record (lot_id lot) ;;;
           ret Ingested)).
Proof.
  unfold production_row.
  destruct (cleanLotCode _) as [code|e];
    [|left; exists (Throw (JsError e)); split; [discriminate|reflexivity]].
  destruct (standardizeDate _ _) as [dateText|e];
    [|left; exists (Throw (JsError e)); split; [discriminate|reflexivity]].
  destruct (missing_key code dateText) eqn:Hkey.
  - left. exists (Ok Rejected). split; [discriminate|].
    simpl. unfold bind at 1. simpl. unfold bind at 1. simpl.
    rewrite Hkey. reflexivity.
  - right. exists code, (the_date dateText).
    simpl. unfold bind at 1. simpl. unfold bind at 1. simpl.
    rewrite Hkey. reflexivity.
Qed.

(** [Lot.create] either fails on its arguments, whatever the database, or
    returns a lot that the database resolves from then on; a database that
    resolves the key already returns its lot and adds none. *)
Lemma create_replays code dateText s :
  ids_fresh s ->
  (exists e, forall t, Lot.create code dateText t = (Throw e, t))
  \/ (exists d l s1,
        Lot.create code dateText s = (Ok l, s1)
        /\ ids_fresh s1
        /\ find (Lot.same_key code d) (lots s1) = Some l
        /\ (exists more, lots s1 = (lots s ++ more)%list)
        /\ production_records s1 = production_records s
        /\ forall t l',
             find (Lot.same_key code d) (lots t) = Some l' ->
             Lot.create code dateText t
             = (Ok l', set_lots_id_seq (lots_id_seq t + 1) t)).
Proof.
  intros Hfresh. unfold Lot.create.
  destruct (date_in dateText) as [d|];
    [|left; eexists; intros t; reflexivity].
  destruct (50 <? length code)%nat;
    [left; eexists; intros t; reflexivity|].
  right. exists d.
  destruct (find (Lot.same_key code d) (lots s)) as [l|] eqn:Hfind.
  - exists l. eexists. split; [reflexivity|].
    split; [apply ids_fresh_sequence, Hfresh|].
    split; [exact Hfind|].
    split; [exists []; simpl; rewrite app_nil_r; reflexivity|].
    split; [reflexivity|].
    intros t l' ->. reflexivity.
  - rewrite (ids_fresh_no_lot s Hfresh). eexists. eexists.
    split; [reflexivity|].
    split; [apply (ids_fresh_new_lot s code d Hfresh)|].
    split.
    { simpl. rewrite find_append, Hfind. simpl.
      unfold Lot.same_key. simpl.
      rewrite String.eqb_refl, (proj2 (date_eqb_eq d d) eq_refl).
      reflexivity. }
    split; [eexists; reflexivity|].
    split; [reflexivity|].
    intros t l' ->. reflexivity.
Qed.

Lemma production_row_replays Date_parse record s t :
  ids_fresh s ->
  resolves_like (after (production_row Date_parse record) s) t ->
  exists new,
    production_records (after (production_row Date_parse record) s)
    = (production_records s ++ new)%list
    /\ List.length new
       = match returned (production_row Date_parse record) s with
         | Ok Ingested => 1%nat
         | _ => 0%nat
         end
    /\ returned (production_row Date_parse record) t
       = returned (production_row Date_parse record) s
    /\ lots (after (production_row Date_parse record) t) = lots t
    /\ production_records (after (production_row Date_parse record) t)
       = (production_records t ++ new)%list
    /\ ids_fresh (after (production_row Date_parse record) s)
    /\ exists more,
         lots (after (production_row Date_parse record) s)
         = (lots s ++ more)%list.
Proof.
  intros Hfresh. unfold after, returned.
  destruct (production_row_cases Date_parse record)
    as [(o & Ho & ->)|(code & dateText & ->)].
  { intros _. exists []. simpl. rewrite !app_nil_r. conjuncts; auto.
    - destruct o as [[]|]; congruence.
    - exists []. rewrite app_nil_r. reflexivity. }
  rewrite !bind_run.
  destruct (create_replays code dateText s Hfresh)
    as [(e & He)|(d & l & s1 & Hs & Hfresh1 & Hfind & Hmore & Hprod & Ht)].
  { rewrite !He. intros _. exists []. simpl. rewrite !app_nil_r.
    conjuncts; auto. exists []. rewrite app_nil_r. reflexivity. }
  rewrite Hs.
  assert (Hl1 : lot_exists (lot_id l) s1 = true)
    by (apply (find_lot_exists _ s1 l Hfind)).
  assert (Hsame : lots (snd ((production_of record (lot_id l) ;;;
                              ret Ingested) s1)) = lots s1).
  { rewrite bind_run. unfold production_of.
    match goal with
    | |- context [ProductionRecord.create ?i ?a ?b ?c ?d0 ?e ?f s1] =>
        destruct (production_create_replays i a b c d0 e f s1 s1 Hl1 Hl1)
          as (o & -> & _)
    end.
    destruct o; reflexivity. }
  intros Hlike.
  destruct (Hlike code d l) as (l' & Hfind' & Hid);
    [rewrite Hsame; exact Hfind|].
  rewrite (Ht t l' Hfind'), Hid.
  set (t1 := set_lots_id_seq (lots_id_seq t + 1) t) in *.
  assert (Hl2 : lot_exists (lot_id l) t1 = true)
    by (rewrite <- Hid; apply (find_lot_exists _ t l' Hfind')).
  rewrite !bind_run. unfold production_of.
  match goal with
  | |- context [ProductionRecord.create ?i ?a ?b ?c ?d0 ?e ?f s1] =>
      destruct (production_create_replays i a b c d0 e f s1 t1 Hl1 Hl2)
        as (o & -> & ->)
  end.
  destruct o as [r|e]; simpl.
  - exists [r]. rewrite Hprod. conjuncts; auto.
  - exists []. rewrite !app_nil_r. conjuncts; auto.
Qed.

Lemma production_rows_replay Date_parse records :
  forall r s t,
    ids_fresh s ->
    resolves_like
      (after (each_record (production_row Date_parse) records r) s) t ->
    exists r1 new,
      returned (each_record (production_row Date_parse) records r) s = Ok r1
      /\ returned (each_record (production_row Date_parse) records r) t
         = Ok r1
      /\ recordsIngested r1 = (recordsIngested r + List.length new)%nat
      /\ production_records
           (after (each_record (production_row Date_parse) records r) s)
         = (production_records s ++ new)%list
      /\ production_records
           (after (each_record (production_row Date_parse) records r) t)
         = (production_records t ++ new)%list
      /\ lots (after (each_record (production_row Date_parse) records r) t)
         = lots t
      /\ exists more,
           lots (after (each_record (production_row Date_parse) records r) s)
           = (lots s ++ more)%list.
Proof.
  unfold after, returned.
  induction records as [|record rest IH]; intros r s t Hfresh Hlike.
  { exists r, []. simpl. rewrite !app_nil_r. conjuncts; auto.
    exists []. rewrite app_nil_r. reflexivity. }
  rewrite each_record_cons in Hlike. rewrite !each_record_cons.
  set (s' := after (production_row Date_parse record) s) in *.
  set (o := returned (production_row Date_parse record) s) in *.
  destruct (production_row_replays Date_parse record s s' Hfresh
              (resolves_like_refl s'))
    as (_ & _ & _ & _ & _ & _ & Hfresh' & _).
  fold s' in Hfresh'.
  destruct (IH (row_result record o r) s' _ Hfresh' (resolves_like_refl _))
    as (_ & _ & _ & _ & _ & _ & _ & _ & more' & Hmore').
  destruct (production_row_replays Date_parse record s t Hfresh)
    as (new1 & Hp1 & Hn1 & Ho & Hl1 & Hq1 & _ & more & Hmore).
  { fold s'. eapply resolves_like_trans; [|exact Hlike].
    eapply resolves_like_appended. exact Hmore'. }
  fold s' in Hp1, Hmore. fold o in Hn1, Ho. rewrite Ho.
  set (t' := after (production_row Date_parse record) t) in *.
  destruct (IH (row_result record o r) s' t' Hfresh')
    as (r1 & new & H1 & H2 & Hc & Hp & Hq & Hl & _).
  { eapply resolves_like_lots; [exact Hl1|exact Hlike]. }
  exists r1, (new1 ++ new)%list.
  split; [exact H1|]. split; [exact H2|].
  split.
  { rewrite Hc, length_app, Hn1. unfold row_result.
    destruct o as [[]|]; simpl; lia. }
  split; [rewrite Hp, Hp1, app_assoc; reflexivity|].
  split; [rewrite Hq, Hq1, app_assoc; reflexivity|].
  split; [rewrite Hl; exact Hl1|].
  exists (more ++ more')%list. rewrite Hmore', Hmore, app_assoc. reflexivity.
Qed.

(** The upsert of the metadata of a source succeeds or fails on its
    arguments, and writes the table of the sources only. *)
Lemma upsert_cases sourceName path format status :
  (exists e,
     forall now st,
       DataSourceMetadata.upsert sourceName path format status now st
       = (Throw e, st))
  \/ (forall now,
        exists m put,
          forall st,
            DataSourceMetadata.upsert sourceName path format status now st
            = (Ok m, set_sources put st)).
Proof.
  unfold DataSourceMetadata.upsert.
  destruct (_ || _); [left; eexists; intros now st; reflexivity|].
  destruct (negb _); [left; eexists; intros now st; reflexivity|].
  right. intros now. eexists. eexists. intros st. reflexivity.
Qed.

(** X21: ingestion of production logs is not idempotent.  From a database
    whose lot ids are below the sequence, ingesting the same batch a second
    time returns the same result as the first time and adds no lot, but
    appends the production records of the first time once more. *)
Theorem production_batch_again_duplicates_records :
  forall Date_parse config records now now' st,
    ids_fresh st ->
    let st1 := after (ingestProductionLogs Date_parse config records now) st in
    let st2 :=
      after (ingestProductionLogs Date_parse config records now') st1 in
    exists r new,
      returned (ingestProductionLogs Date_parse config records now) st = Ok r
      /\ returned (ingestProductionLogs Date_parse config records now') st1
         = Ok r
      /\ List.length new = recordsIngested r
      /\ production_records st1 = (production_records st ++ new)%list
      /\ production_records st2 = (production_records st1 ++ new)%list
      /\ lots st2 = lots st1.
Proof.
  intros Date_parse config records now now' st Hfresh. cbv zeta.
  unfold ingestProductionLogs, ingest.
  destruct records as [|record rest].
  { eexists. exists []. unfold after, returned. simpl.
    rewrite !app_nil_r. conjuncts; reflexivity. }
  set (records := record :: rest).
  set (r0 := mkIngestion "Production Logs" (List.length records) 0 []).
  set (status := fun result : ingestion_result =>
                   match errors result with
                   | [] => "Healthy"
                   | _ :: _ => "Healthy (Some Errors)"
                   end).
  set (rows := each_record (production_row Date_parse) records r0).
  set (run := fun nw : Z =>
                result <- rows ;;
                try_catch
                  (DataSourceMetadata.upsert "Production Logs"
                     (productionLogsPath config) "CSV" (status result) nw ;;;
                   ret result)
                  (fun error =>
                     ret (push_error (IngestionFailed error) result))).
  change (exists r new,
            returned (run now) st = Ok r
            /\ returned (run now') (after (run now) st) = Ok r
            /\ List.length new = recordsIngested r
            /\ production_records (after (run now) st)
               = (production_records st ++ new)%list
            /\ production_records (after (run now') (after (run now) st))
               = (production_records (after (run now) st) ++ new)%list
            /\ lots (after (run now') (after (run now) st))
               = lots (after (run now) st)).
  assert (Hfinish :
    forall r1 nw x,
      returned rows x = Ok r1 ->
      exists r2,
        returned (run nw) x = Ok r2
        /\ lots (after (run nw) x) = lots (after rows x)
        /\ production_records (after (run nw) x)
           = production_records (after rows x)
        /\ recordsIngested r2 = recordsIngested r1
        /\ r2 = match fst (DataSourceMetadata.upsert "Production Logs"
                             (productionLogsPath config) "CSV" (status r1) nw
                             (after rows x)) with
                | Ok _ => r1
                | Throw e => push_error (IngestionFailed e) r1
                end).
  { intros r1 nw x. unfold returned, after, run. intros Hr.
    rewrite bind_run.
    destruct (rows x) as [o x1]. simpl in Hr. subst o. simpl.
    unfold try_catch. rewrite bind_run.
    destruct (upsert_cases "Production Logs" (productionLogsPath config)
                "CSV" (status r1)) as [(e & E)|E];
      [rewrite E|destruct (E nw) as (m & put & ->)];
      simpl; eexists; conjuncts; reflexivity. }
  destruct (production_rows_replay Date_parse records r0 st (after rows st)
              Hfresh (resolves_like_refl _))
    as (r1 & new & H1 & _ & Hc & Hp & _ & _ & _).
  fold rows in H1, Hp.
  destruct (Hfinish r1 now st H1) as (ra & Ha & Hla & Hpa & Hca & Hea).
  set (st1 := after (run now) st) in *.
  destruct (production_rows_replay Date_parse records r0 st st1 Hfresh)
    as (r1' & new' & H1' & H2 & _ & Hp' & Hq & Hl & _).
  { fold rows. eapply resolves_like_lots;
      [exact Hla|apply resolves_like_refl]. }
  fold rows in H1', H2, Hp', Hq, Hl.
  rewrite H1 in H1'. injection H1' as <-.
  assert (new' = new)
    by (rewrite Hp in Hp'; symmetry; apply (app_inv_head _ _ _ Hp')).
  subst new'.
  destruct (Hfinish r1 now' st1 H2) as (rb & Hb & Hlb & Hpb & Hcb & Heb).
  assert (Hab : rb = ra).
  { rewrite Heb, Hea.
    destruct (upsert_cases "Production Logs" (productionLogsPath config)
                "CSV" (status r1)) as [(e & E)|E].
    - rewrite !E. reflexivity.
    - destruct (E now) as (m & put & ->).
      destruct (E now') as (m' & put' & ->). reflexivity. }
  rewrite Hab in Hb. exists ra, new.
  split; [exact Ha|]. split; [exact Hb|].
  split; [simpl in Hc; lia|].
  split; [rewrite Hpa; exact Hp|].
  split; [rewrite Hpb, Hq; reflexivity|].
  rewrite Hlb, Hl. reflexivity.
Qed.

Lemma production_batch_again_duplicates_records_witness :
  ids_fresh Db.empty
  /\ exists r new,
       returned (ingestProductionLogs no_parser default_config
                   [production_LOT9] 1) Db.empty = Ok r
       /\ returned (ingestProductionLogs no_parser default_config
                      [production_LOT9] 2)
            (after (ingestProductionLogs no_parser default_config
                      [production_LOT9] 1) Db.empty)
          = Ok r
       /\ List.length new = recordsIngested r
       /\ production_records
            (after (ingestProductionLogs no_parser default_config
                      [production_LOT9] 1) Db.empty)
          = (production_records Db.empty ++ new)%list
       /\ production_records
            (after (ingestProductionLogs no_parser default_config
                      [production_LOT9] 2)
               (after (ingestProductionLogs no_parser default_config
                         [production_LOT9] 1) Db.empty))
          = (production_records
               (after (ingestProductionLogs no_parser default_config
                         [production_LOT9] 1) Db.empty) ++ new)%list
       /\ lots
            (after (ingestProductionLogs no_parser default_config
                      [production_LOT9] 2)
               (after (ingestProductionLogs no_parser default_config
                         [production_LOT9] 1) Db.empty))
          = lots
              (after (ingestProductionLogs no_parser default_config
                        [production_LOT9] 1) Db.empty).
Proof.
  assert (F : ids_fresh Db.empty)
    by (split; [intros l []|constructor]).
  split; [exact F|].
  apply (production_batch_again_duplicates_records no_parser default_config
           [production_LOT9] 1 2 Db.empty F).
Defined.

Lemma bind_assoc {A B C} (m : M A) (f : A -> M B) (k : B -> M C) st :
  bind (bind m f) k st = bind m (fun x => bind (f x) k) st.
Proof. unfold bind. destruct (m st) as [[a|e] st']; reflexivity. Qed.

Lemma shipping_row_cases Date_parse record :
  (exists o,
     o <> Ok Ingested
     /\ forall st, shipping_row Date_parse record st = (o, st))
  \/ (exists code dateText,
        forall st,
          shipping_row Date_parse record st
          = (lot <- find_or_create code dateText ;;
             shipping_of record (lot_id lot) dateText ;;;
             ret Ingested) st).
Proof.
  unfold shipping_row.
  destruct (cleanLotCode _) as [code|e];
    [|left; exists (Throw (JsError e)); split; [discriminate|reflexivity]].
  destruct (standardizeDate _ _) as [dateText|e];
    [|left; exists (Throw (JsError e)); split; [discriminate|reflexivity]].
  destruct (missing_key code dateText) eqn:Hkey.
  - left. exists (Ok Rejected). split; [discriminate|]. intros st.
    simpl. unfold bind at 1. simpl. unfold bind at 1. simpl.
    rewrite Hkey. reflexivity.
  - right. exists code, (the_date dateText). intros st.
    simpl. unfold bind at 1. simpl. unfold bind at 1. simpl.
    rewrite Hkey. unfold find_or_create. rewrite bind_assoc. reflexivity.
Qed.

(** Identity resolution in a database whose lot ids are below the
    sequence and whose lot codes fit: it fails on its arguments, in every
    such database, or it returns a lot that the database resolves from
    then on, and a database that resolves the key already is left as it
    is. *)
Lemma find_or_create_replays code dateText s :
  ids_fresh s -> codes_fit s ->
  (exists e,
     find_or_create code dateText s = (Throw e, s)
     /\ forall t, codes_fit t -> find_or_create code dateText t = (Throw e, t))
  \/ (exists d l s1,
        find_or_create code dateText s = (Ok l, s1)
        /\ ids_fresh s1 /\ codes_fit s1
        /\ find (Lot.same_key code d) (lots s1) = Some l
        /\ (exists more, lots s1 = (lots s ++ more)%list)
        /\ shipping_records s1 = shipping_records s
        /\ forall t l',
             find (Lot.same_key code d) (lots t) = Some l' ->
             find_or_create code dateText t = (Ok l', t)).
Proof.
  intros Hfresh Hfit.
  unfold find_or_create, Lot.findByCompositeKey, Lot.create.
  destruct (date_in dateText) as [d|] eqn:Hd.
  2:{ left. eexists. split; [reflexivity|].
      intros t _. rewrite bind_run. reflexivity. }
  assert (Hfound :
    forall t l',
      find (Lot.same_key code d) (lots t) = Some l' ->
      (found <- (fun st : store =>
                   (Ok (find (Lot.same_key code d) (lots st)), st)
                   : outcome error (option lot) * store) ;;
       match found with
       | Some l => ret l
       | None => Lot.create code dateText
       end) t = (Ok l', t)).
  { intros t l' H. rewrite bind_run, H. reflexivity. }
  assert (Hlong :
    forall t,
      (50 <? length code)%nat = true -> codes_fit t ->
      find (Lot.same_key code d) (lots t) = None).
  { intros t Hlen Ht.
    destruct (find (Lot.same_key code d) (lots t)) as [l|] eqn:Hf;
      [|reflexivity].
    apply find_some in Hf. destruct Hf as [Hl Hk].
    unfold Lot.same_key in Hk. apply andb_true_iff in Hk.
    destruct Hk as [Hk _]. apply String.eqb_eq in Hk.
    specialize (Ht l Hl). rewrite Hk in Ht.
    apply Nat.ltb_lt in Hlen. lia. }
  destruct (find (Lot.same_key code d) (lots s)) as [l|] eqn:Hfind.
  - right. exists d, l, s. rewrite bind_run, Hfind.
    split; [reflexivity|]. split; [exact Hfresh|]. split; [exact Hfit|].
    split; [reflexivity|].
    split; [exists []; rewrite app_nil_r; reflexivity|].
    split; [reflexivity|].
    intros t l' H. unfold Lot.create in Hfound. rewrite Hd in Hfound.
    apply Hfound. exact H.
  - destruct (50 <? length code)%nat eqn:Hlen.
    + left. eexists. rewrite bind_run, Hfind. split; [reflexivity|].
      intros t Ht. rewrite bind_run, (Hlong t eq_refl Ht). reflexivity.
    + right. exists d. rewrite bind_run, Hfind. cbv beta iota.
      rewrite Hfind, (ids_fresh_no_lot s Hfresh). eexists. eexists.
      split; [reflexivity|].
      split; [apply (ids_fresh_new_lot s code d Hfresh)|].
      split.
      { intros l Hl. simpl in Hl. apply in_app_or in Hl.
        destruct Hl as [Hl|[<-|[]]]; [apply Hfit, Hl|].
        simpl. apply Nat.ltb_ge in Hlen. exact Hlen. }
      split.
      { simpl. rewrite find_append, Hfind. simpl.
        unfold Lot.same_key. simpl.
        rewrite String.eqb_refl, (proj2 (date_eqb_eq d d) eq_refl).
        reflexivity. }
      split; [eexists; reflexivity|].
      split; [reflexivity|].
      intros t l' H. unfold Lot.create in Hfound.
      rewrite Hd, Hlen in Hfound. apply Hfound. exact H.
Qed.

(** [ShippingRecord.create] fails on its arguments, whatever the database,
    or, for a lot that exists, fails when the lot has a shipping record
    and otherwise stores a record for it or fails on the quantity. *)
Lemma shipping_create_cases i dateText dest carr qty status :
  (exists e,
     forall st,
       ShippingRecord.create i dateText dest carr qty status st
       = (Throw e, st))
  \/ (exists r (negative : bool),
        s_lot_id r = i
        /\ forall st,
             lot_exists i st = true ->
             ShippingRecord.create i dateText dest carr qty status st
             = if has_shipping i st
               then (Throw (DbError unique_violation), st)
               else if negative then (Throw (DbError check_violation), st)
               else (Ok r, add_shipping r st)).
Proof.
  unfold ShippingRecord.create.
  destruct (date_in dateText) as [d|];
    [|left; eexists; intros st; reflexivity].
  destruct (varchar 2 dest) as [x1|e];
    [|left; exists (DbError e); intros st; reflexivity].
  destruct (varchar 50 carr) as [x2|e];
    [|left; exists (DbError e); intros st; reflexivity].
  destruct (integer qty) as [x3|e];
    [|left; exists (DbError e); intros st; reflexivity].
  destruct (varchar 20 status) as [x4|e];
    [|left; exists (DbError e); intros st; reflexivity].
  right. exists (mkShipping i d x1 x2 x3 x4), (negb (0 <=? x3)%Z).
  split; [reflexivity|]. intros st Hlot.
  unfold bind, lift_db, get, modify, throw, ret, has_shipping. simpl.
  rewrite Hlot. simpl.
  destruct (existsb _ (shipping_records st)); [reflexivity|].
  destruct (negb (0 <=? x3)%Z); reflexivity.
Qed.

Lemma has_shipping_added r st :
  has_shipping (s_lot_id r) (add_shipping r st) = true.
Proof.
  unfold has_shipping, add_shipping. simpl.
  rewrite existsb_app. simpl. rewrite Z.eqb_refl.
  rewrite orb_true_r. reflexivity.
Qed.

(** A row of shipping logs in the first ingestion, and the same row in a
    later database that resolves the keys and has the shipping records of
    the first: the row is not ingested again, and the later database is
    left as it is. *)
Lemma shipping_row_again Date_parse record s :
  ids_fresh s -> codes_fit s ->
  let s' := after (shipping_row Date_parse record) s in
  ids_fresh s' /\ codes_fit s'
  /\ (exists more, lots s' = (lots s ++ more)%list)
  /\ (exists new, shipping_records s' = (shipping_records s ++ new)%list)
  /\ forall t,
       codes_fit t -> resolves_like s' t -> ships_like s' t ->
       after (shipping_row Date_parse record) t = t
       /\ returned (shipping_row Date_parse record) t <> Ok Ingested.
Proof.
  intros Hfresh Hfit. unfold after, returned.
  assert (Hnil : forall A (l : list A), exists x, l = (l ++ x)%list)
    by (intros A l; exists []; rewrite app_nil_r; reflexivity).
  destruct (shipping_row_cases Date_parse record)
    as [(o & Ho & Heq)|(code & dateText & Heq)].
  { rewrite Heq. simpl. conjuncts; auto.
    intros t _ _ _. rewrite Heq. split; [reflexivity|exact Ho]. }
  assert (Hrow :
    forall t,
      (snd ((lot <- find_or_create code dateText ;;
             shipping_of record (lot_id lot) dateText ;;;
             ret Ingested) t) = t
       /\ fst ((lot <- find_or_create code dateText ;;
                shipping_of record (lot_id lot) dateText ;;;
                ret Ingested) t) <> Ok Ingested) ->
      snd (shipping_row Date_parse record t) = t
      /\ fst (shipping_row Date_parse record t) <> Ok Ingested)
    by (intros t; rewrite Heq; auto).
  rewrite Heq, bind_run.
  destruct (find_or_create_replays code dateText s Hfresh Hfit)
    as [(e & He & Ht)
       |(d & l & s1 & Hs & Hfresh1 & Hfit1 & Hfind & Hmore & Hship & Ht)].
  { rewrite He. simpl. conjuncts; auto.
    intros t Hfit' _ _. apply Hrow.
    rewrite bind_run, (Ht t Hfit'). split; [reflexivity|discriminate]. }
  rewrite Hs, bind_run.
  assert (Hl1 : lot_exists (lot_id l) s1 = true)
    by (apply (find_lot_exists _ s1 l Hfind)).
  assert (Hagain :
    forall s' t,
      lots s' = lots s1 ->
      (has_shipping (lot_id l) s' = false ->
       forall st,
         lot_exists (lot_id l) st = true ->
         exists e,
           shipping_of record (lot_id l) dateText st = (Throw e, st)) ->
      codes_fit t -> resolves_like s' t -> ships_like s' t ->
      snd ((lot <- find_or_create code dateText ;;
            shipping_of record (lot_id lot) dateText ;;;
            ret Ingested) t) = t
      /\ fst ((lot <- find_or_create code dateText ;;
               shipping_of record (lot_id lot) dateText ;;;
               ret Ingested) t) <> Ok Ingested).
  { intros s' t Hlots Hthrows Hfit' Hlike Hships.
    destruct (Hlike code d l) as (l' & Hfind' & Hid);
      [rewrite Hlots; exact Hfind|].
    rewrite bind_run, (Ht t l' Hfind'), bind_run, Hid.
    assert (Hl2 : lot_exists (lot_id l) t = true)
      by (rewrite <- Hid; apply (find_lot_exists _ t l' Hfind')).
    destruct (has_shipping (lot_id l) s') eqn:Hhas.
    - apply Hships in Hhas.
      assert (Hc := shipping_create_cases (lot_id l) dateText
                  (trimString
                     (or (or (prop record "Destination State")
                            (prop record "State")) (VStr "")))
                  (trimString (or (prop record "Carrier") (VStr "UNKNOWN")))
                  (toInteger
                     (or (or (prop record "Qty Shipped")
                            (prop record "Quantity")) (VNum (NInt 0)))
                     (NInt 0))
                  (trimString
                     (or (prop record "Status") (VStr "In Transit")))).
      fold (shipping_of record (lot_id l) dateText) in Hc.
      destruct Hc as [(e & ->)|(r & negative & _ & Hc)];
        [split; [reflexivity|discriminate]|].
      rewrite (Hc t Hl2), Hhas. split; [reflexivity|discriminate].
    - destruct (Hthrows eq_refl t Hl2) as (e & ->).
      split; [reflexivity|discriminate]. }
  assert (Hcases :
    (exists e,
       forall st, shipping_of record (lot_id l) dateText st = (Throw e, st))
    \/ (exists r (negative : bool),
          s_lot_id r = lot_id l
          /\ forall st,
               lot_exists (lot_id l) st = true ->
               shipping_of record (lot_id l) dateText st
               = if has_shipping (lot_id l) st
                 then (Throw (DbError unique_violation), st)
                 else if negative
                 then (Throw (DbError check_violation), st)
                 else (Ok r, add_shipping r st)))
    by (unfold shipping_of; apply shipping_create_cases).
  destruct Hcases as [(e & He)|(r & negative & Hr & Hcreate)].
  { rewrite !He. simpl. rewrite Hship. conjuncts; auto.
    intros t Hfit' Hlike Hships. apply Hrow.
    apply (Hagain s1 t eq_refl); auto.
    intros _ st _. exists e. apply He. }
  rewrite !(Hcreate s1 Hl1).
  destruct (has_shipping (lot_id l) s1) eqn:Hhas; simpl.
  { rewrite Hship. conjuncts; auto.
    intros t Hfit' Hlike Hships. apply Hrow.
    apply (Hagain s1 t eq_refl); auto. congruence. }
  destruct negative; simpl.
  { rewrite Hship. conjuncts; auto.
    intros t Hfit' Hlike Hships. apply Hrow.
    apply (Hagain s1 t eq_refl); auto.
    intros _ st Hst. rewrite (Hcreate st Hst).
    destruct (has_shipping (lot_id l) st); eexists; reflexivity. }
  conjuncts; auto.
  - exists [r]. rewrite Hship. reflexivity.
  - intros t Hfit' Hlike Hships. apply Hrow.
    apply (Hagain (add_shipping r s1) t eq_refl); auto.
    rewrite <- Hr, has_shipping_added. discriminate.
Qed.

Lemma ships_like_appended s t new :
  shipping_records t = (shipping_records s ++ new)%list -> ships_like s t.
Proof.
  intros H i Hi. unfold has_shipping in *.
  rewrite H, existsb_app, Hi. reflexivity.
Qed.

Lemma ships_like_trans s t u :
  ships_like s t -> ships_like t u -> ships_like s u.
Proof. intros H1 H2 i Hi. apply H2, H1, Hi. Qed.

Lemma row_result_not_ingested record o r :
  o <> Ok Ingested ->
  recordsIngested (row_result record o r) = recordsIngested r.
Proof. destruct o as [[]|e]; simpl; congruence. Qed.

Lemma shipping_rows_again Date_parse records :
  forall r s,
    ids_fresh s -> codes_fit s ->
    let final := after (each_record (shipping_row Date_parse) records r) s in
    ids_fresh final /\ codes_fit final
    /\ (exists more, lots final = (lots s ++ more)%list)
    /\ (exists new,
          shipping_records final = (shipping_records s ++ new)%list)
    /\ forall t r',
         codes_fit t -> resolves_like final t -> ships_like final t ->
         after (each_record (shipping_row Date_parse) records r') t = t
         /\ forall r2,
              returned (each_record (shipping_row Date_parse) records r') t
              = Ok r2 ->
              recordsIngested r2 = recordsIngested r'.
Proof.
  unfold after, returned.
  induction records as [|record rest IH]; intros r s Hfresh Hfit; cbv zeta.
  { simpl. conjuncts; auto.
    - exists []. rewrite app_nil_r. reflexivity.
    - exists []. rewrite app_nil_r. reflexivity.
    - intros t r' _ _ _. split; [reflexivity|]. intros r2 [= <-]. reflexivity. }
  rewrite each_record_cons.
  destruct (shipping_row_again Date_parse record s Hfresh Hfit)
    as (Hfresh' & Hfit' & (more & Hmore) & (new & Hnew) & Hrow).
  set (s' := after (shipping_row Date_parse record) s) in *.
  set (r1 := row_result record _ r).
  destruct (IH r1 s' Hfresh' Hfit')
    as (Hfresh2 & Hfit2 & (more2 & Hmore2) & (new2 & Hnew2) & Hrest).
  cbv zeta in Hrest.
  set (final := snd (each_record (shipping_row Date_parse) rest r1 s')) in *.
  split; [exact Hfresh2|]. split; [exact Hfit2|].
  split; [exists (more ++ more2)%list;
          rewrite Hmore2, Hmore, app_assoc; reflexivity|].
  split; [exists (new ++ new2)%list;
          rewrite Hnew2, Hnew, app_assoc; reflexivity|].
  intros t r' Hfit3 Hlike Hships.
  destruct (Hrow t Hfit3) as [Hsame Hnot].
  { eapply resolves_like_trans; [|exact Hlike].
    eapply resolves_like_appended. exact Hmore2. }
  { eapply ships_like_trans; [|exact Hships].
    eapply ships_like_appended. exact Hnew2. }
  rewrite each_record_cons. rewrite Hsame.
  destruct (Hrest t (row_result record
                       (returned (shipping_row Date_parse record) t) r')
              Hfit3 Hlike Hships) as [Hstate Hcount].
  split; [exact Hstate|].
  intros r2 Hr2. rewrite (Hcount r2 Hr2).
  apply row_result_not_ingested. exact Hnot.
Qed.

Lemma set_sources_id st : set_sources (fun l => l) st = st.
Proof. destruct st; reflexivity. Qed.

(** X22: ingesting a batch of shipping logs a second time stores nothing.
    From a database whose lot ids are below the sequence and whose lot
    codes fit their column, the second ingestion of the batch counts no
    row as ingested and records one row error for every row, and the
    database it leaves differs from the one it started from in the table
    of the sources only. *)
Theorem shipping_batch_again_stores_nothing :
  forall Date_parse config records now now' st,
    ids_fresh st -> codes_fit st ->
    let st1 := after (ingestShippingLogs Date_parse config records now) st in
    exists r put,
      returned (ingestShippingLogs Date_parse config records now') st1 = Ok r
      /\ recordsIngested r = 0%nat
      /\ List.length (row_errors r) = List.length records
      /\ after (ingestShippingLogs Date_parse config records now') st1
         = set_sources put st1.
Proof.
  intros Date_parse config records now now' st Hfresh Hfit. cbv zeta.
  unfold ingestShippingLogs, ingest.
  destruct records as [|record rest].
  { eexists. exists (fun l => l). unfold after, returned. simpl.
    rewrite set_sources_id. conjuncts; reflexivity. }
  set (records := record :: rest).
  set (r0 := mkIngestion "Shipping Logs" (List.length records) 0 []).
  set (rows := each_record (shipping_row Date_parse) records r0).
  set (run := fun nw : Z =>
                result <- rows ;;
                try_catch
                  (DataSourceMetadata.upsert "Shipping Logs"
                     (shippingLogsPath config) "XLSX" "Healthy" nw ;;;
                   ret result)
                  (fun error =>
                     ret (push_error (IngestionFailed error) result))).
  change (exists r put,
            returned (run now') (after (run now) st) = Ok r
            /\ recordsIngested r = 0%nat
            /\ List.length (row_errors r) = List.length records
            /\ after (run now') (after (run now) st)
               = set_sources put (after (run now) st)).
  assert (Hfinish :
    forall nw x,
      exists r1 errs put,
        returned rows x = Ok r1
        /\ errors r1 = errs
        /\ Forall (fun e => is_row_error e = true) errs
        /\ (recordsIngested r1 + List.length errs = List.length records)%nat
        /\ after (run nw) x = set_sources put (after rows x)
        /\ returned (run nw) x = Ok r1).
  { intros nw x.
    destruct (each_record_accounts (shipping_row Date_parse) records r0 x)
      as (r1 & errs & x1 & Hrun & _ & _ & He & Hn & Hc).
    fold rows in Hrun. simpl in He, Hc.
    destruct (upsert_then_find "Shipping Logs" (shippingLogsPath config)
                "XLSX" "Healthy" nw x1 eq_refl eq_refl) as (Hu & _ & _).
    unfold returned in Hu.
    destruct (upsert_cases "Shipping Logs" (shippingLogsPath config)
                "XLSX" "Healthy") as [(e & E)|E];
      [rewrite E in Hu; discriminate|].
    destruct (E nw) as (m & put & Eput).
    exists r1, errs, put. unfold returned, after, run.
    rewrite !bind_run, Hrun. cbv beta iota. unfold try_catch.
    rewrite !bind_run, Eput. cbv beta iota. unfold ret.
    conjuncts; auto. }
  destruct (shipping_rows_again Date_parse records r0 st Hfresh Hfit)
    as (_ & Hfit1 & _ & _ & Hagain).
  fold rows in Hfit1, Hagain. cbv zeta in Hagain.
  destruct (Hfinish now st) as (ra & _ & puta & _ & _ & _ & _ & Hsa & _).
  set (st1 := after (run now) st) in *.
  destruct (Hagain st1 r0) as [Hstate Hcount].
  { intros l Hl. rewrite Hsa in Hl. apply Hfit1, Hl. }
  { eapply resolves_like_lots; [|apply resolves_like_refl].
    rewrite Hsa. reflexivity. }
  { eapply ships_like_appended with (new := []).
    rewrite Hsa, app_nil_r. reflexivity. }
  destruct (Hfinish now' st1) as (rb & errs & putb & Hrb & He & Hn & Hc & Hsb
                                  & Hb).
  change (after rows st1 = st1) in Hstate. rewrite Hstate in Hsb.
  specialize (Hcount rb Hrb). simpl in Hcount.
  exists rb, putb. split; [exact Hb|]. split; [exact Hcount|].
  split; [|exact Hsb].
  unfold row_errors. rewrite He, (filter_all _ _ Hn). lia.
Qed.

Lemma shipping_batch_again_stores_nothing_witness :
  ids_fresh Db.empty /\ codes_fit Db.empty
  /\ exists r put,
       returned (ingestShippingLogs no_parser default_config
                   [shipping_LOT9] 2)
         (after (ingestShippingLogs no_parser default_config
                   [shipping_LOT9] 1) Db.empty)
       = Ok r
       /\ recordsIngested r = 0%nat
       /\ List.length (row_errors r) = List.length [shipping_LOT9]
       /\ after (ingestShippingLogs no_parser default_config
                   [shipping_LOT9] 2)
            (after (ingestShippingLogs no_parser default_config
                      [shipping_LOT9] 1) Db.empty)
          = set_sources put
              (after (ingestShippingLogs no_parser default_config
                        [shipping_LOT9] 1) Db.empty).
Proof.
  assert (F : ids_fresh Db.empty)
    by (split; [intros l []|constructor]).
  assert (C : codes_fit Db.empty) by (intros l []).
  split; [exact F|]. split; [exact C|].
  apply (shipping_batch_again_stores_nothing no_parser default_config
           [shipping_LOT9] 1 2 Db.empty F C).
Defined.
